(** * Sudoku puzzle engine: shallow embedding and verification

    The engine lives in two presentation variants, [sudoku_game.py] and
    [sudoku_enhanced.py].  Both carry the same validator
    ([is_valid_move]) and the same board generator
    ([generate_complete_board]); they differ in the digit order of
    [solve_sudoku] (ascending against shuffled) and in [create_puzzle]
    (blind removal against removal certified by [count_solutions]).

    Boards are Python lists of lists of integers: [list (list Z)].  An
    index outside a list raises [IndexError]; recursion is bounded by
    fuel.  Randomness ([random.shuffle]) is an interface threaded as
    explicit state. *)

From Stdlib Require Import String.
From Stdlib Require Import ZArith List Lia Bool Permutation.
From Stdlib Require Import PrimInt63 PrimFloat FloatOps SpecFloat.
From stdpp Require Import base list.

Set Default Proof Using "Type".
Open Scope Z_scope.

(** ** Outcomes of running Python code *)

Inductive result (A : Type) : Type :=
| Ok (a : A)
| IndexError
| OutOfFuel.
Arguments Ok {A} a.
Arguments IndexError {A}.
Arguments OutOfFuel {A}.

Definition bind {A B : Type} (m : result A) (k : A -> result B) : result B :=
  match m with
  | Ok a => k a
  | IndexError => IndexError
  | OutOfFuel => OutOfFuel
  end.

Notation "'let*' x ':=' m 'in' k" := (bind m (fun x => k))
  (at level 10, x pattern, m at level 100, k at level 200, only parsing).

(** ** Boards *)

Abbreviation board := (list (list Z)).

(** [board[i][j]] *)
Definition board_get (b : board) (i j : nat) : result Z :=
  match b !! i with
  | Some r => match r !! j with
              | Some v => Ok v
              | None => IndexError
              end
  | None => IndexError
  end.

(** [board[i][j] = v] *)
Definition board_set (b : board) (i j : nat) (v : Z) : result board :=
  match b !! i with
  | Some r => if decide (j < length r)%nat
              then Ok (<[i := <[j := v]> r]> b)
              else IndexError
  | None => IndexError
  end.

(** [range(lo, hi)] over integers and [range(n)] over indices. *)
Definition range (lo hi : Z) : list Z :=
  map (fun k => lo + Z.of_nat k) (seq 0 (Z.to_nat (hi - lo))).

Definition digits : list Z := range 1 10.

(** [[(i, j) for i in range(9) for j in range(9)]] *)
Definition all_cells : list (nat * nat) :=
  flat_map (fun i => map (fun j => (i, j)) (seq 0 9)) (seq 0 9).

(** [[[0 for _ in range(9)] for _ in range(9)]] *)
Definition empty_board : board := replicate 9 (replicate 9 0).

(** ** Validator: [is_valid_move], identical in both files *)

(** One scanning loop [for ...: if board[i][j] == num: return False]:
    [Ok true] when some visited cell holds [num]. *)
Fixpoint scan (b : board) (num : Z) (cells : list (nat * nat)) : result bool :=
  match cells with
  | [] => Ok false
  | (i, j) :: rest =>
      let* v := board_get b i j in
      if v =? num then Ok true else scan b num rest
  end.

Definition row_cells (row : nat) : list (nat * nat) :=
  map (fun x => (row, x)) (seq 0 9).

Definition col_cells (col : nat) : list (nat * nat) :=
  map (fun x => (x, col)) (seq 0 9).

Definition box_cells (row col : nat) : list (nat * nat) :=
  let start_row := (row - row mod 3)%nat in
  let start_col := (col - col mod 3)%nat in
  flat_map (fun i => map (fun j => ((i + start_row)%nat, (j + start_col)%nat)) (seq 0 3))
           (seq 0 3).

Definition is_valid_move (b : board) (row col : nat) (num : Z) : result bool :=
  let* hit := scan b num (row_cells row) in
  if hit : bool then Ok false else
  let* hit := scan b num (col_cells col) in
  if hit : bool then Ok false else
  let* hit := scan b num (box_cells row col) in
  if hit : bool then Ok false else Ok true.

(** The double loop [for i in range(9): for j in range(9): if board[i][j] == 0]
    up to its first hit. *)
Fixpoint first_empty (b : board) (cells : list (nat * nat))
  : result (option (nat * nat)) :=
  match cells with
  | [] => Ok None
  | (i, j) :: rest =>
      let* v := board_get b i j in
      if v =? 0 then Ok (Some (i, j)) else first_empty b rest
  end.

(** ** Randomness: [random.shuffle] as an interface *)

Class Shuffler (rng : Type) : Type := {
  shuffle : forall {A : Type}, list A -> rng -> list A * rng;
  shuffle_perm : forall (A : Type) (l : list A) (s : rng),
      Permutation l (fst (shuffle l s))
}.

(** The shuffle that leaves every list as it is. *)
#[export] Instance id_shuffler : Shuffler unit := {|
  shuffle := fun A l s => (l, s);
  shuffle_perm := fun A l s => Permutation_refl l
|}.

(** A shuffle that rotates by a counter, which it then advances. *)
#[export] Program Instance rot_shuffler : Shuffler nat := {|
  shuffle := fun A l s => (rotate s l, S s)
|}.
Next Obligation.
  intros A l s. simpl. unfold rotate.
  rewrite <- (take_drop (s mod length l) l) at 1.
  apply Permutation_app_comm.
Qed.

(** ** Difficulty *)

Inductive Difficulty : Type := EASY | MEDIUM | HARD | EXPERT.

Definition difficulty_value (d : Difficulty) : float :=
  match d with
  | EASY => 0x1.3333333333333p-2
  | MEDIUM => 0.5
  | HARD => 0x1.6666666666666p-1
  | EXPERT => 0x1.999999999999ap-1
  end%float.

(** Python's [int(x)] on a float: truncation toward zero; infinities and
    NaN raise, which no difficulty value reaches. *)
Definition int_of_float (f : float) : Z :=
  match Prim2SF f with
  | S754_finite s m e =>
      let z := if 0 <=? e then Z.shiftl (Zpos m) e else Z.shiftr (Zpos m) (- e) in
      if s then - z else z
  | _ => 0
  end.

(** [int(81 * difficulty.value)] *)
Definition cells_to_remove (d : Difficulty) : Z :=
  int_of_float (PrimFloat.mul (PrimFloat.of_uint63 81%uint63) (difficulty_value d)).

(** ** Filling the diagonal boxes: shared by both [generate_complete_board] *)

(** [nums.pop()]: the last element, removed. *)
Definition pop {A : Type} (l : list A) : result (A * list A) :=
  match last l with
  | Some x => Ok (x, removelast l)
  | None => IndexError
  end.

(** [for i in range(3): for j in range(3): board[box + i][box + j] = nums.pop()] *)
Fixpoint fill_cells (cells : list (nat * nat)) (nums : list Z) (b : board)
  : result board :=
  match cells with
  | [] => Ok b
  | (i, j) :: rest =>
      let* (v, nums') := pop nums in
      let* b' := board_set b i j v in
      fill_cells rest nums' b'
  end.

Definition diag_box_cells (box : nat) : list (nat * nat) :=
  flat_map (fun i => map (fun j => ((box + i)%nat, (box + j)%nat)) (seq 0 3)) (seq 0 3).

(** [for box in range(0, 9, 3): nums = list(range(1, 10)); random.shuffle(nums); ...] *)
Fixpoint fill_diagonal {rng} `{Shuffler rng} (boxes : list nat) (b : board) (s : rng)
  : result (board * rng) :=
  match boxes with
  | [] => Ok (b, s)
  | box :: rest =>
      let (nums, s1) := shuffle digits s in
      let* b1 := fill_cells (diag_box_cells box) nums b in
      fill_diagonal rest b1 s1
  end.

(** ** [sudoku_game.py] *)

Module Game.

(** The loop [for num in range(1, 10)] of [solve_sudoku], with the
    recursive call abstracted as [rec]. *)
Fixpoint try_digits (rec : board -> result (bool * board)) (i j : nat)
    (nums : list Z) (b : board) : result (bool * board) :=
  match nums with
  | [] => Ok (false, b)
  | num :: rest =>
      let* ok := is_valid_move b i j num in
      if ok : bool then
        let* b1 := board_set b i j num in
        let* (solved, b2) := rec b1 in
        if solved : bool then Ok (true, b2)
        else
          let* b3 := board_set b2 i j 0 in
          try_digits rec i j rest b3
      else try_digits rec i j rest b
  end.

Fixpoint solve_sudoku (fuel : nat) (b : board) : result (bool * board) :=
  match fuel with
  | O => OutOfFuel
  | S fuel' =>
      let* e := first_empty b all_cells in
      match e with
      | Some (i, j) => try_digits (solve_sudoku fuel') i j (range 1 10) b
      | None => Ok (true, b)
      end
  end.

Definition generate_complete_board {rng} `{Shuffler rng} (fuel : nat) (s : rng)
  : result (board * rng) :=
  let* (b, s1) := fill_diagonal [0; 3; 6]%nat empty_board s in
  let* (_, b') := solve_sudoku fuel b in
  Ok (b', s1).

(** [for i in range(cells_to_remove): row, col = cells[i]; puzzle[row][col] = 0] *)
Fixpoint blank_cells (cells : list (nat * nat)) (idx : list nat) (puzzle : board)
  : result board :=
  match idx with
  | [] => Ok puzzle
  | i :: rest =>
      match cells !! i with
      | Some (row, col) =>
          let* p := board_set puzzle row col 0 in
          blank_cells cells rest p
      | None => IndexError
      end
  end.

Definition create_puzzle {rng} `{Shuffler rng} (fuel : nat) (d : Difficulty) (s : rng)
  : result (board * board * rng) :=
  let* (complete_board, s1) := generate_complete_board fuel s in
  let puzzle := complete_board in
  let (cells, s2) := shuffle all_cells s1 in
  let* puzzle' := blank_cells cells (seq 0 (Z.to_nat (cells_to_remove d))) puzzle in
  Ok (puzzle', complete_board, s2).

End Game.

(** ** [sudoku_enhanced.py] *)

Module Enhanced.

Section WithRng.
Context {rng : Type} `{Shuffler rng}.

(** The loop [for num in nums] of [solve_sudoku]. *)
Fixpoint try_digits (rec : board -> rng -> result (bool * board * rng)) (i j : nat)
    (nums : list Z) (b : board) (s : rng) : result (bool * board * rng) :=
  match nums with
  | [] => Ok (false, b, s)
  | num :: rest =>
      let* ok := is_valid_move b i j num in
      if ok : bool then
        let* b1 := board_set b i j num in
        let* (solved, b2, s2) := rec b1 s in
        if solved : bool then Ok (true, b2, s2)
        else
          let* b3 := board_set b2 i j 0 in
          try_digits rec i j rest b3 s2
      else try_digits rec i j rest b s
  end.

Fixpoint solve_sudoku (fuel : nat) (b : board) (s : rng) : result (bool * board * rng) :=
  match fuel with
  | O => OutOfFuel
  | S fuel' =>
      let* e := first_empty b all_cells in
      match e with
      | Some (i, j) =>
          let (nums, s1) := shuffle (range 1 10) s in
          try_digits (solve_sudoku fuel') i j nums b s1
      | None => Ok (true, b, s)
      end
  end.

Definition generate_complete_board (fuel : nat) (s : rng) : result (board * rng) :=
  let* (b, s1) := fill_diagonal [0; 3; 6]%nat empty_board s in
  let* (_, b', s2) := solve_sudoku fuel b s1 in
  Ok (b', s2).

End WithRng.

(** The loop [for num in range(1, 10)] of [solve_count]; the counter
    [count[0]] is threaded next to the board. *)
Fixpoint count_digits (rec : board -> Z -> result (board * Z)) (i j : nat)
    (nums : list Z) (b : board) (count : Z) : result (board * Z) :=
  match nums with
  | [] => Ok (b, count)
  | num :: rest =>
      let* ok := is_valid_move b i j num in
      if ok : bool then
        let* b1 := board_set b i j num in
        let* (b2, count2) := rec b1 count in
        let* b3 := board_set b2 i j 0 in
        count_digits rec i j rest b3 count2
      else count_digits rec i j rest b count
  end.

Fixpoint solve_count (fuel : nat) (b : board) (count : Z) : result (board * Z) :=
  match fuel with
  | O => OutOfFuel
  | S fuel' =>
      if count >? 1 then Ok (b, count)
      else
        let* e := first_empty b all_cells in
        match e with
        | Some (i, j) => count_digits (solve_count fuel') i j (range 1 10) b count
        | None => Ok (b, count + 1)
        end
  end.

(** [count_solutions]: the board after the call, and [count[0]]. *)
Definition count_solutions (fuel : nat) (b : board) : result (board * Z) :=
  solve_count fuel b 0.

(** The removal loop of [create_puzzle]; [count_solutions] works on the
    copy [test_board], so [puzzle] itself is untouched by it. *)
Fixpoint remove_cells (fuel : nat) (target : Z) (cells : list (nat * nat))
    (puzzle : board) (removed_count : Z) : result (board * Z) :=
  match cells with
  | [] => Ok (puzzle, removed_count)
  | (row, col) :: rest =>
      if removed_count >=? target then Ok (puzzle, removed_count)
      else
        let* temp := board_get puzzle row col in
        let* p1 := board_set puzzle row col 0 in
        let test_board := p1 in
        let* (_, solutions) := count_solutions fuel test_board in
        if solutions =? 1 then remove_cells fuel target rest p1 (removed_count + 1)
        else
          let* p2 := board_set p1 row col temp in
          remove_cells fuel target rest p2 removed_count
  end.

Definition create_puzzle {rng} `{Shuffler rng} (fuel : nat) (d : Difficulty) (s : rng)
  : result (board * board * rng) :=
  let* (complete_board, s1) := generate_complete_board fuel s in
  let puzzle := complete_board in
  let (cells, s2) := shuffle all_cells s1 in
  let* (puzzle', _) := remove_cells fuel (cells_to_remove d) cells puzzle 0 in
  Ok (puzzle', complete_board, s2).

End Enhanced.

(** * Specification vocabulary *)

(** The value at a position, [0] outside the board. *)
Definition cell (b : board) (i j : nat) : Z :=
  match b !! i with
  | Some r => default 0 (r !! j)
  | None => 0
  end.

Definition cellp (b : board) (p : nat * nat) : Z := cell b p.1 p.2.

(** The board [b] after [b[i][j] = v]. *)
Definition upd (b : board) (i j : nat) (v : Z) : board :=
  match b !! i with
  | Some r => <[i := <[j := v]> r]> b
  | None => b
  end.

(** A 9x9 grid. *)
Definition wf (b : board) : Prop :=
  length b = 9%nat /\ Forall (fun r => length r = 9%nat) b.

Definition wfb (b : board) : bool :=
  (length b =? 9)%nat && forallb (fun r => (length r =? 9)%nat) b.

Definition in_grid (p : nat * nat) : Prop := (p.1 < 9)%nat /\ (p.2 < 9)%nat.

(** The cells that constrain a placement at [(row, col)]. *)
Definition unit_cells (row col : nat) : list (nat * nat) :=
  row_cells row ++ col_cells col ++ box_cells row col.

(** The validator as a pure function of the cell values. *)
Definition validb (b : board) (row col : nat) (num : Z) : bool :=
  forallb (fun p => negb (cellp b p =? num)) (unit_cells row col).

(** Number of blank cells; [check_progress] computes [sum(row.count(0))]. *)
Definition zeros (b : board) : nat :=
  length (List.filter (fun p => cellp b p =? 0) all_cells).

Definition check_progress (b : board) : nat :=
  list_sum (map (fun r => count_occ Z.eq_dec r 0) b).

(** * The board as a function of positions *)

Lemma wfb_wf b : wfb b = true <-> wf b.
Proof.
  unfold wfb, wf. rewrite andb_true_iff, Nat.eqb_eq, forallb_forall, List.Forall_forall.
  split; intros [H1 H2]; split; auto; intros r Hr.
  - apply Nat.eqb_eq; auto.
  - apply Nat.eqb_eq; auto.
Qed.

Lemma wf_row b i :
  wf b -> (i < 9)%nat -> exists r, b !! i = Some r /\ length r = 9%nat.
Proof.
  intros [Hl Hr] Hi.
  destruct (lookup_lt_is_Some_2 b i) as [r Hri]; [lia|].
  exists r. split; [done|].
  rewrite List.Forall_forall in Hr. apply Hr.
  apply list_elem_of_In. eapply list_elem_of_lookup_2; eauto.
Qed.

Lemma get_wf b i j :
  wf b -> (i < 9)%nat -> (j < 9)%nat -> board_get b i j = Ok (cell b i j).
Proof.
  intros Hw Hi Hj. destruct (wf_row b i Hw Hi) as (r & Hr & Hlen).
  unfold board_get, cell. rewrite Hr.
  destruct (lookup_lt_is_Some_2 r j) as [v Hv]; [lia|]. by rewrite Hv.
Qed.

Lemma set_wf b i j v :
  wf b -> (i < 9)%nat -> (j < 9)%nat -> board_set b i j v = Ok (upd b i j v).
Proof.
  intros Hw Hi Hj. destruct (wf_row b i Hw Hi) as (r & Hr & Hlen).
  unfold board_set, upd. rewrite Hr.
  destruct (decide (j < length r)%nat); [done|lia].
Qed.

Lemma upd_wf b i j v : wf b -> wf (upd b i j v).
Proof.
  intros [Hl Hr]. unfold upd. destruct (b !! i) as [r|] eqn:E; [|done].
  split.
  - by rewrite length_insert.
  - rewrite List.Forall_forall in *. intros x Hx.
    apply list_elem_of_In in Hx. apply list_elem_of_lookup in Hx as [k Hk].
    destruct (decide (k = i)) as [->|Hne].
    + rewrite list_lookup_insert_eq in Hk by (eapply lookup_lt_Some; eauto).
      injection Hk as <-. rewrite length_insert. apply Hr.
      apply list_elem_of_In. eapply list_elem_of_lookup_2; eauto.
    + rewrite list_lookup_insert_ne in Hk by done.
      apply Hr. apply list_elem_of_In. eapply list_elem_of_lookup_2; eauto.
Qed.

Lemma cell_upd b i j v i' j' :
  wf b -> (i < 9)%nat -> (j < 9)%nat ->
  cell (upd b i j v) i' j' = if decide (i' = i /\ j' = j) then v else cell b i' j'.
Proof.
  intros Hw Hi Hj. destruct (wf_row b i Hw Hi) as (r & Hr & Hlen).
  unfold upd, cell. rewrite Hr.
  destruct (decide (i' = i)) as [->|Hne].
  - rewrite list_lookup_insert_eq by (eapply lookup_lt_Some; eauto). rewrite Hr.
    destruct (decide (j' = j)) as [->|Hnj].
    + rewrite list_lookup_insert_eq by lia.
      destruct (decide (i = i /\ j = j)); [done|tauto].
    + rewrite list_lookup_insert_ne by done.
      destruct (decide (i = i /\ j' = j)); [tauto|done].
  - rewrite list_lookup_insert_ne by done.
    destruct (decide (i' = i /\ j' = j)); [tauto|done].
Qed.

Lemma cell_upd_same b i j v :
  wf b -> (i < 9)%nat -> (j < 9)%nat -> cell (upd b i j v) i j = v.
Proof.
  intros. rewrite cell_upd by done. destruct (decide (i = i /\ j = j)); tauto.
Qed.

Lemma cell_upd_other b i j v i' j' :
  wf b -> (i < 9)%nat -> (j < 9)%nat -> (i', j') <> (i, j) ->
  cell (upd b i j v) i' j' = cell b i' j'.
Proof.
  intros. rewrite cell_upd by done.
  destruct (decide (i' = i /\ j' = j)) as [[-> ->]|]; [congruence|done].
Qed.

Lemma list_ext_default (r r' : list Z) :
  length r = length r' ->
  (forall j, (j < length r)%nat -> default 0 (r !! j) = default 0 (r' !! j)) ->
  r = r'.
Proof.
  intros Hl He. apply list_eq_same_length with (length r); [done|done|].
  intros j x y Hj Hx Hy. specialize (He j Hj). rewrite Hx, Hy in He. done.
Qed.

Lemma board_ext b b' :
  wf b -> wf b' ->
  (forall i j, (i < 9)%nat -> (j < 9)%nat -> cell b i j = cell b' i j) ->
  b = b'.
Proof.
  intros Hw Hw' He. apply list_eq_same_length with 9%nat; [apply Hw'|apply Hw|].
  intros i r r' Hi Hr Hr'.
  destruct (wf_row b i Hw Hi) as (r1 & Hr1 & Hl1).
  destruct (wf_row b' i Hw' Hi) as (r2 & Hr2 & Hl2).
  assert (r1 = r) by congruence. assert (r2 = r') by congruence. subst.
  apply list_ext_default; [lia|]. intros j Hj.
  specialize (He i j Hi ltac:(lia)). unfold cell in He. by rewrite Hr, Hr' in He.
Qed.

Lemma upd_same b i j :
  wf b -> (i < 9)%nat -> (j < 9)%nat -> upd b i j (cell b i j) = b.
Proof.
  intros Hw Hi Hj. apply board_ext; [by apply upd_wf|done|].
  intros i' j' _ _. rewrite cell_upd by done.
  destruct (decide (i' = i /\ j' = j)) as [[-> ->]|]; done.
Qed.

Lemma upd_upd b i j v w :
  wf b -> (i < 9)%nat -> (j < 9)%nat -> upd (upd b i j v) i j w = upd b i j w.
Proof.
  intros Hw Hi Hj. apply board_ext; [by do 2 apply upd_wf|by apply upd_wf|].
  intros i' j' _ _. rewrite !cell_upd by (try apply upd_wf; done).
  destruct (decide (i' = i /\ j' = j)); done.
Qed.

(** Placing and taking back at a blank cell gives the board back. *)
Lemma upd_undo b i j v :
  wf b -> (i < 9)%nat -> (j < 9)%nat -> cell b i j = 0 ->
  upd (upd b i j v) i j 0 = b.
Proof.
  intros Hw Hi Hj H0. rewrite upd_upd by done. rewrite <- H0. by apply upd_same.
Qed.

(** * Positions *)

Lemma in_all_cells p : In p all_cells <-> in_grid p.
Proof.
  destruct p as [i j]. unfold all_cells, in_grid. rewrite in_flat_map. cbn [fst snd]. split.
  - intros (x & Hx & Hp). apply in_map_iff in Hp as (y & [= <- <-] & Hy).
    apply in_seq in Hx, Hy. lia.
  - intros [Hi Hj]. exists i. split; [apply in_seq; lia|].
    apply in_map_iff. exists j. split; [done|apply in_seq; lia].
Qed.

Lemma NoDup_all_cells : NoDup all_cells.
Proof. apply (bool_decide_unpack _). by vm_compute. Qed.

(** Two positions see each other: same row, same column or same box. *)
Definition related (p q : nat * nat) : Prop :=
  p.1 = q.1 \/ p.2 = q.2 \/ ((p.1 / 3)%nat = (q.1 / 3)%nat /\ (p.2 / 3)%nat = (q.2 / 3)%nat).

Lemma box_start n : (n - n mod 3 = 3 * (n / 3))%nat.
Proof. pose proof (Nat.div_mod_eq n 3). lia. Qed.

Lemma div3_unique a k n : (a < 3)%nat -> (n = a + 3 * k)%nat -> (n / 3 = k)%nat.
Proof.
  intros Ha ->. rewrite Nat.add_comm, Nat.mul_comm, Nat.div_add_l by lia.
  rewrite Nat.div_small by lia. lia.
Qed.

Lemma in_row_cells row q : In q (row_cells row) <-> q.1 = row /\ (q.2 < 9)%nat.
Proof.
  destruct q as [i j]. unfold row_cells. rewrite in_map_iff. cbn [fst snd]. split.
  - intros (x & [= <- <-] & Hx). apply in_seq in Hx. lia.
  - intros [-> Hj]. exists j. split; [done|apply in_seq; lia].
Qed.

Lemma in_col_cells col q : In q (col_cells col) <-> q.2 = col /\ (q.1 < 9)%nat.
Proof.
  destruct q as [i j]. unfold col_cells. rewrite in_map_iff. cbn [fst snd]. split.
  - intros (x & [= <- <-] & Hx). apply in_seq in Hx. lia.
  - intros [-> Hj]. exists i. split; [done|apply in_seq; lia].
Qed.

Lemma in_box_cells row col q :
  In q (box_cells row col) <->
  (q.1 / 3)%nat = (row / 3)%nat /\ (q.2 / 3)%nat = (col / 3)%nat.
Proof.
  destruct q as [i j]. unfold box_cells. rewrite !box_start, in_flat_map. cbn [fst snd]. split.
  - intros (a & Ha & Hq). apply in_map_iff in Hq as (c & [= <- <-] & Hc).
    apply in_seq in Ha, Hc. split; eapply div3_unique; try reflexivity; lia.
  - intros [Hi Hj]. exists (i mod 3)%nat. split.
    + apply in_seq. pose proof (Nat.mod_upper_bound i 3). lia.
    + apply in_map_iff. exists (j mod 3)%nat. split.
      * f_equal.
        -- pose proof (Nat.div_mod_eq i 3). lia.
        -- pose proof (Nat.div_mod_eq j 3). lia.
      * apply in_seq. pose proof (Nat.mod_upper_bound j 3). lia.
Qed.

Lemma div3_lt n m : (m < 9)%nat -> (n / 3 = m / 3)%nat -> (n < 9)%nat.
Proof.
  intros Hm He. pose proof (Nat.div_mod_eq n 3). pose proof (Nat.div_mod_eq m 3).
  pose proof (Nat.mod_upper_bound n 3). pose proof (Nat.mod_upper_bound m 3). lia.
Qed.

Lemma in_unit_cells row col q :
  (row < 9)%nat -> (col < 9)%nat ->
  In q (unit_cells row col) <-> in_grid q /\ related q (row, col).
Proof.
  intros Hr Hc. unfold unit_cells, in_grid, related.
  rewrite !in_app_iff, in_row_cells, in_col_cells, in_box_cells. cbn [fst snd]. split.
  - intros [[-> H]|[[-> H]|[H1 H2]]]; try (split; [lia|tauto]).
    split; [|tauto]. split; [apply (div3_lt _ row)|apply (div3_lt _ col)]; done.
  - intros [[H1 H2] [H|[H|H]]]; tauto.
Qed.

Lemma unit_cells_in_grid row col q :
  (row < 9)%nat -> (col < 9)%nat -> In q (unit_cells row col) -> in_grid q.
Proof. intros Hr Hc Hq. by apply in_unit_cells in Hq as [? _]. Qed.

(** * The validator *)

Lemma scan_spec b num cells :
  wf b -> (forall p, In p cells -> in_grid p) ->
  scan b num cells = Ok (existsb (fun p => cellp b p =? num) cells).
Proof.
  intros Hw. induction cells as [|[i j] rest IH]; intros Hin; [done|].
  simpl. destruct (Hin (i, j)) as [Hi Hj]; [by left|]. simpl in Hi, Hj.
  rewrite get_wf by done. simpl. unfold cellp at 1. simpl.
  destruct (cell b i j =? num); [done|]. apply IH. intros p Hp. apply Hin. by right.
Qed.

Lemma first_empty_spec b cells :
  wf b -> (forall p, In p cells -> in_grid p) ->
  first_empty b cells = Ok (List.find (fun p => cellp b p =? 0) cells).
Proof.
  intros Hw. induction cells as [|[i j] rest IH]; intros Hin; [done|].
  simpl. destruct (Hin (i, j)) as [Hi Hj]; [by left|]. simpl in Hi, Hj.
  rewrite get_wf by done. simpl. unfold cellp at 1. simpl.
  destruct (cell b i j =? 0); [done|]. apply IH. intros p Hp. apply Hin. by right.
Qed.

Lemma is_valid_move_spec b row col num :
  wf b -> (row < 9)%nat -> (col < 9)%nat ->
  is_valid_move b row col num = Ok (validb b row col num).
Proof.
  intros Hw Hr Hc. unfold is_valid_move, validb.
  set (f := fun p => cellp b p =? num).
  assert (Hs : forall l, (forall p, In p l -> In p (unit_cells row col)) ->
                         scan b num l = Ok (existsb f l)).
  { intros l Hl. apply scan_spec; [done|]. intros p Hp.
    apply (unit_cells_in_grid row col); auto. }
  assert (Hneg : forall l, forallb (fun p => negb (cellp b p =? num)) l = negb (existsb f l)).
  { induction l as [|x l IH]; [done|]. simpl. rewrite IH, negb_orb. done. }
  unfold unit_cells in *. rewrite !forallb_app, !Hneg.
  rewrite (Hs (row_cells row)) by (intros p Hp; rewrite !in_app_iff; tauto).
  cbn [bind]. destruct (existsb f (row_cells row)); [done|].
  rewrite (Hs (col_cells col)) by (intros p Hp; rewrite !in_app_iff; tauto).
  cbn [bind]. destruct (existsb f (col_cells col)); [done|].
  rewrite (Hs (box_cells row col)) by (intros p Hp; rewrite !in_app_iff; tauto).
  cbn [bind]. destruct (existsb f (box_cells row col)); done.
Qed.

Lemma validb_true b row col num :
  (row < 9)%nat -> (col < 9)%nat ->
  validb b row col num = true <->
  forall q, in_grid q -> related q (row, col) -> cellp b q <> num.
Proof.
  intros Hr Hc. unfold validb. rewrite forallb_forall. split.
  - intros H q Hq Hrel. specialize (H q). rewrite in_unit_cells in H by done.
    specialize (H (conj Hq Hrel)). apply negb_true_iff, Z.eqb_neq in H. done.
  - intros H q Hq. apply in_unit_cells in Hq as [Hq Hrel]; [|done..].
    apply negb_true_iff, Z.eqb_neq. by apply H.
Qed.

(** * Blank cells *)

(** The first blank cell in row-major order, as both solvers look for it. *)
Definition find_blank (b : board) : option (nat * nat) :=
  List.find (fun p => cellp b p =? 0) all_cells.

Lemma find_blank_Some b i j :
  find_blank b = Some (i, j) -> (i < 9)%nat /\ (j < 9)%nat /\ cell b i j = 0.
Proof.
  intros H. apply find_some in H as [Hin H0].
  apply in_all_cells in Hin as [Hi Hj]. apply Z.eqb_eq in H0. done.
Qed.

Lemma find_blank_None b p :
  find_blank b = None -> in_grid p -> cellp b p <> 0.
Proof.
  intros H Hp. apply in_all_cells in Hp.
  pose proof (find_none _ _ H p Hp) as Hn. by apply Z.eqb_neq in Hn.
Qed.

Lemma first_empty_find b :
  wf b -> first_empty b all_cells = Ok (find_blank b).
Proof. intros Hw. apply first_empty_spec; [done|]. intros p. apply in_all_cells. Qed.

Lemma filter_length_ext {A} (f g : A -> bool) (l : list A) :
  (forall x, In x l -> f x = g x) ->
  length (List.filter f l) = length (List.filter g l).
Proof.
  induction l as [|x l IH]; intros H; [done|]. simpl.
  rewrite (H x) by (by left). destruct (g x); simpl; rewrite IH; auto;
    intros y Hy; apply H; by right.
Qed.

Lemma zeros_upd b i j v :
  wf b -> (i < 9)%nat -> (j < 9)%nat ->
  (zeros (upd b i j v) + (if (cell b i j =? 0)%Z then 1 else 0)
   = zeros b + (if (v =? 0)%Z then 1 else 0))%nat.
Proof.
  intros Hw Hi Hj. unfold zeros.
  assert (Hin : In (i, j) all_cells) by (by apply in_all_cells).
  pose proof NoDup_all_cells as Hnd.
  apply in_split in Hin as (l1 & l2 & Hs). rewrite Hs in Hnd |- *.
  apply NoDup_ListNoDup, NoDup_remove_2 in Hnd. rewrite in_app_iff in Hnd.
  rewrite !List.filter_app, !length_app. simpl.
  change (cellp (upd b i j v) (i, j)) with (cell (upd b i j v) i j).
  change (cellp b (i, j)) with (cell b i j).
  rewrite cell_upd_same by done.
  assert (He : forall l, ~ In (i, j) l ->
     length (List.filter (fun p => cellp (upd b i j v) p =? 0) l)
     = length (List.filter (fun p => cellp b p =? 0) l)).
  { intros l Hl. apply filter_length_ext. intros [x y] Hx. unfold cellp. cbn [fst snd].
    rewrite cell_upd_other; [done..|]. intros [= -> ->]. tauto. }
  rewrite (He l1) by tauto.
  destruct (v =? 0), (cell b i j =? 0); simpl; rewrite (He l2) by tauto; lia.
Qed.

Lemma zeros_place b i j v :
  wf b -> (i < 9)%nat -> (j < 9)%nat -> cell b i j = 0 -> v <> 0 ->
  (zeros (upd b i j v) < zeros b)%nat.
Proof.
  intros Hw Hi Hj H0 Hv. pose proof (zeros_upd b i j v Hw Hi Hj) as H.
  rewrite H0 in H. simpl in H. apply Z.eqb_neq in Hv. rewrite Hv in H. lia.
Qed.

Lemma zeros_le_81 b : (zeros b <= 81)%nat.
Proof.
  unfold zeros. etransitivity; [apply List.filter_length_le|]. by vm_compute.
Qed.

Lemma in_digits num : In num digits <-> 1 <= num <= 9.
Proof.
  unfold digits, range. rewrite in_map_iff. split.
  - intros (k & <- & Hk). apply in_seq in Hk. simpl in Hk. lia.
  - intros H. exists (Z.to_nat (num - 1)). split; [lia|]. apply in_seq. simpl. lia.
Qed.

Lemma NoDup_digits : NoDup digits.
Proof. apply (bool_decide_unpack _). by vm_compute. Qed.

(** * Search trees: the boards a backtracking search can reach *)

(** [fills b g]: the full board [g] is reached from [b] by placing, at the
    first blank cell each time, a digit the validator accepts. *)
Inductive fills : board -> board -> Prop :=
| fills_done b :
    find_blank b = None -> fills b b
| fills_step b i j num g :
    find_blank b = Some (i, j) ->
    In num digits ->
    validb b i j num = true ->
    fills (upd b i j num) g ->
    fills b g.

Lemma fills_wf b g : wf b -> fills b g -> wf g.
Proof. intros Hw H. induction H; auto. apply IHfills. by apply upd_wf. Qed.

Lemma fills_full b g : fills b g -> find_blank g = None.
Proof. induction 1; auto. Qed.

Lemma fills_keeps b g :
  wf b -> fills b g ->
  forall x y, (x < 9)%nat -> (y < 9)%nat -> cell b x y <> 0 -> cell g x y = cell b x y.
Proof.
  intros Hw H. induction H as [|b i j num g Hf Hn Hv H IH]; [done|].
  intros x y Hx Hy Hne. apply find_blank_Some in Hf as (Hi & Hj & H0).
  assert (Hxy : (x, y) <> (i, j)) by (intros [= -> ->]; done).
  rewrite IH; [by apply cell_upd_other|by apply upd_wf|done|done|].
  by rewrite cell_upd_other.
Qed.

Lemma fills_first b i j num g :
  wf b -> find_blank b = Some (i, j) -> num <> 0 ->
  fills (upd b i j num) g -> cell g i j = num.
Proof.
  intros Hw Hf Hn H. apply find_blank_Some in Hf as (Hi & Hj & H0).
  erewrite fills_keeps; [by apply cell_upd_same| |exact H|done|done|].
  - by apply upd_wf.
  - by rewrite cell_upd_same.
Qed.

(** * The solvers against the search tree *)

Section SolverSpec.
Context {rng : Type} `{Shuffler rng}.

(** What a run of the solver on [b] delivers: on success a board the
    search tree of [b] reaches, on failure [b] itself, the tree being
    empty. *)
Definition solve_post (b : board) (res : bool * board * rng) : Prop :=
  (res.1.1 = true -> fills b res.1.2) /\
  (res.1.1 = false -> res.1.2 = b /\ forall g, ~ fills b g).

Lemma try_digits_spec (rec : board -> rng -> result (bool * board * rng)) fuel i j :
  (forall b s, wf b -> (zeros b < fuel)%nat ->
     exists res, rec b s = Ok res /\ solve_post b res) ->
  forall nums b s,
    wf b -> find_blank b = Some (i, j) -> (zeros b <= fuel)%nat ->
    (forall n, In n nums -> In n digits) ->
    exists r b' s',
      Enhanced.try_digits rec i j nums b s = Ok (r, b', s') /\
      (r = true ->
       exists num, In num nums /\ validb b i j num = true /\ fills (upd b i j num) b') /\
      (r = false ->
       b' = b /\
       forall num, In num nums -> validb b i j num = true ->
                   forall g, ~ fills (upd b i j num) g).
Proof.
  intros Hrec nums. induction nums as [|num rest IH]; intros b s Hw Hf Hz Hd.
  - exists false, b, s. simpl. split; [done|]. split; [done|]. intros _. split; [done|].
    intros num [].
  - pose proof Hf as Hf'. apply find_blank_Some in Hf' as (Hi & Hj & H0).
    assert (Hnum : num <> 0).
    { specialize (Hd num (or_introl eq_refl)). apply in_digits in Hd. lia. }
    simpl. rewrite is_valid_move_spec by done. cbn [bind].
    destruct (validb b i j num) eqn:Hv.
    + rewrite set_wf by done. cbn [bind].
      destruct (Hrec (upd b i j num) s) as ([[r b2] s2] & Hr & Hp1 & Hp2).
      { by apply upd_wf. }
      { pose proof (zeros_place b i j num Hw Hi Hj H0 Hnum). lia. }
      rewrite Hr. cbn [bind]. simpl in Hp1, Hp2. destruct r.
      * exists true, b2, s2. split; [done|]. split; [|done].
        intros _. exists num. split; [by left|]. split; [done|]. by apply Hp1.
      * destruct (Hp2 eq_refl) as [-> Hnone].
        rewrite set_wf by (try apply upd_wf; done). cbn [bind].
        rewrite upd_undo by done.
        destruct (IH b s2 Hw Hf Hz) as (r & b' & s' & Hrun & Ht & Hfl).
        { intros n Hn. apply Hd. by right. }
        exists r, b', s'. split; [done|]. split.
        -- intros Hr1. destruct (Ht Hr1) as (n & Hn & Hvn & Hfn).
           exists n. split; [by right|done].
        -- intros Hr0. destruct (Hfl Hr0) as [-> Hall]. split; [done|].
           intros n [<-|Hn] Hvn; [done|]. by apply Hall.
    + destruct (IH b s Hw Hf Hz) as (r & b' & s' & Hrun & Ht & Hfl).
      { intros n Hn. apply Hd. by right. }
      exists r, b', s'. split; [done|]. split.
      * intros Hr1. destruct (Ht Hr1) as (n & Hn & Hvn & Hfn).
        exists n. split; [by right|done].
      * intros Hr0. destruct (Hfl Hr0) as [-> Hall]. split; [done|].
        intros n [<-|Hn] Hvn; [congruence|]. by apply Hall.
Qed.

Lemma solve_sudoku_spec fuel :
  forall b s, wf b -> (zeros b < fuel)%nat ->
    exists res, Enhanced.solve_sudoku fuel b s = Ok res /\ solve_post b res.
Proof.
  induction fuel as [|fuel IH]; intros b s Hw Hz; [lia|].
  cbn [Enhanced.solve_sudoku]. rewrite first_empty_find by done. cbn [bind].
  destruct (find_blank b) as [[i j]|] eqn:Hf.
  - destruct (shuffle (range 1 10) s) as [nums s1] eqn:Hsh.
    pose proof (shuffle_perm Z (range 1 10) s) as Hperm. rewrite Hsh in Hperm. simpl in Hperm.
    destruct (try_digits_spec (Enhanced.solve_sudoku fuel) fuel i j IH nums b s1 Hw Hf)
      as (r & b' & s' & Hrun & Ht & Hfl).
    { lia. }
    { intros n Hn. eapply Permutation_in; [symmetry; exact Hperm|done]. }
    exists (r, b', s'). split; [done|]. split; simpl.
    + intros Hr. destruct (Ht Hr) as (num & Hn & Hv & Hfn).
      eapply fills_step; eauto. eapply Permutation_in; [symmetry; exact Hperm|done].
    + intros Hr. destruct (Hfl Hr) as [-> Hall]. split; [done|].
      intros g Hg. inversion Hg as [? Hnone|? i' j' num ? Hf' Hn Hv Hfn]; subst.
      * congruence.
      * rewrite Hf in Hf'. injection Hf' as <- <-.
        eapply Hall; eauto. eapply Permutation_in; [exact Hperm|done].
  - exists (true, b, s). split; [done|]. split; simpl; [|done].
    intros _. by apply fills_done.
Qed.

End SolverSpec.

(** The ascending solver of [sudoku_game.py] is the shuffled solver of
    [sudoku_enhanced.py] run with the shuffle that changes nothing. *)
Lemma game_try_digits_enhanced rec rec' i j nums b :
  (forall b, rec b = let* x := rec' b tt in Ok (x.1.1, x.1.2)) ->
  Game.try_digits rec i j nums b =
  let* x := Enhanced.try_digits rec' i j nums b tt in Ok (x.1.1, x.1.2).
Proof.
  intros Hrec. revert b. induction nums as [|num rest IH]; intros b; [done|].
  simpl. destruct (is_valid_move b i j num) as [[|]| |]; cbn [bind]; auto.
  destruct (board_set b i j num) as [b1| |]; cbn [bind]; auto.
  rewrite Hrec. destruct (rec' b1 tt) as [[[r b2] []]| |]; cbn [bind]; auto.
  simpl. destruct r; [done|].
  destruct (board_set b2 i j 0) as [b3| |]; cbn [bind]; auto.
Qed.

Lemma game_solve_enhanced fuel b :
  Game.solve_sudoku fuel b =
  let* x := Enhanced.solve_sudoku fuel b tt in Ok (x.1.1, x.1.2).
Proof.
  revert b. induction fuel as [|fuel IH]; intros b; [done|].
  cbn [Game.solve_sudoku Enhanced.solve_sudoku].
  destruct (first_empty b all_cells) as [[[i j]|]| |]; cbn [bind]; auto.
  by apply game_try_digits_enhanced.
Qed.

Lemma game_solve_spec fuel b :
  wf b -> (zeros b < fuel)%nat ->
  exists r b', Game.solve_sudoku fuel b = Ok (r, b') /\
    (r = true -> fills b b') /\ (r = false -> b' = b /\ forall g, ~ fills b g).
Proof.
  intros Hw Hz. rewrite game_solve_enhanced.
  destruct (solve_sudoku_spec fuel b tt Hw Hz) as ([[r b'] s'] & Hr & Hp).
  rewrite Hr. exists r, b'. split; [done|]. exact Hp.
Qed.

(** * The counter against the search tree *)

(** [l] lists, without repetition, the boards satisfying [P]. *)
Definition enumerates (l : list board) (P : board -> Prop) : Prop :=
  List.NoDup l /\ forall g, In g l <-> P g.

(** The boards of [l] whose cell [(i, j)] holds one of [nums]. *)
Definition with_digits (i j : nat) (nums : list Z) (l : list board) : list board :=
  List.filter (fun g => existsb (Z.eqb (cell g i j)) nums) l.

Lemma with_digits_nil i j l : with_digits i j [] l = [].
Proof. unfold with_digits. induction l; simpl; auto. Qed.

Lemma filter_or_length {A} (f h : A -> bool) (l : list A) :
  (forall x, f x = true -> h x = false) ->
  length (List.filter (fun x => f x || h x) l)
  = (length (List.filter f l) + length (List.filter h l))%nat.
Proof.
  intros Hex. induction l as [|x l IH]; [done|]. cbn [List.filter].
  destruct (f x) eqn:Ef.
  - rewrite (Hex x Ef). cbn [orb length]. rewrite IH. done.
  - destruct (h x); cbn [orb length]; rewrite IH; lia.
Qed.

Lemma with_digits_cons i j num rest l :
  ~ In num rest ->
  length (with_digits i j (num :: rest) l)
  = (length (with_digits i j [num] l) + length (with_digits i j rest l))%nat.
Proof.
  intros Hn. unfold with_digits.
  rewrite <- (filter_or_length (fun g => existsb (Z.eqb (cell g i j)) [num])).
  - apply filter_length_ext. intros g _. cbn [existsb]. by rewrite orb_false_r.
  - intros g Hg. cbn [existsb] in Hg. rewrite orb_false_r in Hg. apply Z.eqb_eq in Hg.
    apply not_true_is_false. intros Hx. apply existsb_exists in Hx as (x & Hx & Hex).
    apply Z.eqb_eq in Hex. congruence.
Qed.

Lemma with_digits_all i j nums l :
  (forall g, In g l -> In (cell g i j) nums) -> with_digits i j nums l = l.
Proof.
  intros Hall. unfold with_digits. induction l as [|g l IH]; [done|]. simpl.
  assert (existsb (Z.eqb (cell g i j)) nums = true) as ->.
  { apply existsb_exists. exists (cell g i j). split; [apply Hall; by left|apply Z.eqb_refl]. }
  rewrite IH; [done|]. intros g' Hg'. apply Hall. by right.
Qed.

Lemma in_with_digit i j num l g :
  In g (with_digits i j [num] l) <-> In g l /\ cell g i j = num.
Proof.
  unfold with_digits. rewrite filter_In. simpl. rewrite orb_false_r, Z.eqb_eq. done.
Qed.

Lemma fills_inv_step b i j g :
  wf b -> find_blank b = Some (i, j) -> fills b g ->
  In (cell g i j) digits /\ validb b i j (cell g i j) = true /\
  fills (upd b i j (cell g i j)) g.
Proof.
  intros Hw Hf Hg. inversion Hg as [? Hnone|? i' j' num ? Hf' Hn Hv Hfn]; subst.
  - congruence.
  - rewrite Hf in Hf'. injection Hf' as <- <-.
    assert (cell g i j = num) as ->; [|done].
    eapply fills_first; eauto. apply in_digits in Hn. lia.
Qed.

Lemma enumerates_step b i j num l :
  wf b -> find_blank b = Some (i, j) -> In num digits -> validb b i j num = true ->
  enumerates l (fills b) ->
  enumerates (with_digits i j [num] l) (fills (upd b i j num)).
Proof.
  intros Hw Hf Hn Hv [Hnd Hl]. split.
  - by apply List.NoDup_filter.
  - intros g. rewrite in_with_digit, Hl. split.
    + intros [Hg <-]. by apply fills_inv_step.
    + intros Hg. split; [eapply fills_step; eauto|].
      eapply fills_first; eauto. apply in_digits in Hn. lia.
Qed.

Lemma enumerates_invalid b i j num l :
  wf b -> find_blank b = Some (i, j) -> validb b i j num = false ->
  enumerates l (fills b) -> with_digits i j [num] l = [].
Proof.
  intros Hw Hf Hv [_ Hl]. destruct (with_digits i j [num] l) as [|g rest] eqn:E; [done|].
  assert (Hg : In g (with_digits i j [num] l)) by (rewrite E; by left).
  apply in_with_digit in Hg as [Hg <-]. apply Hl in Hg.
  destruct (fills_inv_step b i j g Hw Hf Hg) as (_ & Hv' & _). congruence.
Qed.

Lemma enumerates_full b l :
  find_blank b = None -> enumerates l (fills b) -> length l = 1%nat.
Proof.
  intros Hf [Hnd Hl].
  assert (Hall : forall g, In g l -> g = b).
  { intros g Hg. apply Hl in Hg. inversion Hg; subst; [done|congruence]. }
  assert (Hb : In b l) by (apply Hl; by apply fills_done).
  destruct l as [|x [|y l]]; [destruct Hb|done|].
  exfalso. inversion Hnd as [|? ? Hx _]; subst. apply Hx.
  rewrite (Hall x) by (by left). rewrite (Hall y) by (right; by left). by left.
Qed.

(** What a run of the counter on [b] delivers from a count [c]. *)
Definition count_post (rec : board -> Z -> result (board * Z)) (fuel : nat) : Prop :=
  forall b c l, wf b -> (zeros b < fuel)%nat -> 0 <= c <= 2 ->
    enumerates l (fills b) ->
    rec b c = Ok (b, Z.min (c + Z.of_nat (length l)) 2).

Lemma count_digits_spec rec fuel i j :
  count_post rec fuel ->
  forall nums b c l,
    wf b -> find_blank b = Some (i, j) -> (zeros b <= fuel)%nat -> 0 <= c <= 2 ->
    (forall n, In n nums -> In n digits) -> List.NoDup nums ->
    enumerates l (fills b) ->
    Enhanced.count_digits rec i j nums b c
    = Ok (b, Z.min (c + Z.of_nat (length (with_digits i j nums l))) 2).
Proof.
  intros Hrec nums. induction nums as [|num rest IH]; intros b c l Hw Hf Hz Hc Hd Hnd Hl.
  - simpl. rewrite with_digits_nil. simpl. f_equal. f_equal. lia.
  - pose proof Hf as Hf'. apply find_blank_Some in Hf' as (Hi & Hj & H0).
    assert (Hin : In num digits) by (apply Hd; by left).
    assert (Hnum : num <> 0) by (apply in_digits in Hin; lia).
    inversion Hnd as [|? ? Hnotin Hnd']; subst.
    rewrite with_digits_cons by done.
    simpl. rewrite is_valid_move_spec by done. cbn [bind].
    destruct (validb b i j num) eqn:Hv.
    + rewrite set_wf by done. cbn [bind].
      rewrite (Hrec (upd b i j num) c (with_digits i j [num] l)); cycle 1.
      { by apply upd_wf. }
      { pose proof (zeros_place b i j num Hw Hi Hj H0 Hnum). lia. }
      { done. }
      { by apply enumerates_step. }
      cbn [bind]. rewrite set_wf by (try apply upd_wf; done). cbn [bind].
      rewrite upd_undo by done.
      rewrite (IH b _ l); try done; [|lia|intros n Hn; apply Hd; by right].
      f_equal. f_equal. lia.
    + rewrite (enumerates_invalid b i j num l) by done. simpl.
      apply IH; try done. intros n Hn. apply Hd. by right.
Qed.

Lemma solve_count_spec fuel : count_post (Enhanced.solve_count fuel) fuel.
Proof.
  induction fuel as [|fuel IH]; intros b c l Hw Hz Hc Hl; [lia|].
  cbn [Enhanced.solve_count]. destruct (c >? 1) eqn:Hgt.
  - f_equal. f_equal. lia.
  - rewrite first_empty_find by done. cbn [bind].
    destruct (find_blank b) as [[i j]|] eqn:Hf.
    + rewrite (count_digits_spec _ fuel i j IH _ b c l); try done.
      * rewrite with_digits_all; [done|]. intros g Hg. apply Hl in Hg.
        by destruct (fills_inv_step b i j g Hw Hf Hg) as [? _].
      * lia.
      * apply NoDup_ListNoDup, NoDup_digits.
    + rewrite (enumerates_full b l) by done. f_equal. f_equal. lia.
Qed.

(** * Legal grids *)

(** A legally-consistent partial assignment: values [0..9], and no
    non-blank value repeated in a row, a column or a box. *)
Definition consistent (b : board) : Prop :=
  (forall p, in_grid p -> 0 <= cellp b p <= 9) /\
  (forall p q, in_grid p -> in_grid q -> p <> q -> related p q ->
               cellp b p <> 0 -> cellp b p <> cellp b q).

Definition row_values (g : board) (k : nat) : list Z :=
  map (fun j => cell g k j) (seq 0 9).

Definition col_values (g : board) (k : nat) : list Z :=
  map (fun i => cell g i k) (seq 0 9).

(** The box index of a position is [(row / 3) * 3 + col / 3]. *)
Definition box_index (p : nat * nat) : nat := (p.1 / 3 * 3 + p.2 / 3)%nat.

Definition box_positions (k : nat) : list (nat * nat) :=
  List.filter (fun p => (box_index p =? k)%nat) all_cells.

Definition box_values (g : board) (k : nat) : list Z :=
  map (cellp g) (box_positions k).

(** A valid complete grid: every row, column and box is a permutation
    of [1..9]. *)
Definition valid_complete (g : board) : Prop :=
  wf g /\
  forall k, (k < 9)%nat ->
    Permutation (row_values g k) digits /\
    Permutation (col_values g k) digits /\
    Permutation (box_values g k) digits.

(** [g] is a complete legal extension of [b]. *)
Definition completion (b g : board) : Prop :=
  valid_complete g /\
  forall p, in_grid p -> cellp b p <> 0 -> cellp g p = cellp b p.

(** The 27 units as position lists. *)
Definition units : list (list (nat * nat)) :=
  map row_cells (seq 0 9) ++ map col_cells (seq 0 9) ++ map box_positions (seq 0 9).

#[local] Instance in_grid_dec p : Decision (in_grid p).
Proof. unfold in_grid. apply _. Defined.

#[local] Instance related_dec p q : Decision (related p q).
Proof. unfold related. apply _. Defined.

Lemma related_sym p q : related p q -> related q p.
Proof. unfold related. intuition auto. Qed.

Lemma related_refl p : related p p.
Proof. by left. Qed.

Lemma units_shape :
  Forall (fun u => length u = 9%nat /\ NoDup u /\
                   Forall (fun p => in_grid p /\ Forall (related p) u) u) units.
Proof. apply (bool_decide_unpack _). by vm_compute. Qed.

Lemma units_cover :
  Forall (fun p => Forall (fun q => related p q ->
                                    Exists (fun u => p ∈ u /\ q ∈ u) units) all_cells)
         all_cells.
Proof. apply (bool_decide_unpack _). by vm_compute. Qed.

Lemma unit_shape u :
  In u units ->
  length u = 9%nat /\ List.NoDup u /\
  forall p, In p u -> in_grid p /\ forall q, In q u -> related p q.
Proof.
  intros Hu. pose proof units_shape as H. rewrite List.Forall_forall in H.
  destruct (H u Hu) as (Hl & Hnd & Hall). split; [done|]. split; [by apply NoDup_ListNoDup|].
  intros p Hp. rewrite List.Forall_forall in Hall. destruct (Hall p Hp) as [Hg Hrel].
  split; [done|]. intros q Hq. rewrite List.Forall_forall in Hrel. by apply Hrel.
Qed.

Lemma unit_cover p q :
  in_grid p -> in_grid q -> related p q -> exists u, In u units /\ In p u /\ In q u.
Proof.
  intros Hp Hq Hrel. pose proof units_cover as H. rewrite List.Forall_forall in H.
  apply in_all_cells in Hp, Hq. specialize (H p Hp). rewrite List.Forall_forall in H.
  specialize (H q Hq Hrel). apply List.Exists_exists in H as (u & Hu & Hpu & Hqu).
  apply list_elem_of_In in Hpu, Hqu. by exists u.
Qed.

(** Validity, unit by unit. *)
Lemma valid_complete_units g :
  valid_complete g <->
  wf g /\ forall u, In u units -> Permutation (map (cellp g) u) digits.
Proof.
  unfold valid_complete, units. split; intros [Hw H]; (split; [done|]).
  - intros u. rewrite !in_app_iff, !in_map_iff.
    intros [(k & <- & Hk)|[(k & <- & Hk)|(k & <- & Hk)]];
      apply in_seq in Hk; destruct (H k ltac:(lia)) as (Hr & Hc & Hb).
    + unfold row_cells. rewrite map_map. exact Hr.
    + unfold col_cells. rewrite map_map. exact Hc.
    + exact Hb.
  - intros k Hk. assert (Hin : In k (seq 0 9)) by (apply in_seq; lia). repeat split.
    + unfold row_values. rewrite <- (map_map (fun j => (k, j)) (cellp g)).
      apply H. rewrite in_app_iff, in_map_iff. left. by exists k.
    + unfold col_values. rewrite <- (map_map (fun i => (i, k)) (cellp g)).
      apply H. rewrite !in_app_iff, !in_map_iff. right. left. by exists k.
    + apply H. rewrite !in_app_iff, !in_map_iff. right. right. by exists k.
Qed.

Lemma perm_digits l :
  List.NoDup l -> length l = 9%nat -> (forall x, In x l -> 1 <= x <= 9) ->
  Permutation l digits.
Proof.
  intros Hnd Hl Hr. apply NoDup_Permutation_bis; [done|by rewrite Hl|].
  intros x Hx. apply in_digits. by apply Hr.
Qed.

Lemma NoDup_map_inj_in {A B} (f : A -> B) (l : list A) x y :
  List.NoDup (map f l) -> In x l -> In y l -> f x = f y -> x = y.
Proof.
  induction l as [|a l IH]; intros Hnd Hx Hy He; [destruct Hx|].
  simpl in Hnd. inversion Hnd as [|? ? Hna Hnd']; subst.
  destruct Hx as [->|Hx], Hy as [->|Hy]; auto.
  - exfalso. apply Hna. rewrite He. by apply in_map.
  - exfalso. apply Hna. rewrite <- He. by apply in_map.
Qed.

(** A consistent grid without blanks is a valid complete grid, and
    conversely. *)
Lemma consistent_full_valid g :
  wf g -> consistent g -> find_blank g = None -> valid_complete g.
Proof.
  intros Hw [Hrange Hdist] Hfull. apply valid_complete_units. split; [done|].
  intros u Hu. destruct (unit_shape u Hu) as (Hl & Hnd & Hall).
  apply perm_digits.
  - apply NoDup_map_NoDup_ForallPairs; [|done].
    intros p q Hp Hq He. destruct (decide (p = q)) as [|Hne]; [done|].
    destruct (Hall p Hp) as [Hgp Hrel]. destruct (Hall q Hq) as [Hgq _].
    exfalso. apply (Hdist p q); auto. by apply find_blank_None.
  - by rewrite length_map.
  - intros x Hx. apply in_map_iff in Hx as (p & <- & Hp).
    destruct (Hall p Hp) as [Hgp _]. pose proof (Hrange p Hgp).
    pose proof (find_blank_None g p Hfull Hgp). lia.
Qed.

Lemma valid_cell_digit g p : valid_complete g -> in_grid p -> 1 <= cellp g p <= 9.
Proof.
  intros Hv Hp. apply valid_complete_units in Hv as [_ Hv].
  destruct (unit_cover p p Hp Hp (related_refl p)) as (u & Hu & Hpu & _).
  apply in_digits. eapply Permutation_in; [apply (Hv u Hu)|]. by apply in_map.
Qed.

Lemma valid_consistent g : valid_complete g -> consistent g.
Proof.
  intros Hv. split.
  - intros p Hp. pose proof (valid_cell_digit g p Hv Hp). lia.
  - intros p q Hp Hq Hne Hrel _ He.
    apply valid_complete_units in Hv as [_ Hv].
    destruct (unit_cover p q Hp Hq Hrel) as (u & Hu & Hpu & Hqu).
    apply Hne. apply (NoDup_map_inj_in (cellp g) u); auto.
    eapply Permutation_NoDup; [symmetry; apply (Hv u Hu)|].
    apply NoDup_ListNoDup, NoDup_digits.
Qed.

Lemma valid_full g : valid_complete g -> find_blank g = None.
Proof.
  intros Hv. destruct (find_blank g) as [[i j]|] eqn:E; [|done].
  apply find_blank_Some in E as (Hi & Hj & H0).
  pose proof (valid_cell_digit g (i, j) Hv (conj Hi Hj)) as H. unfold cellp in H.
  simpl in H. lia.
Qed.

(** * Search trees of consistent grids are their completions *)

Lemma consistent_place b i j num :
  wf b -> consistent b -> find_blank b = Some (i, j) ->
  In num digits -> validb b i j num = true ->
  consistent (upd b i j num).
Proof.
  intros Hw [Hrange Hdist] Hf Hn Hv. apply find_blank_Some in Hf as (Hi & Hj & H0).
  apply in_digits in Hn. rewrite validb_true in Hv by done.
  assert (Hc : forall p, cellp (upd b i j num) p = if decide (p = (i, j)) then num else cellp b p).
  { intros [x y]. unfold cellp. cbn [fst snd]. rewrite cell_upd by done.
    destruct (decide (x = i /\ y = j)) as [[-> ->]|Hne].
    - by rewrite decide_True.
    - rewrite decide_False; [done|]. intros [= -> ->]. tauto. }
  split.
  - intros p Hp. rewrite Hc. destruct (decide (p = (i, j))); [lia|by apply Hrange].
  - intros p q Hp Hq Hne Hrel. rewrite !Hc.
    destruct (decide (p = (i, j))) as [->|Hpn], (decide (q = (i, j))) as [->|Hqn].
    + done.
    + intros _ He. apply (Hv q Hq); [by apply related_sym|done].
    + intros Hnz He. by apply (Hv p Hp Hrel).
    + by apply Hdist.
Qed.

Lemma fills_completion b g :
  wf b -> consistent b -> fills b g -> completion b g.
Proof.
  intros Hw Hc H. induction H as [b Hnone|b i j num g Hf Hn Hv H IH].
  - split; [by apply consistent_full_valid|done].
  - destruct IH as [Hval Hext]; [by apply upd_wf|by apply consistent_place|].
    split; [done|]. intros [x y] Hp Hnz. rewrite Hext; [|done|].
    + apply find_blank_Some in Hf as (Hi & Hj & H0). unfold cellp. cbn [fst snd].
      apply cell_upd_other; try done. intros [= -> ->]. done.
    + apply find_blank_Some in Hf as (Hi & Hj & H0). unfold cellp in *. cbn [fst snd] in *.
      rewrite cell_upd_other; try done. intros [= -> ->]. done.
Qed.

Lemma completion_fills b g :
  wf b -> consistent b -> completion b g -> fills b g.
Proof.
  remember (zeros b) as n eqn:Hn. revert b Hn.
  induction n as [n IH] using lt_wf_ind. intros b -> Hw Hc [Hval Hext].
  destruct (find_blank b) as [[i j]|] eqn:Hf.
  - pose proof Hf as Hf'. apply find_blank_Some in Hf' as (Hi & Hj & H0).
    pose proof (valid_cell_digit g (i, j) Hval (conj Hi Hj)) as Hd.
    change (cellp g (i, j)) with (cell g i j) in Hd.
    assert (Hnum : In (cell g i j) digits) by (by apply in_digits).
    assert (Hv : validb b i j (cell g i j) = true).
    { apply validb_true; [done..|]. intros q Hq Hrel He.
      assert (Hqn : q <> (i, j)).
      { intros ->. change (cellp b (i, j)) with (cell b i j) in He. lia. }
      destruct (valid_consistent g Hval) as [_ Hdist].
      apply (Hdist q (i, j)); auto; try done.
      - rewrite Hext; [lia|done|lia].
      - rewrite Hext; [done|done|lia]. }
    eapply fills_step; eauto.
    eapply (IH (zeros (upd b i j (cell g i j)))); try done.
    + apply zeros_place; try done. lia.
    + by apply upd_wf.
    + by apply consistent_place.
    + split; [done|]. intros [x y] Hp. unfold cellp. cbn [fst snd].
      rewrite cell_upd by done. destruct (decide (x = i /\ y = j)) as [[-> ->]|Hne]; [done|].
      apply (Hext (x, y) Hp).
  - assert (g = b) as ->; [|by apply fills_done].
    apply board_ext; [apply Hval|done|]. intros x y Hx Hy.
    apply (Hext (x, y)); [done|]. by apply find_blank_None.
Qed.

Lemma fills_iff_completion b g :
  wf b -> consistent b -> fills b g <-> completion b g.
Proof. intros Hw Hc. split; [by apply fills_completion|by apply completion_fills]. Qed.

(** Every search tree is finite: its boards can be listed. *)
Lemma fills_enumerable b : wf b -> exists l, enumerates l (fills b).
Proof.
  remember (zeros b) as n eqn:Hn. revert b Hn.
  induction n as [n IH] using lt_wf_ind. intros b -> Hw.
  destruct (find_blank b) as [[i j]|] eqn:Hf.
  - pose proof Hf as Hf'. apply find_blank_Some in Hf' as (Hi & Hj & H0).
    assert (Hnums : forall nums, (forall x, In x nums -> In x digits) -> List.NoDup nums ->
              exists l, List.NoDup l /\
                        forall g, In g l <-> fills b g /\ In (cell g i j) nums).
    { induction nums as [|num rest IHn]; intros Hd Hnd.
      - exists []. split; [constructor|]. intros g. simpl. tauto.
      - inversion Hnd as [|? ? Hnotin Hnd']; subst.
        destruct IHn as (lr & Hlr & Hinr); [intros x Hx; apply Hd; by right|done|].
        assert (Hin : In num digits) by (apply Hd; by left).
        assert (Hnz : num <> 0) by (apply in_digits in Hin; lia).
        destruct (validb b i j num) eqn:Hv.
        + destruct (IH (zeros (upd b i j num))) with (b := upd b i j num) as (ln & Hln & Hinn);
            [by apply zeros_place|done|by apply upd_wf|].
          exists (ln ++ lr). split.
          * apply List.NoDup_app; [done|done|]. intros g Hg1 Hg2.
            apply Hinn in Hg1. apply Hinr in Hg2 as [_ Hg2].
            rewrite (fills_first b i j num g) in Hg2 by done. done.
          * intros g. rewrite in_app_iff, Hinn, Hinr. simpl. split.
            -- intros [Hg|[Hg Hc]]; [|tauto]. split; [eapply fills_step; eauto|].
               left. symmetry. by eapply fills_first.
            -- intros [Hg [He|Hc]]; [|tauto]. left. subst num.
               by apply fills_inv_step.
        + exists lr. split; [done|]. intros g. rewrite Hinr. simpl. split; [tauto|].
          intros [Hg [He|Hc]]; [|tauto]. exfalso. subst num.
          destruct (fills_inv_step b i j g Hw Hf Hg) as (_ & Hv' & _). congruence. }
    destruct (Hnums digits) as (l & Hl & Hin); [done|apply NoDup_ListNoDup, NoDup_digits|].
    exists l. split; [done|]. intros g. rewrite Hin. split; [tauto|].
    intros Hg. split; [done|]. by destruct (fills_inv_step b i j g Hw Hf Hg) as [? _].
  - exists [b]. split; [repeat constructor; simpl; tauto|]. intros g. simpl. split.
    + intros [<-|[]]. by apply fills_done.
    + intros Hg. inversion Hg; subst; [by left|congruence].
Qed.

(** * Sample grids *)

Definition ones_board : board := replicate 9 (replicate 9 1).

(** All ones, except for a blank top-left corner. *)
Definition ones_blank_board : board := upd ones_board 0 0 0.

Lemma wf_empty_board : wf empty_board.
Proof. by apply wfb_wf. Qed.

Lemma wf_ones_board : wf ones_board.
Proof. by apply wfb_wf. Qed.

Lemma cell_empty_board p : cellp empty_board p = 0.
Proof.
  destruct p as [i j]. unfold cellp, cell, empty_board. cbn [fst snd].
  destruct (replicate 9 (replicate 9 0) !! i) as [r|] eqn:Hr; [|done].
  apply lookup_replicate in Hr as [-> _].
  destruct (replicate 9 0 !! j) as [v|] eqn:Hv; [|done].
  by apply lookup_replicate in Hv as [-> _].
Qed.

Lemma consistent_empty_board : consistent empty_board.
Proof.
  split.
  - intros p _. rewrite cell_empty_board. lia.
  - intros p q _ _ _ _ Hnz. by rewrite cell_empty_board in Hnz.
Qed.

(** * Theorems *)

(** ** C5: the validator *)

(** C5.  On a 9x9 grid, [is_valid_move board row col num] returns [True]
    exactly when [num] occurs nowhere in row [row], nowhere in column
    [col] and nowhere in the box of [(row, col)].  Consequently, once a
    digit [d] has been written at [(row, col)], the validator returns
    [False] for [d] at every cell sharing that row, column or box. *)
Theorem is_valid_move_correct (b : board) (row col : nat) (num : Z) :
  wf b -> (row < 9)%nat -> (col < 9)%nat ->
  exists ok, is_valid_move b row col num = Ok ok /\
    (ok = true <->
       (forall x, (x < 9)%nat -> cell b row x <> num) /\
       (forall x, (x < 9)%nat -> cell b x col <> num) /\
       (forall x y, (x / 3 = row / 3)%nat -> (y / 3 = col / 3)%nat -> cell b x y <> num)) /\
    (forall d b1, board_set b row col d = Ok b1 ->
       forall r' c', (r' < 9)%nat -> (c' < 9)%nat ->
         related (r', c') (row, col) ->
         is_valid_move b1 r' c' d = Ok false).
Proof.
  intros Hw Hr Hc. exists (validb b row col num).
  split; [by apply is_valid_move_spec|]. split.
  - rewrite validb_true by done. split.
    + intros H. repeat split.
      * intros x Hx. apply (H (row, x)); [split; simpl; lia|by left].
      * intros x Hx. apply (H (x, col)); [split; simpl; lia|right; by left].
      * intros x y Hx Hy. apply (H (x, y)).
        -- split; simpl; [apply (div3_lt _ row)|apply (div3_lt _ col)]; done.
        -- right. right. done.
    + intros (H1 & H2 & H3) [x y] [Hx Hy] [Hrel|[Hrel|[Hr1 Hr2]]]; simpl in *.
      * subst x. by apply H1.
      * subst y. by apply H2.
      * by apply H3.
  - intros d b1 Hset r' c' Hr' Hc' Hrel.
    rewrite set_wf in Hset by done. injection Hset as <-.
    rewrite is_valid_move_spec by (try apply upd_wf; done). f_equal.
    apply not_true_is_false. intros Hv. rewrite validb_true in Hv by done.
    apply (Hv (row, col)); [done|by apply related_sym|].
    unfold cellp. cbn [fst snd]. by apply cell_upd_same.
Qed.

Lemma is_valid_move_correct_witness :
  exists ok, is_valid_move empty_board 4 7 5 = Ok ok /\
    (ok = true <->
       (forall x, (x < 9)%nat -> cell empty_board 4 x <> 5) /\
       (forall x, (x < 9)%nat -> cell empty_board x 7 <> 5) /\
       (forall x y, (x / 3 = 4 / 3)%nat -> (y / 3 = 7 / 3)%nat -> cell empty_board x y <> 5)) /\
    (forall d b1, board_set empty_board 4 7 d = Ok b1 ->
       forall r' c', (r' < 9)%nat -> (c' < 9)%nat ->
         related (r', c') (4%nat, 7%nat) ->
         is_valid_move b1 r' c' d = Ok false).
Proof.
  apply (is_valid_move_correct empty_board 4 7 5).
  - apply wfb_wf. reflexivity.
  - lia.
  - lia.
Defined.

(** * Running the generators *)

Lemma count_solutions_total fuel b :
  wf b -> (zeros b < fuel)%nat ->
  exists c, Enhanced.count_solutions fuel b = Ok (b, c) /\ 0 <= c <= 2 /\
            forall l, enumerates l (fills b) -> c = Z.min (Z.of_nat (length l)) 2.
Proof.
  intros Hw Hz. destruct (fills_enumerable b Hw) as (l & Hl).
  exists (Z.min (Z.of_nat (length l)) 2). split; [|split; [lia|]].
  - unfold Enhanced.count_solutions. by rewrite (solve_count_spec fuel b 0 l).
  - intros l' Hl'. pose proof (solve_count_spec fuel b 0 l Hw Hz ltac:(lia) Hl) as H1.
    pose proof (solve_count_spec fuel b 0 l' Hw Hz ltac:(lia) Hl') as H2.
    rewrite H1 in H2. injection H2 as H2. lia.
Qed.

(** Writing the values [vals] at the positions [cells], in step. *)
Fixpoint place (cells : list (nat * nat)) (vals : list Z) (b : board) : board :=
  match cells, vals with
  | (i, j) :: cells', v :: vals' => place cells' vals' (upd b i j v)
  | _, _ => b
  end.

Lemma pop_snoc {A} (l : list A) (x : A) : pop (l ++ [x]) = Ok (x, l).
Proof. unfold pop. by rewrite last_snoc, removelast_last. Qed.

Lemma fill_cells_place cells vals b :
  wf b -> (forall p, In p cells -> in_grid p) -> (length cells <= length vals)%nat ->
  fill_cells cells (rev vals) b = Ok (place cells vals b).
Proof.
  revert vals b. induction cells as [|[i j] cells IH]; intros vals b Hw Hg Hl; [done|].
  destruct vals as [|v vals]; [simpl in Hl; lia|].
  destruct (Hg (i, j)) as [Hi Hj]; [by left|]. cbn [fst snd] in Hi, Hj.
  cbn [fill_cells rev]. rewrite pop_snoc. cbn [bind]. rewrite set_wf by done. cbn [bind place].
  apply IH; [by apply upd_wf| |simpl in Hl; lia]. intros p Hp. apply Hg. by right.
Qed.

Lemma place_wf cells vals b : wf b -> wf (place cells vals b).
Proof.
  revert vals b. induction cells as [|[i j] cells IH]; intros vals b Hw; [done|].
  destruct vals as [|v vals]; [done|]. simpl. apply IH. by apply upd_wf.
Qed.

Lemma in_diag_box_cells box p :
  In p (diag_box_cells box) -> (box <= 6)%nat -> in_grid p.
Proof.
  unfold diag_box_cells. rewrite in_flat_map. intros (a & Ha & Hp) Hb.
  apply in_map_iff in Hp as (c & <- & Hc). apply in_seq in Ha, Hc.
  split; simpl; lia.
Qed.

Section Generators.
Context {rng : Type} `{Shuffler rng}.

(** The three value lists the diagonal boxes receive, in the order they
    are written, and the state left behind. *)
Fixpoint diagonal_values (boxes : list nat) (s : rng) : list (list Z) * rng :=
  match boxes with
  | [] => ([], s)
  | _ :: rest =>
      let (nums, s1) := shuffle digits s in
      let (vs, s2) := diagonal_values rest s1 in
      (rev nums :: vs, s2)
  end.

Fixpoint place_boxes (boxes : list nat) (vals : list (list Z)) (b : board) : board :=
  match boxes, vals with
  | box :: boxes', v :: vals' => place_boxes boxes' vals' (place (diag_box_cells box) v b)
  | _, _ => b
  end.

Lemma shuffle_digits_length s : length (shuffle digits s).1 = 9%nat.
Proof.
  pose proof (shuffle_perm Z digits s) as Hp. apply Permutation_length in Hp.
  rewrite <- Hp. reflexivity.
Qed.

Lemma fill_diagonal_place boxes b s :
  wf b -> (forall box, In box boxes -> (box <= 6)%nat) ->
  fill_diagonal boxes b s
  = Ok (place_boxes boxes (diagonal_values boxes s).1 b, (diagonal_values boxes s).2).
Proof.
  revert b s. induction boxes as [|box boxes IH]; intros b s Hw Hb; [done|].
  cbn [fill_diagonal diagonal_values].
  pose proof (shuffle_digits_length s) as Hlen.
  destruct (shuffle digits s) as [nums s1]. cbn [fst] in Hlen.
  rewrite <- (rev_involutive nums) at 1.
  rewrite fill_cells_place; cycle 1.
  { done. }
  { intros p Hp. eapply in_diag_box_cells; eauto. apply Hb. by left. }
  { rewrite length_rev, Hlen. by vm_compute. }
  cbn [bind]. rewrite IH; [|by apply place_wf|intros x Hx; apply Hb; by right].
  destruct (diagonal_values boxes s1) as [vs s2]. done.
Qed.

Lemma place_boxes_wf boxes vals b : wf b -> wf (place_boxes boxes vals b).
Proof.
  revert vals b. induction boxes as [|box boxes IH]; intros vals b Hw; [done|].
  destruct vals as [|v vals]; [done|]. cbn [place_boxes]. apply IH. by apply place_wf.
Qed.

(** The board [generate_complete_board] hands to the solver. *)
Definition seeded_board (s : rng) : board :=
  place_boxes [0; 3; 6]%nat (diagonal_values [0; 3; 6]%nat s).1 empty_board.

Definition seeded_state (s : rng) : rng := (diagonal_values [0; 3; 6]%nat s).2.

Lemma fill_diagonal_seeded s :
  fill_diagonal [0; 3; 6]%nat empty_board s = Ok (seeded_board s, seeded_state s).
Proof.
  apply fill_diagonal_place; [apply wf_empty_board|].
  intros box [<-|[<-|[<-|[]]]]; lia.
Qed.

Lemma wf_seeded_board s : wf (seeded_board s).
Proof. apply place_boxes_wf, wf_empty_board. Qed.

End Generators.

(** Every non-blank cell of [puzzle] holds the value [solution] has there. *)
Definition agrees (puzzle solution : board) : Prop :=
  forall i j, (i < 9)%nat -> (j < 9)%nat ->
    cell puzzle i j <> 0 -> cell puzzle i j = cell solution i j.

Lemma agrees_refl b : agrees b b.
Proof. by intros i j _ _ _. Qed.

Lemma agrees_blank p sol i j :
  wf p -> (i < 9)%nat -> (j < 9)%nat -> agrees p sol -> agrees (upd p i j 0) sol.
Proof.
  intros Hw Hi Hj Ha x y Hx Hy. rewrite cell_upd by done.
  destruct (decide (x = i /\ y = j)); [done|]. by apply Ha.
Qed.

Lemma zeros_blank p i j :
  wf p -> (i < 9)%nat -> (j < 9)%nat -> (zeros (upd p i j 0) <= zeros p + 1)%nat.
Proof.
  intros Hw Hi Hj. pose proof (zeros_upd p i j 0 Hw Hi Hj) as H. simpl in H.
  destruct (cell p i j =? 0); lia.
Qed.

Lemma blank_cells_spec cells idx p sol :
  wf p -> agrees p sol ->
  (forall c, In c cells -> in_grid c) ->
  (forall k, In k idx -> (k < length cells)%nat) ->
  exists p', Game.blank_cells cells idx p = Ok p' /\ wf p' /\ agrees p' sol /\
             (zeros p' <= zeros p + length idx)%nat.
Proof.
  intros Hw Ha Hc. revert p Hw Ha. induction idx as [|k idx IH]; intros p Hw Ha Hk.
  - exists p. simpl. split_and!; auto; lia.
  - destruct (lookup_lt_is_Some_2 cells k) as [[row col] Hl]; [apply Hk; by left|].
    destruct (Hc (row, col)) as [Hi Hj].
    { apply list_elem_of_In. eapply list_elem_of_lookup_2; eauto. }
    cbn [fst snd] in Hi, Hj.
    cbn [Game.blank_cells]. rewrite Hl, set_wf by done. cbn [bind].
    destruct (IH (upd p row col 0)) as (p' & Hrun & Hw' & Ha' & Hz').
    { by apply upd_wf. }
    { by apply agrees_blank. }
    { intros x Hx. apply Hk. by right. }
    exists p'. split_and!; auto.
    pose proof (zeros_blank p row col Hw Hi Hj). simpl. lia.
Qed.

Lemma remove_cells_spec fuel target cells p removed sol :
  (82 <= fuel)%nat ->
  wf p -> agrees p sol ->
  (forall c, In c cells -> in_grid c) ->
  exists p' k, Enhanced.remove_cells fuel target cells p removed = Ok (p', k) /\
    wf p' /\ agrees p' sol /\
    removed <= k /\ (removed <= target -> k <= target) /\
    Z.of_nat (zeros p') <= Z.of_nat (zeros p) + (k - removed) /\
    (Enhanced.count_solutions fuel p = Ok (p, 1) ->
     Enhanced.count_solutions fuel p' = Ok (p', 1)).
Proof.
  intros Hfuel. revert p removed.
  induction cells as [|[row col] cells IH]; intros p removed Hw Ha Hc.
  - exists p, removed. simpl. split_and!; auto; lia.
  - cbn [Enhanced.remove_cells]. destruct (removed >=? target) eqn:Hge.
    + exists p, removed. split_and!; auto; lia.
    + destruct (Hc (row, col)) as [Hi Hj]; [by left|]. cbn [fst snd] in Hi, Hj.
      rewrite get_wf, set_wf by done. cbn [bind].
      destruct (count_solutions_total fuel (upd p row col 0)) as (c & Hcount & _).
      { by apply upd_wf. }
      { pose proof (zeros_le_81 (upd p row col 0)). lia. }
      rewrite Hcount. cbn [bind]. destruct (c =? 1) eqn:Hc1.
      * apply Z.eqb_eq in Hc1. subst c.
        destruct (IH (upd p row col 0) (removed + 1)) as (p' & k & Hrun & Hw' & Ha' & Hk1 & Hk2 & Hz & Hu).
        { by apply upd_wf. }
        { by apply agrees_blank. }
        { intros x Hx. apply Hc. by right. }
        exists p', k. split; [done|]. split_and!; auto; try lia.
        pose proof (zeros_blank p row col Hw Hi Hj). lia.
      * rewrite set_wf by (try apply upd_wf; done). cbn [bind].
        rewrite upd_upd, upd_same by done.
        apply IH; try done. intros x Hx. apply Hc. by right.
Qed.

Lemma cells_to_remove_values :
  cells_to_remove EASY = 24 /\ cells_to_remove MEDIUM = 40 /\
  cells_to_remove HARD = 56 /\ cells_to_remove EXPERT = 64.
Proof. by vm_compute. Qed.

Lemma cells_to_remove_bound d : 0 <= cells_to_remove d <= 64.
Proof.
  destruct cells_to_remove_values as (H1 & H2 & H3 & H4).
  destruct d; rewrite ?H1, ?H2, ?H3, ?H4; lia.
Qed.

Section GeneratorRuns.
Context {rng : Type} `{Shuffler rng}.

Lemma shuffled_cells s c : In c (shuffle all_cells s).1 -> in_grid c.
Proof.
  intros Hc. apply in_all_cells. eapply Permutation_in; [|exact Hc].
  symmetry. apply shuffle_perm.
Qed.

Lemma shuffled_cells_length s : length (shuffle all_cells s).1 = 81%nat.
Proof.
  pose proof (shuffle_perm _ all_cells s) as Hp. apply Permutation_length in Hp.
  rewrite <- Hp. reflexivity.
Qed.

Lemma game_generate_spec fuel s :
  (82 <= fuel)%nat ->
  exists r b', Game.solve_sudoku fuel (seeded_board s) = Ok (r, b') /\
    Game.generate_complete_board fuel s = Ok (b', seeded_state s) /\
    wf b' /\
    (r = true -> fills (seeded_board s) b') /\
    (r = false -> b' = seeded_board s /\ forall g, ~ fills (seeded_board s) g).
Proof.
  intros Hfuel. pose proof (wf_seeded_board s) as Hw.
  destruct (game_solve_spec fuel (seeded_board s) Hw) as (r & b' & Hrun & Ht & Hf).
  { pose proof (zeros_le_81 (seeded_board s)). lia. }
  exists r, b'. split; [done|]. split.
  - unfold Game.generate_complete_board. rewrite fill_diagonal_seeded. cbn [bind].
    rewrite Hrun. done.
  - split; [|done]. destruct r.
    + eapply fills_wf; eauto.
    + by destruct (Hf eq_refl) as [-> _].
Qed.

Lemma enhanced_generate_spec fuel s :
  (82 <= fuel)%nat ->
  exists r b' s', Enhanced.solve_sudoku fuel (seeded_board s) (seeded_state s) = Ok (r, b', s') /\
    Enhanced.generate_complete_board fuel s = Ok (b', s') /\
    wf b' /\
    (r = true -> fills (seeded_board s) b') /\
    (r = false -> b' = seeded_board s /\ forall g, ~ fills (seeded_board s) g).
Proof.
  intros Hfuel. pose proof (wf_seeded_board s) as Hw.
  destruct (solve_sudoku_spec fuel (seeded_board s) (seeded_state s) Hw)
    as ([[r b'] s'] & Hrun & Ht & Hf).
  { pose proof (zeros_le_81 (seeded_board s)). lia. }
  simpl in Ht, Hf. exists r, b', s'. split; [done|]. split.
  - unfold Enhanced.generate_complete_board. rewrite fill_diagonal_seeded. cbn [bind].
    rewrite Hrun. done.
  - split; [|done]. destruct r.
    + eapply fills_wf; eauto.
    + by destruct (Hf eq_refl) as [-> _].
Qed.

Lemma game_create_puzzle_spec fuel d s :
  (82 <= fuel)%nat ->
  exists puzzle solution s1 s2,
    Game.generate_complete_board fuel s = Ok (solution, s1) /\
    Game.create_puzzle fuel d s = Ok (puzzle, solution, s2) /\
    wf puzzle /\ wf solution /\ agrees puzzle solution /\
    Z.of_nat (zeros puzzle) <= Z.of_nat (zeros solution) + cells_to_remove d.
Proof.
  intros Hfuel. destruct (game_generate_spec fuel s Hfuel) as (r & sol & _ & Hgen & Hw & _).
  unfold Game.create_puzzle. rewrite Hgen. cbn [bind].
  pose proof (shuffled_cells (seeded_state s)) as Hin.
  pose proof (shuffled_cells_length (seeded_state s)) as Hlen.
  destruct (shuffle all_cells (seeded_state s)) as [cells s2]. cbn [fst] in Hin, Hlen.
  pose proof (cells_to_remove_bound d) as Hb.
  destruct (blank_cells_spec cells (seq 0 (Z.to_nat (cells_to_remove d))) sol sol Hw
              (agrees_refl sol) Hin) as (p' & Hrun & Hw' & Ha & Hz).
  { intros k Hk. apply in_seq in Hk. lia. }
  rewrite Hrun. cbn [bind]. exists p', sol, (seeded_state s), s2.
  split_and!; auto. rewrite length_seq in Hz. lia.
Qed.

Lemma enhanced_create_puzzle_spec fuel d s :
  (82 <= fuel)%nat ->
  exists puzzle solution s1 s2,
    Enhanced.generate_complete_board fuel s = Ok (solution, s1) /\
    Enhanced.create_puzzle fuel d s = Ok (puzzle, solution, s2) /\
    wf puzzle /\ wf solution /\ agrees puzzle solution /\
    Z.of_nat (zeros puzzle) <= Z.of_nat (zeros solution) + cells_to_remove d /\
    (Enhanced.count_solutions fuel solution = Ok (solution, 1) ->
     Enhanced.count_solutions fuel puzzle = Ok (puzzle, 1)).
Proof.
  intros Hfuel.
  destruct (enhanced_generate_spec fuel s Hfuel) as (r & sol & s1 & _ & Hgen & Hw & _).
  unfold Enhanced.create_puzzle. rewrite Hgen. cbn [bind].
  pose proof (shuffled_cells s1) as Hin.
  destruct (shuffle all_cells s1) as [cells s2]. cbn [fst] in Hin.
  pose proof (cells_to_remove_bound d) as Hb.
  destruct (remove_cells_spec fuel (cells_to_remove d) cells sol 0 sol Hfuel Hw
              (agrees_refl sol) Hin) as (p' & k & Hrun & Hw' & Ha & Hk1 & Hk2 & Hz & Hu).
  rewrite Hrun. cbn [bind]. exists p', sol, s1, s2.
  split_and!; auto; lia.
Qed.

End GeneratorRuns.

(** ** C6: termination *)

(** C6.  On every 9x9 grid both solvers and the counter run to completion:
    with fuel for 82 nested calls (one more than the cells of a grid)
    each returns a result, neither raising nor running out.  Every
    recursive call is made on a grid with strictly fewer blank cells.
    Board generation and puzzle generation return as well, in both
    variants. *)
Theorem search_terminates {rng : Type} `{Shuffler rng}
    (b : board) (fuel : nat) (d : Difficulty) (s : rng) :
  wf b -> (82 <= fuel)%nat ->
  (exists r, Game.solve_sudoku fuel b = Ok r) /\
  (exists r, Enhanced.solve_sudoku fuel b s = Ok r) /\
  (exists r, Enhanced.count_solutions fuel b = Ok r) /\
  (forall i j num, first_empty b all_cells = Ok (Some (i, j)) -> In num (range 1 10) ->
     exists b1, board_set b i j num = Ok b1 /\ (zeros b1 < zeros b)%nat) /\
  (exists r, Game.generate_complete_board fuel s = Ok r) /\
  (exists r, Enhanced.generate_complete_board fuel s = Ok r) /\
  (exists r, Game.create_puzzle fuel d s = Ok r) /\
  (exists r, Enhanced.create_puzzle fuel d s = Ok r).
Proof.
  intros Hw Hfuel. pose proof (zeros_le_81 b) as Hz. split_and!.
  - destruct (game_solve_spec fuel b Hw) as (r & b' & Hrun & _); [lia|]. by exists (r, b').
  - destruct (solve_sudoku_spec fuel b s Hw) as (res & Hrun & _); [lia|]. by exists res.
  - destruct (count_solutions_total fuel b Hw) as (c & Hrun & _); [lia|]. by exists (b, c).
  - intros i j num Hf Hn. rewrite first_empty_find in Hf by done. injection Hf as Hf.
    pose proof Hf as (Hi & Hj & H0)%find_blank_Some.
    exists (upd b i j num). split; [by apply set_wf|].
    apply zeros_place; try done. apply in_digits in Hn. lia.
  - destruct (game_generate_spec fuel s Hfuel) as (r & b' & _ & Hrun & _). eauto.
  - destruct (enhanced_generate_spec fuel s Hfuel) as (r & b' & s' & _ & Hrun & _). eauto.
  - destruct (game_create_puzzle_spec fuel d s Hfuel) as (p & sol & s1 & s2 & _ & Hrun & _).
    eauto.
  - destruct (enhanced_create_puzzle_spec fuel d s Hfuel) as (p & sol & s1 & s2 & _ & Hrun & _).
    eauto.
Qed.

Lemma search_terminates_witness :
  (exists r, Game.solve_sudoku 82 empty_board = Ok r) /\
  (exists r, Enhanced.solve_sudoku 82 empty_board 5%nat = Ok r) /\
  (exists r, Enhanced.count_solutions 82 empty_board = Ok r) /\
  (forall i j num, first_empty empty_board all_cells = Ok (Some (i, j)) ->
     In num (range 1 10) ->
     exists b1, board_set empty_board i j num = Ok b1 /\
                (zeros b1 < zeros empty_board)%nat) /\
  (exists r, Game.generate_complete_board 82 5%nat = Ok r) /\
  (exists r, Enhanced.generate_complete_board 82 5%nat = Ok r) /\
  (exists r, Game.create_puzzle 82 HARD 5%nat = Ok r) /\
  (exists r, Enhanced.create_puzzle 82 HARD 5%nat = Ok r).
Proof.
  apply (search_terminates empty_board 82 HARD 5%nat).
  - apply wfb_wf. reflexivity.
  - lia.
Defined.

(** ** C7: backtracking restores the grid *)

(** C7.  On every 9x9 grid, [solve_sudoku] (either variant) hands the
    grid back unchanged whenever it returns [False], and
    [count_solutions] hands its grid back unchanged whatever it counted. *)
Theorem backtracking_restores {rng : Type} `{Shuffler rng}
    (b : board) (fuel : nat) (s : rng) :
  wf b -> (82 <= fuel)%nat ->
  (exists r b', Game.solve_sudoku fuel b = Ok (r, b') /\ (r = false -> b' = b)) /\
  (exists r b' s', Enhanced.solve_sudoku fuel b s = Ok (r, b', s') /\ (r = false -> b' = b)) /\
  (exists c, Enhanced.count_solutions fuel b = Ok (b, c)).
Proof.
  intros Hw Hfuel. pose proof (zeros_le_81 b) as Hz. split_and!.
  - destruct (game_solve_spec fuel b Hw) as (r & b' & Hrun & _ & Hf); [lia|].
    exists r, b'. split; [done|]. intros Hr. by destruct (Hf Hr).
  - destruct (solve_sudoku_spec fuel b s Hw) as ([[r b'] s'] & Hrun & _ & Hf); [lia|].
    exists r, b', s'. split; [done|]. intros Hr. by destruct (Hf Hr).
  - destruct (count_solutions_total fuel b Hw) as (c & Hrun & _); [lia|]. by exists c.
Qed.

Lemma backtracking_restores_witness :
  (exists r b', Game.solve_sudoku 82 ones_blank_board = Ok (r, b') /\
                (r = false -> b' = ones_blank_board)) /\
  (exists r b' s', Enhanced.solve_sudoku 82 ones_blank_board 1%nat = Ok (r, b', s') /\
                   (r = false -> b' = ones_blank_board)) /\
  (exists c, Enhanced.count_solutions 82 ones_blank_board = Ok (ones_blank_board, c)).
Proof.
  apply (backtracking_restores ones_blank_board 82 1%nat).
  - apply wfb_wf. reflexivity.
  - lia.
Defined.

(** ** C2: the solvers are sound and complete *)

(** C2.  On every 9x9 grid that is a legally-consistent partial assignment,
    [solve_sudoku] (either variant) returns [True] exactly when the grid
    has a complete legal extension; on [True] the grid it leaves is a
    valid complete grid extending the input; [False] is returned only
    when no completion exists, the grid being left as it was. *)
Theorem solve_sudoku_sound_complete {rng : Type} `{Shuffler rng}
    (b : board) (fuel : nat) (s : rng) :
  wf b -> consistent b -> (82 <= fuel)%nat ->
  (exists r b', Game.solve_sudoku fuel b = Ok (r, b') /\
     (r = true <-> exists g, completion b g) /\
     (r = true -> completion b b') /\
     (r = false -> b' = b /\ forall g, ~ completion b g)) /\
  (exists r b' s', Enhanced.solve_sudoku fuel b s = Ok (r, b', s') /\
     (r = true <-> exists g, completion b g) /\
     (r = true -> completion b b') /\
     (r = false -> b' = b /\ forall g, ~ completion b g)).
Proof.
  intros Hw Hc Hfuel. pose proof (zeros_le_81 b) as Hz.
  assert (Hpost : forall r b',
    (r = true -> fills b b') -> (r = false -> b' = b /\ forall g, ~ fills b g) ->
    (r = true <-> exists g, completion b g) /\
    (r = true -> completion b b') /\
    (r = false -> b' = b /\ forall g, ~ completion b g)).
  { intros r b' Ht Hf. split_and!.
    - split.
      + intros Hr. exists b'. by apply fills_completion, Ht.
      + intros [g Hg]. destruct r; [done|]. destruct (Hf eq_refl) as [_ Hn].
        exfalso. apply (Hn g). by apply completion_fills.
    - intros Hr. by apply fills_completion, Ht.
    - intros Hr. destruct (Hf Hr) as [-> Hn]. split; [done|].
      intros g Hg. apply (Hn g). by apply completion_fills. }
  split.
  - destruct (game_solve_spec fuel b Hw) as (r & b' & Hrun & Ht & Hf); [lia|].
    exists r, b'. split; [done|]. by apply Hpost.
  - destruct (solve_sudoku_spec fuel b s Hw) as ([[r b'] s'] & Hrun & Ht & Hf); [lia|].
    exists r, b', s'. split; [done|]. by apply Hpost.
Qed.

Lemma solve_sudoku_sound_complete_witness :
  (exists r b', Game.solve_sudoku 82 empty_board = Ok (r, b') /\
     (r = true <-> exists g, completion empty_board g) /\
     (r = true -> completion empty_board b') /\
     (r = false -> b' = empty_board /\ forall g, ~ completion empty_board g)) /\
  (exists r b' s', Enhanced.solve_sudoku 82 empty_board 2%nat = Ok (r, b', s') /\
     (r = true <-> exists g, completion empty_board g) /\
     (r = true -> completion empty_board b') /\
     (r = false -> b' = empty_board /\ forall g, ~ completion empty_board g)).
Proof.
  apply (solve_sudoku_sound_complete empty_board 82 2%nat).
  - apply wfb_wf. reflexivity.
  - apply consistent_empty_board.
  - lia.
Defined.

(** ** C3: the counter *)

(** C3, as stated, fails on a grid whose givens already clash: with a
    blank corner in a grid of ones, the counter reports two solutions
    although the grid has no complete legal extension. *)
Lemma count_solutions_clash :
  Enhanced.count_solutions 82 ones_blank_board = Ok (ones_blank_board, 2) /\
  wf ones_blank_board /\
  ~ (exists g, completion ones_blank_board g).
Proof.
  split; [by vm_compute|]. split; [by apply wfb_wf|].
  intros [g [Hv Hext]]. destruct (valid_consistent g Hv) as [_ Hd].
  apply (Hd (0, 1)%nat (0, 2)%nat); try (split; simpl; lia); try done.
  - by left.
  - rewrite (Hext (0, 1)%nat); [done|split; simpl; lia|done].
  - rewrite (Hext (0, 1)%nat), (Hext (0, 2)%nat); (done || split; simpl; lia).
Qed.

(** C3, amended.  On every 9x9 grid [count_solutions] returns a count
    between 0 and 2 and leaves the grid as it was.  When the grid is a
    legally-consistent partial assignment the count is [min n 2], [n]
    being the number of complete legal extensions of the grid (the
    length of any duplicate-free list of them, and such a list exists).
    On the all-blank grid the count is exactly 2. *)
Theorem count_solutions_min (b : board) (fuel : nat) :
  wf b -> (82 <= fuel)%nat ->
  (exists c, Enhanced.count_solutions fuel b = Ok (b, c) /\ 0 <= c <= 2 /\
     (consistent b ->
        (exists l, enumerates l (completion b)) /\
        (forall l, enumerates l (completion b) -> c = Z.min (Z.of_nat (length l)) 2))) /\
  Enhanced.count_solutions fuel empty_board = Ok (empty_board, 2).
Proof.
  intros Hw Hfuel. split.
  - destruct (count_solutions_total fuel b Hw) as (c & Hrun & Hc & Hmin).
    { pose proof (zeros_le_81 b). lia. }
    exists c. split; [done|]. split; [done|]. intros Hcons.
    assert (Heq : forall l, enumerates l (completion b) <-> enumerates l (fills b)).
    { intros l. unfold enumerates. split; intros [Hnd Hl]; (split; [done|]); intros g;
        rewrite Hl; [symmetry|]; by apply fills_iff_completion. }
    split.
    + destruct (fills_enumerable b Hw) as (l & Hl). exists l. by apply Heq.
    + intros l Hl. apply Hmin. by apply Heq.
  - destruct (count_solutions_total fuel empty_board wf_empty_board) as (c & Hrun & _ & Hmin).
    { pose proof (zeros_le_81 empty_board). lia. }
    destruct (count_solutions_total 82 empty_board wf_empty_board) as (c' & Hrun' & _ & Hmin').
    { pose proof (zeros_le_81 empty_board). lia. }
    destruct (fills_enumerable empty_board wf_empty_board) as (l & Hl).
    rewrite Hrun. rewrite (Hmin l Hl), <- (Hmin' l Hl).
    assert (Hc : Enhanced.count_solutions 82 empty_board = Ok (empty_board, 2)) by (by vm_compute).
    rewrite Hrun' in Hc. by injection Hc as ->.
Qed.

Lemma count_solutions_min_witness :
  (exists c, Enhanced.count_solutions 82 empty_board = Ok (empty_board, c) /\ 0 <= c <= 2 /\
     (consistent empty_board ->
        (exists l, enumerates l (completion empty_board)) /\
        (forall l, enumerates l (completion empty_board) ->
                   c = Z.min (Z.of_nat (length l)) 2))) /\
  Enhanced.count_solutions 82 empty_board = Ok (empty_board, 2).
Proof.
  apply (count_solutions_min empty_board 82).
  - apply wfb_wf. reflexivity.
  - lia.
Defined.

(** ** C10: one algorithm, two digit orders *)

(** C10, as stated, fails on a grid whose givens clash: both solvers
    return [True] on the grid of ones, which is no valid completion of
    anything. *)
Lemma solvers_accept_clash :
  Game.solve_sudoku 82 ones_board = Ok (true, ones_board) /\
  Enhanced.solve_sudoku 82 ones_board 0%nat = Ok (true, ones_board, 0%nat) /\
  wf ones_board /\
  ~ completion ones_board ones_board.
Proof.
  split; [by vm_compute|]. split; [by vm_compute|]. split; [by apply wfb_wf|].
  intros [Hv _]. destruct (valid_consistent _ Hv) as [_ Hd].
  apply (Hd (0, 1)%nat (0, 2)%nat); try (split; simpl; lia); try done. by left.
Qed.

(** C10, amended.  On every 9x9 grid the ascending solver of
    [sudoku_game.py] and the shuffled solver of [sudoku_enhanced.py],
    whatever permutations the shuffle yields, return the same boolean.
    When the grid is a legally-consistent partial assignment and the
    result is [True], each output grid is a valid completion of the
    input. *)
Theorem solvers_agree {rng : Type} `{Shuffler rng} (b : board) (fuel : nat) (s : rng) :
  wf b -> (82 <= fuel)%nat ->
  exists r b1 b2 s',
    Game.solve_sudoku fuel b = Ok (r, b1) /\
    Enhanced.solve_sudoku fuel b s = Ok (r, b2, s') /\
    (consistent b -> r = true -> completion b b1 /\ completion b b2).
Proof.
  intros Hw Hfuel. pose proof (zeros_le_81 b) as Hz.
  destruct (game_solve_spec fuel b Hw) as (r1 & b1 & Hrun1 & Ht1 & Hf1); [lia|].
  destruct (solve_sudoku_spec fuel b s Hw) as ([[r2 b2] s'] & Hrun2 & Ht2 & Hf2); [lia|].
  simpl in Ht2, Hf2.
  assert (r1 = r2) as <-.
  { destruct r1, r2; try done.
    - destruct (Hf2 eq_refl) as [_ Hn]. exfalso. apply (Hn b1). by apply Ht1.
    - destruct (Hf1 eq_refl) as [_ Hn]. exfalso. apply (Hn b2). by apply Ht2. }
  exists r1, b1, b2, s'. split; [done|]. split; [done|].
  intros Hc Hr. split; apply fills_completion; auto.
Qed.

Lemma solvers_agree_witness :
  exists r b1 b2 s',
    Game.solve_sudoku 82 empty_board = Ok (r, b1) /\
    Enhanced.solve_sudoku 82 empty_board 7%nat = Ok (r, b2, s') /\
    (consistent empty_board -> r = true ->
     completion empty_board b1 /\ completion empty_board b2).
Proof.
  apply (solvers_agree empty_board 82 7%nat).
  - apply wfb_wf. reflexivity.
  - lia.
Defined.

(** ** C9: the puzzle agrees with its solution *)

(** C9.  Both [create_puzzle] return a pair, and in it every non-blank
    cell of the puzzle holds the value of the same cell of the solution. *)
Theorem puzzle_agrees_with_solution {rng : Type} `{Shuffler rng}
    (fuel : nat) (d : Difficulty) (s : rng) :
  (82 <= fuel)%nat ->
  (exists puzzle solution s',
     Game.create_puzzle fuel d s = Ok (puzzle, solution, s') /\
     wf puzzle /\ wf solution /\
     forall i j, (i < 9)%nat -> (j < 9)%nat ->
       cell puzzle i j <> 0 -> cell puzzle i j = cell solution i j) /\
  (exists puzzle solution s',
     Enhanced.create_puzzle fuel d s = Ok (puzzle, solution, s') /\
     wf puzzle /\ wf solution /\
     forall i j, (i < 9)%nat -> (j < 9)%nat ->
       cell puzzle i j <> 0 -> cell puzzle i j = cell solution i j).
Proof.
  intros Hfuel. split.
  - destruct (game_create_puzzle_spec fuel d s Hfuel)
      as (p & sol & s1 & s2 & _ & Hrun & Hwp & Hws & Ha & _).
    by exists p, sol, s2.
  - destruct (enhanced_create_puzzle_spec fuel d s Hfuel)
      as (p & sol & s1 & s2 & _ & Hrun & Hwp & Hws & Ha & _).
    by exists p, sol, s2.
Qed.

Lemma puzzle_agrees_with_solution_witness :
  (exists puzzle solution s',
     Game.create_puzzle 82 EXPERT 4%nat = Ok (puzzle, solution, s') /\
     wf puzzle /\ wf solution /\
     forall i j, (i < 9)%nat -> (j < 9)%nat ->
       cell puzzle i j <> 0 -> cell puzzle i j = cell solution i j) /\
  (exists puzzle solution s',
     Enhanced.create_puzzle 82 EXPERT 4%nat = Ok (puzzle, solution, s') /\
     wf puzzle /\ wf solution /\
     forall i j, (i < 9)%nat -> (j < 9)%nat ->
       cell puzzle i j <> 0 -> cell puzzle i j = cell solution i j).
Proof.
  apply (puzzle_agrees_with_solution 82 EXPERT 4%nat). lia.
Defined.

(** * The game object: state and event handlers *)

(** ** State shared by both files *)

(** The attributes of [SudokuGame] that the handlers read and write.
    Times are the floats [time.time()] returns; the boards are separate
    lists (every assignment in the source copies with [row[:]]). *)
Record game : Type := {
  g_board : board;
  g_solution : board;
  g_initial_board : board;
  g_selected_cell : option (nat * nat);
  g_error_count : Z;
  g_start_time : float;
  g_game_time : float;
  g_is_game_active : bool;
  g_difficulty : Difficulty;
  g_hints : Z;
  g_notes_mode : bool;
  g_notes : list (list (list bool))
}.

Definition set_board (g : game) (b : board) : game :=
  {| g_board := b; g_solution := g_solution g; g_initial_board := g_initial_board g;
     g_selected_cell := g_selected_cell g; g_error_count := g_error_count g;
     g_start_time := g_start_time g; g_game_time := g_game_time g;
     g_is_game_active := g_is_game_active g; g_difficulty := g_difficulty g;
     g_hints := g_hints g; g_notes_mode := g_notes_mode g; g_notes := g_notes g |}.

Definition set_selected_cell (g : game) (c : option (nat * nat)) : game :=
  {| g_board := g_board g; g_solution := g_solution g; g_initial_board := g_initial_board g;
     g_selected_cell := c; g_error_count := g_error_count g;
     g_start_time := g_start_time g; g_game_time := g_game_time g;
     g_is_game_active := g_is_game_active g; g_difficulty := g_difficulty g;
     g_hints := g_hints g; g_notes_mode := g_notes_mode g; g_notes := g_notes g |}.

Definition set_error_count (g : game) (n : Z) : game :=
  {| g_board := g_board g; g_solution := g_solution g; g_initial_board := g_initial_board g;
     g_selected_cell := g_selected_cell g; g_error_count := n;
     g_start_time := g_start_time g; g_game_time := g_game_time g;
     g_is_game_active := g_is_game_active g; g_difficulty := g_difficulty g;
     g_hints := g_hints g; g_notes_mode := g_notes_mode g; g_notes := g_notes g |}.

Definition set_game_time (g : game) (t : float) : game :=
  {| g_board := g_board g; g_solution := g_solution g; g_initial_board := g_initial_board g;
     g_selected_cell := g_selected_cell g; g_error_count := g_error_count g;
     g_start_time := g_start_time g; g_game_time := t;
     g_is_game_active := g_is_game_active g; g_difficulty := g_difficulty g;
     g_hints := g_hints g; g_notes_mode := g_notes_mode g; g_notes := g_notes g |}.

Definition set_is_game_active (g : game) (a : bool) : game :=
  {| g_board := g_board g; g_solution := g_solution g; g_initial_board := g_initial_board g;
     g_selected_cell := g_selected_cell g; g_error_count := g_error_count g;
     g_start_time := g_start_time g; g_game_time := g_game_time g;
     g_is_game_active := a; g_difficulty := g_difficulty g;
     g_hints := g_hints g; g_notes_mode := g_notes_mode g; g_notes := g_notes g |}.

Definition set_difficulty (g : game) (d : Difficulty) : game :=
  {| g_board := g_board g; g_solution := g_solution g; g_initial_board := g_initial_board g;
     g_selected_cell := g_selected_cell g; g_error_count := g_error_count g;
     g_start_time := g_start_time g; g_game_time := g_game_time g;
     g_is_game_active := g_is_game_active g; g_difficulty := d;
     g_hints := g_hints g; g_notes_mode := g_notes_mode g; g_notes := g_notes g |}.

Definition set_hints (g : game) (n : Z) : game :=
  {| g_board := g_board g; g_solution := g_solution g; g_initial_board := g_initial_board g;
     g_selected_cell := g_selected_cell g; g_error_count := g_error_count g;
     g_start_time := g_start_time g; g_game_time := g_game_time g;
     g_is_game_active := g_is_game_active g; g_difficulty := g_difficulty g;
     g_hints := n; g_notes_mode := g_notes_mode g; g_notes := g_notes g |}.

Definition set_notes_mode (g : game) (m : bool) : game :=
  {| g_board := g_board g; g_solution := g_solution g; g_initial_board := g_initial_board g;
     g_selected_cell := g_selected_cell g; g_error_count := g_error_count g;
     g_start_time := g_start_time g; g_game_time := g_game_time g;
     g_is_game_active := g_is_game_active g; g_difficulty := g_difficulty g;
     g_hints := g_hints g; g_notes_mode := m; g_notes := g_notes g |}.

Definition set_notes (g : game) (n : list (list (list bool))) : game :=
  {| g_board := g_board g; g_solution := g_solution g; g_initial_board := g_initial_board g;
     g_selected_cell := g_selected_cell g; g_error_count := g_error_count g;
     g_start_time := g_start_time g; g_game_time := g_game_time g;
     g_is_game_active := g_is_game_active g; g_difficulty := g_difficulty g;
     g_hints := g_hints g; g_notes_mode := g_notes_mode g; g_notes := n |}.

(** [self.MARGIN], [self.CELL_SIZE] *)
Definition MARGIN : Z := 30.
Definition CELL_SIZE : Z := 60.

(** The key codes of pygame the handlers compare with. *)
Definition K_BACKSPACE : Z := 8.
Definition K_1 : Z := 49.
Definition K_9 : Z := 57.
Definition K_n : Z := 110.
Definition K_t : Z := 116.
Definition K_DELETE : Z := 127.

(** ** Python list access *)

(** [l[i]] for an index that is not negative. *)
Definition list_get {A : Type} (l : list A) (i : nat) : result A :=
  match l !! i with
  | Some x => Ok x
  | None => IndexError
  end.

(** [l[i] = x] for an index that is not negative. *)
Definition list_set {A : Type} (l : list A) (i : nat) (x : A) : result (list A) :=
  if decide (i < length l)%nat then Ok (<[i := x]> l) else IndexError.

(** The position a Python index selects in a list of [len] items:
    negative indices count from the end. *)
Definition py_index (len : nat) (i : Z) : result nat :=
  if (0 <=? i) && (i <? Z.of_nat len) then Ok (Z.to_nat i)
  else if (- Z.of_nat len <=? i) && (i <? 0) then Ok (Z.to_nat (i + Z.of_nat len))
  else IndexError.

(** [[[[False for _ in range(9)] for _ in range(9)] for _ in range(9)]] *)
Definition fresh_notes : list (list (list bool)) :=
  replicate 9 (replicate 9 (replicate 9 false)).

(** [self.notes[row][col] = [False] * 9] *)
Definition clear_notes (notes : list (list (list bool))) (row col : nat)
  : result (list (list (list bool))) :=
  let* r := list_get notes row in
  let* r' := list_set r col (replicate 9 false) in
  list_set notes row r'.

(** [for x in xs: body] for a body that reads the state and writes
    nothing: all that is left of it is whether it raises. *)
Fixpoint for_each {A : Type} (body : A -> result unit) (xs : list A) : result unit :=
  match xs with
  | [] => Ok tt
  | x :: rest => let* _ := body x in for_each body rest
  end.

(** ** Handlers that are the same in both files *)

(** [handle_click]: a click inside the 540 x 540 grid area selects the
    cell under it unless the puzzle gave that cell; any other click
    clears the selection. *)
Definition handle_click (g : game) (pos : Z * Z) : result game :=
  let '(x, y) := pos in
  if (MARGIN <=? x) && (x <? MARGIN + 9 * CELL_SIZE) &&
     (MARGIN <=? y) && (y <? MARGIN + 9 * CELL_SIZE)
  then
    let col := Z.to_nat ((x - MARGIN) / CELL_SIZE) in
    let row := Z.to_nat ((y - MARGIN) / CELL_SIZE) in
    let* v := board_get (g_initial_board g) row col in
    if v =? 0 then Ok (set_selected_cell g (Some (row, col)))
    else Ok (set_selected_cell g None)
  else Ok (set_selected_cell g None).

(** [toggle_note]:
    [self.notes[row][col][num-1] = not self.notes[row][col][num-1]] *)
Definition toggle_note (g : game) (num : Z) : result game :=
  match g_selected_cell g with
  | Some (row, col) =>
      if g_notes_mode g then
        let* v := board_get (g_board g) row col in
        if v =? 0 then
          let* r := list_get (g_notes g) row in
          let* c := list_get r col in
          let* k := py_index (length c) (num - 1) in
          let* old := list_get c k in
          let* c' := list_set c k (negb old) in
          let* r' := list_set r col c' in
          let* n' := list_set (g_notes g) row r' in
          Ok (set_notes g n')
        else Ok g
      else Ok g
  | None => Ok g
  end.

(** [is_game_won]: [self.check_progress() == 0] *)
Definition is_game_won (g : game) : bool :=
  (check_progress (g_board g) =? 0)%nat.

(** The one thing [draw_ui] does to the state, in both files: while the
    game is active, [self.game_time = time.time() - self.start_time].
    In [sudoku_game.py] the rest of it renders texts and calls
    [draw_buttons]; what follows in [sudoku_enhanced.py] is
    [EnhancedUI.draw_ui] below. *)
Definition draw_ui (now : float) (g : game) : game :=
  if g_is_game_active g then set_game_time g (PrimFloat.sub now (g_start_time g)) else g.

(** ** Buttons *)

(** [pygame.Rect(left, top, width, height)] and its [collidepoint]: the
    right and bottom edges are outside. *)
Record rect : Type := { r_left : Z; r_top : Z; r_width : Z; r_height : Z }.

Definition collidepoint (r : rect) (pos : Z * Z) : bool :=
  (r_left r <=? pos.1) && (pos.1 <? r_left r + r_width r) &&
  (r_top r <=? pos.2) && (pos.2 <? r_top r + r_height r).

(** What [draw_buttons] of [sudoku_game.py] returns, in the order of the
    dictionary. *)
Definition draw_buttons : list (string * rect) :=
  [("new_game"%string, {| r_left := 50; r_top := 620; r_width := 100; r_height := 40 |});
   ("solve"%string, {| r_left := 170; r_top := 620; r_width := 100; r_height := 40 |});
   ("reset"%string, {| r_left := 290; r_top := 620; r_width := 100; r_height := 40 |});
   ("hint"%string, {| r_left := 410; r_top := 620; r_width := 100; r_height := 40 |})].

(** The pygame events the loops of [run] look at. *)
Inductive event : Type :=
  | QUIT
  | MOUSEBUTTONDOWN (button : Z) (pos : Z * Z)
  | KEYDOWN (key : Z)
  | OTHER.

(** ** [sudoku_game.py] *)

Module GameUI.

Definition get_hint (g : game) : result (game * bool) :=
  if g_hints g >? 0 then
    match g_selected_cell g with
    | Some (row, col) =>
        let* v := board_get (g_board g) row col in
        if v =? 0 then
          let* sv := board_get (g_solution g) row col in
          let* b := board_set (g_board g) row col sv in
          Ok (set_hints (set_board g b) (g_hints g - 1), true)
        else Ok (g, false)
    | None => Ok (g, false)
    end
  else Ok (g, false).

Definition handle_key (g : game) (key : Z) : result game :=
  match g_selected_cell g with
  | None => Ok g
  | Some (row, col) =>
      if (K_1 <=? key) && (key <=? K_9) then
        let num := key - K_1 + 1 in
        let* iv := board_get (g_initial_board g) row col in
        if iv =? 0 then
          if g_notes_mode g then toggle_note g num
          else
            let* sv := board_get (g_solution g) row col in
            if sv =? num then
              let* b := board_set (g_board g) row col num in
              let* n := clear_notes (g_notes g) row col in
              Ok (set_notes (set_board g b) n)
            else Ok (set_error_count g (g_error_count g + 1))
        else Ok g
      else if (key =? K_DELETE) || (key =? K_BACKSPACE) then
        let* iv := board_get (g_initial_board g) row col in
        if iv =? 0 then
          let* b := board_set (g_board g) row col 0 in
          let* n := clear_notes (g_notes g) row col in
          Ok (set_notes (set_board g b) n)
        else Ok g
      else if key =? K_n then Ok (set_notes_mode g (negb (g_notes_mode g)))
      else Ok g
  end.

(** The list accesses of [draw_numbers], which writes nothing:
    [self.board[row][col]], then [self.initial_board[row][col]] for a
    filled cell, and for a blank one the notes, which
    [self.notes_mode or any(self.notes[row][col])] reads only outside
    notes mode.  [draw_grid] and [draw_selection] index no list. *)
Definition draw_numbers (g : game) : result unit :=
  for_each (fun row => for_each (fun col =>
    let* v := board_get (g_board g) row col in
    if negb (v =? 0) then
      let* iv := board_get (g_initial_board g) row col in Ok tt
    else
      let* shown :=
        (if g_notes_mode g then Ok true
         else let* r := list_get (g_notes g) row in
              let* c := list_get r col in Ok (existsb id c)) in
      if shown : bool then
        for_each (fun num =>
          let* r := list_get (g_notes g) row in
          let* c := list_get r col in
          let* n := list_get c num in Ok tt) (seq 0 9)
      else Ok tt) (seq 0 9)) (seq 0 9).

Section WithRng.
Context {rng : Type} `{Shuffler rng}.

(** [generate_new_puzzle]; [now] is what [time.time()] returns. *)
Definition generate_new_puzzle (fuel : nat) (now : float) (g : game) (s : rng)
  : result (game * rng) :=
  let* (puzzle, solution, s') := Game.create_puzzle fuel (g_difficulty g) s in
  Ok ({| g_board := puzzle; g_solution := solution; g_initial_board := puzzle;
         g_selected_cell := None; g_error_count := 0;
         g_start_time := now; g_game_time := g_game_time g;
         g_is_game_active := true; g_difficulty := g_difficulty g;
         g_hints := 3; g_notes_mode := g_notes_mode g; g_notes := fresh_notes |}, s').

(** The body of the loop of [handle_button_click] for a button that was hit. *)
Definition button_action (fuel : nat) (now : float) (action : string) (g : game) (s : rng)
  : result (game * rng) :=
  if (action =? "new_game")%string then generate_new_puzzle fuel now g s
  else if (action =? "solve")%string then
    Ok (set_is_game_active (set_board g (g_solution g)) false, s)
  else if (action =? "reset")%string then
    Ok ({| g_board := g_initial_board g; g_solution := g_solution g;
           g_initial_board := g_initial_board g;
           g_selected_cell := g_selected_cell g; g_error_count := 0;
           g_start_time := now; g_game_time := g_game_time g;
           g_is_game_active := true; g_difficulty := g_difficulty g;
           g_hints := 3; g_notes_mode := g_notes_mode g; g_notes := fresh_notes |}, s)
  else if (action =? "hint")%string then
    let* (g', _) := get_hint g in Ok (g', s)
  else Ok (g, s).

(** [handle_button_click]: [for action, rect in buttons.items()]. *)
Fixpoint handle_button_click (fuel : nat) (now : float) (pos : Z * Z)
    (buttons : list (string * rect)) (g : game) (s : rng) : result (game * rng) :=
  match buttons with
  | [] => Ok (g, s)
  | (action, r) :: rest =>
      if collidepoint r pos then
        let* (g', s') := button_action fuel now action g s in
        handle_button_click fuel now pos rest g' s'
      else handle_button_click fuel now pos rest g s
  end.

(** One event of the loop [for event in pygame.event.get()] of [run];
    [now] is the clock reading while the event is handled, the boolean
    is [running]. *)
Definition handle_event (fuel : nat) (now : float) (ev : event) (g : game) (s : rng)
  : result (game * rng * bool) :=
  match ev with
  | QUIT => Ok (g, s, false)
  | MOUSEBUTTONDOWN button pos =>
      if button =? 1 then
        let* g1 := handle_click g pos in
        let buttons := draw_buttons in
        let* (g2, s2) := handle_button_click fuel now pos buttons g1 s in
        Ok (g2, s2, true)
      else Ok (g, s, true)
  | KEYDOWN key =>
      let* g1 := handle_key g key in Ok (g1, s, true)
  | OTHER => Ok (g, s, true)
  end.

(** [for event in pygame.event.get()]: every event is handled, also
    after [QUIT] has set [running] to [False]. *)
Fixpoint process_events (fuel : nat) (events : list (float * event)) (g : game) (s : rng)
    (running : bool) : result (game * rng * bool) :=
  match events with
  | [] => Ok (g, s, running)
  | (now, ev) :: rest =>
      let* (g1, s1, r) := handle_event fuel now ev g s in
      process_events fuel rest g1 s1 (running && r)
  end.

(** One turn of the loop [while running] of [run]: the events, the
    drawing ([draw_numbers] reads, [draw_ui] sets the timer), and the
    check for a win. *)
Definition frame (fuel : nat) (events : list (float * event)) (now : float)
    (g : game) (s : rng) : result (game * rng * bool) :=
  let* (g1, s1, running) := process_events fuel events g s true in
  let* _ := draw_numbers g1 in
  let g2 := draw_ui now g1 in
  let g3 := if is_game_won g2 && g_is_game_active g2
            then set_is_game_active g2 false else g2 in
  Ok (g3, s1, running).

(** [run] over the frames that are supplied: the loop is left after the
    frame that saw [QUIT]; the boolean tells whether it is still running
    when the frames are used up. *)
Fixpoint run (fuel : nat) (frames : list (list (float * event) * float))
    (g : game) (s : rng) : result (game * rng * bool) :=
  match frames with
  | [] => Ok (g, s, true)
  | (events, now) :: rest =>
      let* (g1, s1, running) := frame fuel events now g s in
      if running : bool then run fuel rest g1 s1 else Ok (g1, s1, false)
  end.

End WithRng.

End GameUI.

(** ** [sudoku_enhanced.py] *)

Inductive Theme : Type := LIGHT | DARK | BLUE.

Definition colour : Type := (Z * Z * Z)%type.

(** [self.themes] *)
Definition themes (t : Theme) : list (string * colour) :=
  match t with
  | LIGHT =>
      [("bg", (240, 240, 240)); ("grid", (0, 0, 0)); ("text", (0, 0, 0));
       ("initial", (0, 0, 0)); ("player", (52, 152, 219)); ("selected", (243, 156, 18));
       ("error", (231, 76, 60)); ("success", (46, 204, 113)); ("notes", (128, 128, 128));
       ("button", (52, 152, 219)); ("button_hover", (41, 128, 185))]
  | DARK =>
      [("bg", (40, 40, 40)); ("grid", (255, 255, 255)); ("text", (255, 255, 255));
       ("initial", (255, 255, 255)); ("player", (52, 152, 219)); ("selected", (243, 156, 18));
       ("error", (231, 76, 60)); ("success", (46, 204, 113)); ("notes", (170, 170, 170));
       ("button", (52, 152, 219)); ("button_hover", (41, 128, 185))]
  | BLUE =>
      [("bg", (230, 240, 250)); ("grid", (25, 25, 112)); ("text", (25, 25, 112));
       ("initial", (25, 25, 112)); ("player", (30, 144, 255)); ("selected", (255, 165, 0));
       ("error", (220, 20, 60)); ("success", (34, 139, 34)); ("notes", (100, 100, 150));
       ("button", (30, 144, 255)); ("button_hover", (0, 100, 200))]
  end%string.

(** [self.current_session_stats] *)
Record session : Type := {
  games_played : Z;
  games_won : Z;
  total_time : Z;
  total_errors : Z
}.

(** [self.stats], in the shape [load_stats] gives it by default and
    [save_stats] writes back; [best_times] is keyed by the difficulty. *)
Record stats : Type := {
  st_games_played : Z;
  st_games_won : Z;
  st_total_time : Z;
  st_total_errors : Z;
  st_best_easy : float;
  st_best_medium : float;
  st_best_hard : float;
  st_best_expert : float
}.

(** What [load_stats] returns when there is no file to read. *)
Definition default_stats : stats :=
  {| st_games_played := 0; st_games_won := 0; st_total_time := 0; st_total_errors := 0;
     st_best_easy := infinity; st_best_medium := infinity;
     st_best_hard := infinity; st_best_expert := infinity |}.

(** [self.stats['best_times'][difficulty.name.lower()]] *)
Definition best_time (st : stats) (d : Difficulty) : float :=
  match d with
  | EASY => st_best_easy st
  | MEDIUM => st_best_medium st
  | HARD => st_best_hard st
  | EXPERT => st_best_expert st
  end.

Definition set_best_time (st : stats) (d : Difficulty) (t : float) : stats :=
  {| st_games_played := st_games_played st; st_games_won := st_games_won st;
     st_total_time := st_total_time st; st_total_errors := st_total_errors st;
     st_best_easy := match d with EASY => t | _ => st_best_easy st end;
     st_best_medium := match d with MEDIUM => t | _ => st_best_medium st end;
     st_best_hard := match d with HARD => t | _ => st_best_hard st end;
     st_best_expert := match d with EXPERT => t | _ => st_best_expert st end |}.

(** The attributes the enhanced class adds to those of [game]. *)
Record egame : Type := {
  e_game : game;
  e_stats : stats;
  e_session : session;
  e_win_animation : bool;
  e_current_theme : Theme;
  e_colors : list (string * colour)
}.

Definition set_game (e : egame) (g : game) : egame :=
  {| e_game := g; e_stats := e_stats e; e_session := e_session e;
     e_win_animation := e_win_animation e; e_current_theme := e_current_theme e;
     e_colors := e_colors e |}.

Definition set_stats (e : egame) (st : stats) : egame :=
  {| e_game := e_game e; e_stats := st; e_session := e_session e;
     e_win_animation := e_win_animation e; e_current_theme := e_current_theme e;
     e_colors := e_colors e |}.

Definition set_session (e : egame) (ss : session) : egame :=
  {| e_game := e_game e; e_stats := e_stats e; e_session := ss;
     e_win_animation := e_win_animation e; e_current_theme := e_current_theme e;
     e_colors := e_colors e |}.

Definition set_win_animation (e : egame) (w : bool) : egame :=
  {| e_game := e_game e; e_stats := e_stats e; e_session := e_session e;
     e_win_animation := w; e_current_theme := e_current_theme e;
     e_colors := e_colors e |}.

Definition add_games_played (ss : session) : session :=
  {| games_played := games_played ss + 1; games_won := games_won ss;
     total_time := total_time ss; total_errors := total_errors ss |}.

Definition add_games_won (ss : session) : session :=
  {| games_played := games_played ss; games_won := games_won ss + 1;
     total_time := total_time ss; total_errors := total_errors ss |}.

Definition add_total_errors (ss : session) : session :=
  {| games_played := games_played ss; games_won := games_won ss;
     total_time := total_time ss; total_errors := total_errors ss + 1 |}.

(** ** Exceptions of the enhanced file *)

(** How a call in the event loop of [sudoku_enhanced.py] can end: as a
    [result] tells, or with the [AttributeError] Python raises when an
    attribute is read that the object does not have. *)
Inductive outcome (A : Type) : Type :=
  | Result (r : result A)
  | AttributeError (name : string).
Arguments Result {A} r.
Arguments AttributeError {A} name.

Definition obind {A B : Type} (m : outcome A) (k : A -> outcome B) : outcome B :=
  match m with
  | Result (Ok a) => k a
  | Result IndexError => Result IndexError
  | Result OutOfFuel => Result OutOfFuel
  | AttributeError name => AttributeError name
  end.

Notation "'let+' x ':=' m 'in' k" := (obind m (fun x => k))
  (at level 10, x pattern, m at level 100, k at level 200, only parsing).

(** The attributes [__init__] of [sudoku_enhanced.py] sets on the
    object, in the order of the source.  No other line of the file adds
    an attribute, and the class defines nothing but methods.  The
    colour constants of [sudoku_game.py] ([WHITE], [BLACK], [GREEN],
    ...) are not among them: the colours moved into [themes]. *)
Definition instance_attributes : list string :=
  ["WINDOW_WIDTH"; "WINDOW_HEIGHT"; "GRID_SIZE"; "CELL_SIZE"; "MARGIN"; "screen";
   "themes"; "current_theme"; "colors";
   "font_large"; "font_medium"; "font_small"; "font_tiny";
   "board"; "solution"; "initial_board"; "selected_cell"; "error_count";
   "start_time"; "game_time"; "is_game_active"; "difficulty"; "hints";
   "notes_mode"; "notes"; "stats"; "current_session_stats";
   "animation_time"; "win_animation"]%string.

(** [self.<name>] for a name that is no method. *)
Definition getattr (name : string) : outcome unit :=
  if existsb (String.eqb name) instance_attributes then Result (Ok tt)
  else AttributeError name.

Module EnhancedUI.

Definition get_hint (g : game) : result (game * bool) :=
  if g_hints g >? 0 then
    match g_selected_cell g with
    | Some (row, col) =>
        let* v := board_get (g_board g) row col in
        if v =? 0 then
          let* sv := board_get (g_solution g) row col in
          let* b := board_set (g_board g) row col sv in
          let* n := clear_notes (g_notes g) row col in
          Ok (set_notes (set_hints (set_board g b) (g_hints g - 1)) n, true)
        else Ok (g, false)
    | None => Ok (g, false)
    end
  else Ok (g, false).

(** [list(Theme).index(theme)] and [list(Theme)[i]] *)
Definition theme_index (t : Theme) : nat :=
  match t with LIGHT => 0 | DARK => 1 | BLUE => 2 end.

Definition theme_list : list Theme := [LIGHT; DARK; BLUE].

Definition switch_theme (e : egame) : result egame :=
  let current_index := theme_index (e_current_theme e) in
  let next_index := ((current_index + 1) mod length theme_list)%nat in
  let* t := list_get theme_list next_index in
  Ok {| e_game := e_game e; e_stats := e_stats e; e_session := e_session e;
        e_win_animation := e_win_animation e; e_current_theme := t;
        e_colors := themes t |}.

Definition update_best_time (e : egame) : egame :=
  if is_game_won (e_game e) then
    let d := g_difficulty (e_game e) in
    let current_time := g_game_time (e_game e) in
    if PrimFloat.ltb current_time (best_time (e_stats e) d)
    then set_stats e (set_best_time (e_stats e) d current_time)
    else e
  else e.

Definition handle_key (e : egame) (key : Z) : result egame :=
  let g := e_game e in
  match g_selected_cell g with
  | None => Ok e
  | Some (row, col) =>
      if (K_1 <=? key) && (key <=? K_9) then
        let num := key - K_1 + 1 in
        let* iv := board_get (g_initial_board g) row col in
        if iv =? 0 then
          if g_notes_mode g then
            let* g' := toggle_note g num in Ok (set_game e g')
          else
            let* sv := board_get (g_solution g) row col in
            if sv =? num then
              let* b := board_set (g_board g) row col num in
              let* n := clear_notes (g_notes g) row col in
              let g1 := set_notes (set_board g b) n in
              if is_game_won g1 then
                let e1 := set_game (set_win_animation e true) (set_is_game_active g1 false) in
                let e2 := set_session e1 (add_games_won (e_session e1)) in
                Ok (update_best_time e2)
              else Ok (set_game e g1)
            else
              let e1 := set_game e (set_error_count g (g_error_count g + 1)) in
              Ok (set_session e1 (add_total_errors (e_session e1)))
        else Ok e
      else if (key =? K_DELETE) || (key =? K_BACKSPACE) then
        let* iv := board_get (g_initial_board g) row col in
        if iv =? 0 then
          let* b := board_set (g_board g) row col 0 in
          let* n := clear_notes (g_notes g) row col in
          Ok (set_game e (set_notes (set_board g b) n))
        else Ok e
      else if key =? K_n then Ok (set_game e (set_notes_mode g (negb (g_notes_mode g))))
      else if key =? K_t then switch_theme e
      else Ok e
  end.

(** The list accesses of [draw_numbers], which writes nothing; here the
    notes of a blank cell are always read ([elif any(...)]). *)
Definition draw_numbers (g : game) : result unit :=
  for_each (fun row => for_each (fun col =>
    let* v := board_get (g_board g) row col in
    if negb (v =? 0) then
      let* iv := board_get (g_initial_board g) row col in Ok tt
    else
      let* r := list_get (g_notes g) row in
      let* c := list_get r col in
      if existsb id c then
        for_each (fun num =>
          let* r := list_get (g_notes g) row in
          let* c := list_get r col in
          let* n := list_get c num in Ok tt) (seq 0 9)
      else Ok tt) (seq 0 9)) (seq 0 9).

(** The list accesses of [draw_selection]: the selected cell, and when
    it holds a digit every cell of the board, to highlight the same
    digit elsewhere. *)
Definition draw_selection (g : game) : result unit :=
  match g_selected_cell g with
  | Some (row, col) =>
      let* v := board_get (g_board g) row col in
      if negb (v =? 0) then
        for_each (fun r => for_each (fun c =>
          let* w := board_get (g_board g) r c in Ok tt) (seq 0 9)) (seq 0 9)
      else Ok tt
  | None => Ok tt
  end.

(** [draw_buttons]: the list [button_defs] is built before any
    rectangle is made, and its first entry reads [self.GREEN]; the
    other colours are [self.colors['button']] and
    [self.colors['selected']], keys of every theme. *)
Definition draw_buttons : outcome (list (string * rect)) :=
  let+ _ := getattr "GREEN" in
  Result (Ok (map (fun '(action, x) =>
                     (action, {| r_left := x; r_top := 620; r_width := 100; r_height := 40 |}))
                  [("new_game", 50); ("solve", 170); ("reset", 290); ("hint", 410)]%string)).

(** [draw_sidebar] writes nothing; its list [difficulties] reads
    [self.GREEN] as well. *)
Definition draw_sidebar : outcome unit :=
  let+ _ := getattr "GREEN" in Result (Ok tt).

(** [draw_ui]: the timer, the texts, then [self.draw_buttons()] and
    [self.draw_sidebar()]. *)
Definition draw_ui (now : float) (e : egame) : outcome egame :=
  let e1 := set_game e (draw_ui now (e_game e)) in
  let+ _ := draw_buttons in
  let+ _ := draw_sidebar in
  Result (Ok e1).

Section WithRng.
Context {rng : Type} `{Shuffler rng}.

Definition generate_new_puzzle (fuel : nat) (now : float) (e : egame) (s : rng)
  : result (egame * rng) :=
  let g := e_game e in
  let* (puzzle, solution, s') := Enhanced.create_puzzle fuel (g_difficulty g) s in
  Ok ({| e_game :=
           {| g_board := puzzle; g_solution := solution; g_initial_board := puzzle;
              g_selected_cell := None; g_error_count := 0;
              g_start_time := now; g_game_time := g_game_time g;
              g_is_game_active := true; g_difficulty := g_difficulty g;
              g_hints := 3; g_notes_mode := g_notes_mode g; g_notes := fresh_notes |};
         e_stats := e_stats e;
         e_session := add_games_played (e_session e);
         e_win_animation := false;
         e_current_theme := e_current_theme e;
         e_colors := e_colors e |}, s').

Definition button_action (fuel : nat) (now : float) (action : string) (e : egame) (s : rng)
  : result (egame * rng) :=
  let g := e_game e in
  if (action =? "new_game")%string then generate_new_puzzle fuel now e s
  else if (action =? "solve")%string then
    let e1 := set_game e (set_is_game_active (set_board g (g_solution g)) false) in
    Ok (set_session e1 (add_games_won (e_session e1)), s)
  else if (action =? "reset")%string then
    Ok (set_game e
          {| g_board := g_initial_board g; g_solution := g_solution g;
             g_initial_board := g_initial_board g;
             g_selected_cell := g_selected_cell g; g_error_count := 0;
             g_start_time := now; g_game_time := g_game_time g;
             g_is_game_active := true; g_difficulty := g_difficulty g;
             g_hints := 3; g_notes_mode := g_notes_mode g; g_notes := fresh_notes |}, s)
  else if (action =? "hint")%string then
    let* (g', _) := get_hint g in Ok (set_game e g', s)
  else Ok (e, s).

Fixpoint handle_button_click (fuel : nat) (now : float) (pos : Z * Z)
    (buttons : list (string * rect)) (e : egame) (s : rng) : result (egame * rng) :=
  match buttons with
  | [] => Ok (e, s)
  | (action, r) :: rest =>
      if collidepoint r pos then
        let* (e', s') := button_action fuel now action e s in
        handle_button_click fuel now pos rest e' s'
      else handle_button_click fuel now pos rest e s
  end.

(** The loop [for text, diff in difficulties] of [handle_sidebar_click],
    which leaves at its first hit; [y_offset] grows by 45 per entry. *)
Fixpoint sidebar_loop (fuel : nat) (now : float) (pos : Z * Z) (y_offset : Z)
    (difficulties : list Difficulty) (e : egame) (s : rng) : result (egame * rng) :=
  match difficulties with
  | [] => Ok (e, s)
  | diff :: rest =>
      let r := {| r_left := 600 + 20; r_top := y_offset; r_width := 120; r_height := 35 |} in
      if collidepoint r pos then
        generate_new_puzzle fuel now (set_game e (set_difficulty (e_game e) diff)) s
      else sidebar_loop fuel now pos (y_offset + 45) rest e s
  end.

Definition handle_sidebar_click (fuel : nat) (now : float) (pos : Z * Z) (e : egame) (s : rng)
  : result (egame * rng) :=
  let sidebar_x := 600 in
  if pos.1 >=? sidebar_x then
    sidebar_loop fuel now pos 450 [EASY; MEDIUM; HARD; EXPERT] e s
  else Ok (e, s).

(** One event of the loop [for event in pygame.event.get()] of [run].
    A left click calls [handle_click], then [draw_buttons] for the
    dictionary the other two handlers are to use. *)
Definition handle_event (fuel : nat) (now : float) (ev : event) (e : egame) (s : rng)
  : outcome (egame * rng * bool) :=
  match ev with
  | QUIT => Result (Ok (e, s, false))
  | MOUSEBUTTONDOWN button pos =>
      if button =? 1 then
        let+ g1 := Result (handle_click (e_game e) pos) in
        let+ buttons := draw_buttons in
        let+ (e2, s2) := Result (handle_button_click fuel now pos buttons (set_game e g1) s) in
        let+ (e3, s3) := Result (handle_sidebar_click fuel now pos e2 s2) in
        Result (Ok (e3, s3, true))
      else Result (Ok (e, s, true))
  | KEYDOWN key =>
      let+ e1 := Result (handle_key e key) in Result (Ok (e1, s, true))
  | OTHER => Result (Ok (e, s, true))
  end.

Fixpoint process_events (fuel : nat) (events : list (float * event)) (e : egame) (s : rng)
    (running : bool) : outcome (egame * rng * bool) :=
  match events with
  | [] => Result (Ok (e, s, running))
  | (now, ev) :: rest =>
      let+ (e1, s1, r) := handle_event fuel now ev e s in
      process_events fuel rest e1 s1 (running && r)
  end.

(** One turn of the loop [while running] of [run]: the events, then
    the drawing.  The win is noticed by [handle_key], not here;
    [draw_win_animation] reads no list and writes nothing. *)
Definition frame (fuel : nat) (events : list (float * event)) (now : float)
    (e : egame) (s : rng) : outcome (egame * rng * bool) :=
  let+ (e1, s1, running) := process_events fuel events e s true in
  let+ _ := Result (draw_numbers (e_game e1)) in
  let+ _ := Result (draw_selection (e_game e1)) in
  let+ e2 := draw_ui now e1 in
  Result (Ok (e2, s1, running)).

(** The statistics [run] hands to [save_stats] when the loop has ended. *)
Definition final_stats (e : egame) : stats :=
  let st := e_stats e in
  let ss := e_session e in
  {| st_games_played := st_games_played st + games_played ss;
     st_games_won := st_games_won st + games_won ss;
     st_total_time := st_total_time st + total_time ss;
     st_total_errors := st_total_errors st + total_errors ss;
     st_best_easy := st_best_easy st; st_best_medium := st_best_medium st;
     st_best_hard := st_best_hard st; st_best_expert := st_best_expert st |}.

(** [run] over the frames that are supplied: after the frame that saw
    [QUIT] the session is added to the statistics, which are then
    saved; the boolean tells whether the loop is still running when the
    frames are used up. *)
Fixpoint run (fuel : nat) (frames : list (list (float * event) * float))
    (e : egame) (s : rng) : outcome (egame * rng * bool) :=
  match frames with
  | [] => Result (Ok (e, s, true))
  | (events, now) :: rest =>
      let+ (e1, s1, running) := frame fuel events now e s in
      if running : bool then run fuel rest e1 s1
      else Result (Ok (set_stats e1 (final_stats e1), s1, false))
  end.

End WithRng.

End EnhancedUI.

(** * Properties of the game object *)

(** The state [__init__] builds before it asks for the first puzzle. *)
Definition init_game : game :=
  {| g_board := empty_board; g_solution := empty_board; g_initial_board := empty_board;
     g_selected_cell := None; g_error_count := 0;
     g_start_time := 0%float; g_game_time := 0%float;
     g_is_game_active := false; g_difficulty := MEDIUM;
     g_hints := 3; g_notes_mode := false; g_notes := fresh_notes |}.

(** The notes are a 9 x 9 x 9 table. *)
Definition notes_wf (n : list (list (list bool))) : Prop :=
  length n = 9%nat /\
  Forall (fun r => length r = 9%nat /\ Forall (fun c => length c = 9%nat) r) n.

(** What the handlers rely on and keep: three 9x9 grids, a board that
    shows only digits of the solution and still shows every given, a
    selection that lies in the grid on a cell the puzzle left blank, and
    a full table of notes. *)
Definition playable (g : game) : Prop :=
  wf (g_board g) /\ wf (g_solution g) /\ wf (g_initial_board g) /\
  agrees (g_board g) (g_solution g) /\
  (forall i j, (i < 9)%nat -> (j < 9)%nat ->
     cell (g_initial_board g) i j <> 0 ->
     cell (g_board g) i j = cell (g_initial_board g) i j) /\
  (forall r c, g_selected_cell g = Some (r, c) ->
     (r < 9)%nat /\ (c < 9)%nat /\ cell (g_initial_board g) r c = 0) /\
  notes_wf (g_notes g).

Lemma notes_wf_fresh : notes_wf fresh_notes.
Proof.
  split; [reflexivity|]. unfold fresh_notes.
  apply Forall_replicate. split; [reflexivity|]. apply Forall_replicate. reflexivity.
Qed.

Lemma playable_init : playable init_game.
Proof.
  unfold playable. cbn. split_and!; try apply wf_empty_board.
  - apply agrees_refl.
  - done.
  - done.
  - apply notes_wf_fresh.
Qed.

Lemma notes_row n row :
  notes_wf n -> (row < 9)%nat ->
  exists r, n !! row = Some r /\ length r = 9%nat /\ Forall (fun c => length c = 9%nat) r.
Proof.
  intros [Hl Hf] Hr. destruct (lookup_lt_is_Some_2 n row) as [r Hrow]; [lia|].
  exists r. split; [done|]. by apply (Forall_lookup_1 _ _ _ _ Hf Hrow).
Qed.

Lemma notes_cell n row col :
  notes_wf n -> (row < 9)%nat -> (col < 9)%nat ->
  exists r c, n !! row = Some r /\ r !! col = Some c /\ length r = 9%nat /\
              length c = 9%nat /\ Forall (fun c => length c = 9%nat) r.
Proof.
  intros Hn Hr Hc. destruct (notes_row n row Hn Hr) as (r & Hrow & Hlen & Hf).
  destruct (lookup_lt_is_Some_2 r col) as [c Hcol]; [lia|].
  exists r, c. split_and!; try done. by apply (Forall_lookup_1 _ _ _ _ Hf Hcol).
Qed.

Lemma notes_wf_insert n row r :
  notes_wf n -> length r = 9%nat -> Forall (fun c => length c = 9%nat) r ->
  notes_wf (<[row := r]> n).
Proof.
  intros [Hl Hf] Hlen Hr. split; [by rewrite length_insert|].
  by apply Forall_insert.
Qed.

Lemma clear_notes_wf n row col :
  notes_wf n -> (row < 9)%nat -> (col < 9)%nat ->
  exists n', clear_notes n row col = Ok n' /\ notes_wf n'.
Proof.
  intros Hn Hr Hc. destruct (notes_row n row Hn Hr) as (r & Hrow & Hlen & Hf).
  unfold clear_notes, list_get, list_set. rewrite Hrow. cbn [bind].
  destruct (decide (col < length r)%nat); [|lia]. cbn [bind].
  destruct (decide (row < length n)%nat) as [|Hne]; [|destruct Hn; lia].
  eexists. split; [reflexivity|]. apply notes_wf_insert; [done|by rewrite length_insert|].
  by apply Forall_insert.
Qed.

(** ** X1: clicks and cells *)

(** X1.  [handle_click] (both files) on a 9x9 [initial_board]: a click
    on any of the 60 x 60 pixels of the square at which cell
    [(row, col)] is drawn selects that cell when the puzzle left it
    blank and clears the selection when the cell is a given; a click
    outside the 540 x 540 grid area clears the selection.  Nothing but
    [selected_cell] changes, and no index error is raised. *)
Theorem handle_click_selects (g : game) :
  wf (g_initial_board g) ->
  (forall row col dx dy, (row < 9)%nat -> (col < 9)%nat ->
     0 <= dx < CELL_SIZE -> 0 <= dy < CELL_SIZE ->
     handle_click g (MARGIN + Z.of_nat col * CELL_SIZE + dx,
                     MARGIN + Z.of_nat row * CELL_SIZE + dy)
     = Ok (set_selected_cell g
             (if cell (g_initial_board g) row col =? 0 then Some (row, col) else None))) /\
  (forall x y, ~ (MARGIN <= x < MARGIN + 9 * CELL_SIZE /\
                  MARGIN <= y < MARGIN + 9 * CELL_SIZE) ->
     handle_click g (x, y) = Ok (set_selected_cell g None)).
Proof.
  intros Hw. unfold MARGIN, CELL_SIZE. split.
  - intros row col dx dy Hr Hc Hdx Hdy. unfold handle_click, MARGIN, CELL_SIZE.
    replace (30 + Z.of_nat col * 60 + dx - 30) with (Z.of_nat col * 60 + dx) by lia.
    replace (30 + Z.of_nat row * 60 + dy - 30) with (Z.of_nat row * 60 + dy) by lia.
    rewrite !Z.div_add_l, !Z.div_small, !Z.add_0_r, !Nat2Z.id by lia.
    replace ((30 <=? 30 + Z.of_nat col * 60 + dx) && (30 + Z.of_nat col * 60 + dx <? 30 + 9 * 60) &&
             (30 <=? 30 + Z.of_nat row * 60 + dy) && (30 + Z.of_nat row * 60 + dy <? 30 + 9 * 60))
      with true.
    2:{ symmetry. rewrite !andb_true_iff, !Z.leb_le, !Z.ltb_lt. lia. }
    rewrite get_wf by done. cbn [bind].
    by destruct (cell (g_initial_board g) row col =? 0).
  - intros x y Hout. unfold handle_click, MARGIN, CELL_SIZE.
    destruct ((30 <=? x) && (x <? 30 + 9 * 60) && (30 <=? y) && (y <? 30 + 9 * 60)) eqn:E;
      [|done].
    exfalso. apply Hout. rewrite !andb_true_iff, !Z.leb_le, !Z.ltb_lt in E. lia.
Qed.

Lemma handle_click_selects_witness :
  (forall row col dx dy, (row < 9)%nat -> (col < 9)%nat ->
     0 <= dx < CELL_SIZE -> 0 <= dy < CELL_SIZE ->
     handle_click init_game (MARGIN + Z.of_nat col * CELL_SIZE + dx,
                             MARGIN + Z.of_nat row * CELL_SIZE + dy)
     = Ok (set_selected_cell init_game
             (if cell (g_initial_board init_game) row col =? 0
              then Some (row, col) else None))) /\
  (forall x y, ~ (MARGIN <= x < MARGIN + 9 * CELL_SIZE /\
                  MARGIN <= y < MARGIN + 9 * CELL_SIZE) ->
     handle_click init_game (x, y) = Ok (set_selected_cell init_game None)).
Proof.
  apply (handle_click_selects init_game). apply wfb_wf. reflexivity.
Defined.

(** What [handle_click] leaves behind, for any click. *)
Lemma handle_click_playable g pos :
  playable g ->
  exists sel, handle_click g pos = Ok (set_selected_cell g sel) /\
              playable (set_selected_cell g sel) /\
              (sel = None \/
               MARGIN <= pos.1 < MARGIN + 9 * CELL_SIZE /\
               MARGIN <= pos.2 < MARGIN + 9 * CELL_SIZE).
Proof.
  intros (Hb & Hs & Hi & Ha & Hg & Hsel & Hn). destruct pos as [x y].
  assert (Hplay : forall sel,
    (forall r c, sel = Some (r, c) ->
       (r < 9)%nat /\ (c < 9)%nat /\ cell (g_initial_board g) r c = 0) ->
    playable (set_selected_cell g sel)).
  { intros sel H. unfold playable. cbn. split_and!; done. }
  unfold handle_click, MARGIN, CELL_SIZE. cbn [fst snd].
  destruct ((30 <=? x) && (x <? 30 + 9 * 60) && (30 <=? y) && (y <? 30 + 9 * 60)) eqn:E.
  - rewrite !andb_true_iff, !Z.leb_le, !Z.ltb_lt in E.
    assert (Hx : 0 <= (x - 30) / 60 < 9).
    { split; [apply Z.div_pos; lia|apply Z.div_lt_upper_bound; lia]. }
    assert (Hy : 0 <= (y - 30) / 60 < 9).
    { split; [apply Z.div_pos; lia|apply Z.div_lt_upper_bound; lia]. }
    rewrite get_wf by (done || lia). cbn [bind].
    destruct (cell (g_initial_board g) _ _ =? 0) eqn:E0.
    + eexists. split; [reflexivity|]. split; [|right; lia].
      apply Hplay. intros r c [= <- <-]. apply Z.eqb_eq in E0. split_and!; (done || lia).
    + exists None. split; [reflexivity|]. split; [by apply Hplay|by left].
  - exists None. split; [reflexivity|]. split; [by apply Hplay|by left].
Qed.

(** ** X2: notes *)

Lemma py_index_lt len i k : py_index len i = Ok k -> (k < len)%nat.
Proof.
  unfold py_index. destruct ((0 <=? i) && (i <? Z.of_nat len)) eqn:E1.
  - intros [= <-]. rewrite andb_true_iff, Z.leb_le, Z.ltb_lt in E1. lia.
  - destruct ((- Z.of_nat len <=? i) && (i <? 0)) eqn:E2; [|done].
    intros [= <-]. rewrite andb_true_iff, Z.leb_le, Z.ltb_lt in E2. lia.
Qed.

(** X2.  [toggle_note] (both files): whenever a call returns, the same
    call made again restores the state, so a note toggled twice is as it
    was; the call changes nothing but [notes]. *)
Theorem toggle_note_involutive (g : game) (num : Z) (g1 : game) :
  toggle_note g num = Ok g1 ->
  toggle_note g1 num = Ok g /\ g1 = set_notes g (g_notes g1).
Proof.
  destruct g as [b sol ini sel err st gt act d h nm n].
  unfold toggle_note. cbn [g_selected_cell g_notes_mode g_board g_notes].
  destruct sel as [[row col]|]; [|by intros [= <-]].
  destruct nm; [|by intros [= <-]].
  destruct (board_get b row col) as [v| |] eqn:Hv; cbn [bind]; try done.
  destruct (v =? 0) eqn:E0.
  2:{ intros [= <-]. cbn. rewrite Hv. cbn [bind]. by rewrite E0. }
  unfold list_get, list_set.
  destruct (n !! row) as [r|] eqn:Hr; cbn [bind]; [|done].
  destruct (r !! col) as [c|] eqn:Hc; cbn [bind]; [|done].
  destruct (py_index (length c) (num - 1)) as [k| |] eqn:Hk; cbn [bind]; try done.
  destruct (c !! k) as [old|] eqn:Hold; cbn [bind]; [|done].
  pose proof (lookup_lt_Some _ _ _ Hr) as Lr. pose proof (lookup_lt_Some _ _ _ Hc) as Lc.
  pose proof (lookup_lt_Some _ _ _ Hold) as Lk.
  destruct (decide (k < length c)%nat); [|lia]. cbn [bind].
  destruct (decide (col < length r)%nat); [|lia]. cbn [bind].
  destruct (decide (row < length n)%nat); [|lia]. cbn [bind].
  intros [= <-]. cbn. rewrite Hv. cbn [bind]. rewrite E0. cbn [bind].
  rewrite list_lookup_insert_eq by done. cbn [bind].
  rewrite list_lookup_insert_eq by done. cbn [bind].
  rewrite length_insert, Hk. cbn [bind].
  rewrite list_lookup_insert_eq by done. cbn [bind].
  rewrite !length_insert.
  destruct (decide (k < length c)%nat); [|lia]. cbn [bind].
  destruct (decide (col < length r)%nat); [|lia]. cbn [bind].
  destruct (decide (row < length n)%nat); [|lia]. cbn [bind].
  rewrite negb_involutive, !list_insert_insert_eq.
  rewrite (list_insert_id c k old) by done.
  rewrite (list_insert_id r col c) by done.
  rewrite (list_insert_id n row r) by done. done.
Qed.

(** A game in notes mode with the cell in row 2, column 3 selected. *)
Definition noting_game : game :=
  set_notes_mode (set_selected_cell init_game (Some (2, 3)%nat)) true.

Lemma toggle_note_involutive_witness :
  toggle_note
    (set_notes noting_game
       (<[2%nat := <[3%nat := <[4%nat := true]> (replicate 9 false)]>
                     (replicate 9 (replicate 9 false))]> fresh_notes)) 5
  = Ok noting_game /\
  set_notes noting_game
    (<[2%nat := <[3%nat := <[4%nat := true]> (replicate 9 false)]>
                  (replicate 9 (replicate 9 false))]> fresh_notes)
  = set_notes noting_game
      (g_notes (set_notes noting_game
         (<[2%nat := <[3%nat := <[4%nat := true]> (replicate 9 false)]>
                       (replicate 9 (replicate 9 false))]> fresh_notes))).
Proof.
  apply (toggle_note_involutive noting_game 5). reflexivity.
Defined.

Lemma toggle_note_playable g num :
  playable g -> -8 <= num <= 9 ->
  exists n', toggle_note g num = Ok (set_notes g n') /\ notes_wf n'.
Proof.
  intros (Hb & Hs & Hi & Ha & Hg & Hsel & Hn) Hnum.
  assert (Hid : set_notes g (g_notes g) = g) by (by destruct g).
  unfold toggle_note. destruct (g_selected_cell g) as [[row col]|] eqn:Es.
  2:{ exists (g_notes g). by rewrite Hid. }
  destruct (Hsel row col eq_refl) as (Hr & Hc & _).
  destruct (g_notes_mode g); [|exists (g_notes g); by rewrite Hid].
  rewrite get_wf by done. cbn [bind].
  destruct (cell (g_board g) row col =? 0); [|exists (g_notes g); by rewrite Hid].
  destruct (notes_cell _ row col Hn Hr Hc) as (r & c & Hrow & Hcol & Lr & Lc & Hf).
  unfold list_get, list_set. rewrite Hrow. cbn [bind]. rewrite Hcol. cbn [bind].
  destruct (py_index (length c) (num - 1)) as [k| |] eqn:Hk.
  - pose proof (py_index_lt _ _ _ Hk) as Lk. cbn [bind].
    destruct (lookup_lt_is_Some_2 c k Lk) as [old Hold]. rewrite Hold. cbn [bind].
    destruct (decide (k < length c)%nat); [|lia]. cbn [bind].
    destruct (decide (col < length r)%nat); [|lia]. cbn [bind].
    destruct (decide (row < length (g_notes g))%nat) as [|Hne]; [|destruct Hn; lia].
    cbn [bind]. eexists. split; [reflexivity|].
    apply notes_wf_insert; [done|by rewrite length_insert|].
    apply Forall_insert; [done|]. by rewrite length_insert.
  - exfalso. unfold py_index in Hk. rewrite Lc in Hk.
    destruct ((0 <=? num - 1) && (num - 1 <? Z.of_nat 9)) eqn:E1; [done|].
    destruct ((- Z.of_nat 9 <=? num - 1) && (num - 1 <? 0)) eqn:E2; [done|].
    rewrite andb_false_iff, Z.leb_gt, Z.ltb_ge in E1, E2. lia.
  - exfalso. unfold py_index in Hk.
    destruct ((0 <=? num - 1) && (num - 1 <? Z.of_nat (length c))); [done|].
    by destruct ((- Z.of_nat (length c) <=? num - 1) && (num - 1 <? 0)).
Qed.

(** ** X3: the keyboard *)

Lemma playable_set_notes g n :
  playable g -> notes_wf n -> playable (set_notes g n).
Proof. intros (Hb & Hs & Hi & Ha & Hg & Hsel & Hn) H. unfold playable. cbn. done. Qed.

Lemma playable_place g r c v n :
  playable g -> (r < 9)%nat -> (c < 9)%nat ->
  cell (g_initial_board g) r c = 0 ->
  v = 0 \/ v = cell (g_solution g) r c ->
  notes_wf n ->
  playable (set_notes (set_board g (upd (g_board g) r c v)) n).
Proof.
  intros (Hb & Hs & Hi & Ha & Hg & Hsel & Hn) Hr Hc H0 Hv Hn'.
  unfold playable. cbn. split_and!; try done.
  - by apply upd_wf.
  - intros i j Hi' Hj'. rewrite cell_upd by done.
    destruct (decide (i = r /\ j = c)) as [[-> ->]|]; [|by apply Ha].
    intros Hnz. destruct Hv; [done|done].
  - intros i j Hi' Hj' Hnz. rewrite cell_upd by done.
    destruct (decide (i = r /\ j = c)) as [[-> ->]|]; [done|by apply Hg].
Qed.

(** How one call of [handle_key] may change the shared state. *)
Definition key_step (g g' : game) : Prop :=
  playable g' /\
  g_solution g' = g_solution g /\ g_initial_board g' = g_initial_board g /\
  g_selected_cell g' = g_selected_cell g /\ g_hints g' = g_hints g /\
  g_difficulty g' = g_difficulty g /\
  (g_error_count g' = g_error_count g \/
   g_error_count g' = g_error_count g + 1 /\ g_board g' = g_board g) /\
  (forall i j, (i < 9)%nat -> (j < 9)%nat ->
     cell (g_board g') i j <> cell (g_board g) i j ->
     g_selected_cell g = Some (i, j) /\ cell (g_initial_board g) i j = 0 /\
     (cell (g_board g') i j = 0 \/ cell (g_board g') i j = cell (g_solution g) i j)).

Lemma key_step_refl g : playable g -> key_step g g.
Proof. intros Hp. unfold key_step. split_and!; try done. by left. Qed.

Lemma key_step_place g r c v n :
  playable g -> g_selected_cell g = Some (r, c) ->
  v = 0 \/ v = cell (g_solution g) r c ->
  notes_wf n ->
  key_step g (set_notes (set_board g (upd (g_board g) r c v)) n).
Proof.
  intros Hp Hsel Hv Hn. pose proof Hp as (Hb & Hs & Hi & Ha & Hg & Hs' & Hn').
  destruct (Hs' r c Hsel) as (Hr & Hc & H0).
  unfold key_step. split_and!; try done.
  - by apply playable_place.
  - by left.
  - cbn. intros i j Hi' Hj'. rewrite cell_upd by done.
    destruct (decide (i = r /\ j = c)) as [[-> ->]|]; [|done]. intros _.
    split_and!; done.
Qed.

Lemma game_handle_key_step g key :
  playable g -> exists g', GameUI.handle_key g key = Ok g' /\ key_step g g'.
Proof.
  intros Hp. pose proof Hp as (Hb & Hs & Hi & Ha & Hg & Hsel & Hn).
  unfold GameUI.handle_key. destruct (g_selected_cell g) as [[row col]|] eqn:Es.
  2:{ exists g. split; [done|by apply key_step_refl]. }
  destruct (Hsel row col eq_refl) as (Hr & Hc & H0).
  rewrite !get_wf by done. cbn [bind]. rewrite H0. cbn [Z.eqb].
  destruct ((K_1 <=? key) && (key <=? K_9)) eqn:Ek.
  - rewrite andb_true_iff, !Z.leb_le in Ek. unfold K_1, K_9 in Ek.
    destruct (g_notes_mode g).
    + destruct (toggle_note_playable g (key - K_1 + 1) Hp) as (n' & Hrun & Hn').
      { unfold K_1. lia. }
      exists (set_notes g n'). split; [done|].
      unfold key_step. split_and!; try done; [by apply playable_set_notes|by left].
    + destruct (cell (g_solution g) row col =? key - K_1 + 1) eqn:Ev.
      * apply Z.eqb_eq in Ev. rewrite set_wf by done. cbn [bind].
        destruct (clear_notes_wf _ row col Hn Hr Hc) as (n' & Hrun & Hn').
        rewrite Hrun. cbn [bind]. eexists. split; [reflexivity|].
        apply key_step_place; auto.
      * eexists. split; [reflexivity|]. unfold key_step. split_and!; try done.
        by right.
  - destruct ((key =? K_DELETE) || (key =? K_BACKSPACE)).
    + rewrite set_wf by done. cbn [bind].
      destruct (clear_notes_wf _ row col Hn Hr Hc) as (n' & Hrun & Hn').
      rewrite Hrun. cbn [bind]. eexists. split; [reflexivity|].
      apply key_step_place; auto.
    + destruct (key =? K_n).
      * eexists. split; [reflexivity|]. unfold key_step. split_and!; try done. by left.
      * exists g. split; [done|by apply key_step_refl].
Qed.

Lemma key_step_active g g' a : key_step g g' -> key_step g (set_is_game_active g' a).
Proof.
  intros (Hp & H1 & H2 & H3 & H4 & H5 & H6 & H7). unfold key_step. cbn.
  split_and!; done.
Qed.

Lemma e_game_update_best_time e : e_game (EnhancedUI.update_best_time e) = e_game e.
Proof.
  unfold EnhancedUI.update_best_time. destruct (is_game_won (e_game e)); [|done].
  by destruct (PrimFloat.ltb _ _).
Qed.

Lemma enhanced_handle_key_step e key :
  playable (e_game e) ->
  exists e', EnhancedUI.handle_key e key = Ok e' /\ key_step (e_game e) (e_game e').
Proof.
  intros Hp. pose proof Hp as (Hb & Hs & Hi & Ha & Hg & Hsel & Hn).
  unfold EnhancedUI.handle_key. cbv zeta.
  destruct (g_selected_cell (e_game e)) as [[row col]|] eqn:Es.
  2:{ exists e. split; [done|by apply key_step_refl]. }
  destruct (Hsel row col eq_refl) as (Hr & Hc & H0).
  rewrite !get_wf by done. cbn [bind]. rewrite H0. cbn [Z.eqb].
  destruct ((K_1 <=? key) && (key <=? K_9)) eqn:Ek.
  - rewrite andb_true_iff, !Z.leb_le in Ek. unfold K_1, K_9 in Ek.
    destruct (g_notes_mode (e_game e)).
    + destruct (toggle_note_playable (e_game e) (key - K_1 + 1) Hp) as (n' & Hrun & Hn').
      { unfold K_1. lia. }
      rewrite Hrun. cbn [bind]. eexists. split; [reflexivity|]. cbn [e_game set_game].
      unfold key_step. split_and!; try done; [by apply playable_set_notes|by left].
    + destruct (cell (g_solution (e_game e)) row col =? key - K_1 + 1) eqn:Ev.
      * apply Z.eqb_eq in Ev. rewrite set_wf by done. cbn [bind].
        destruct (clear_notes_wf _ row col Hn Hr Hc) as (n' & Hrun & Hn').
        rewrite Hrun. cbn [bind].
        assert (Hstep : key_step (e_game e)
                  (set_notes (set_board (e_game e)
                     (upd (g_board (e_game e)) row col (key - K_1 + 1))) n')).
        { apply key_step_place; auto. }
        destruct (is_game_won _).
        -- eexists. split; [reflexivity|]. rewrite e_game_update_best_time.
           cbn [e_game set_session set_game]. by apply key_step_active.
        -- eexists. split; [reflexivity|]. exact Hstep.
      * eexists. split; [reflexivity|]. cbn [e_game set_session set_game].
        unfold key_step. split_and!; try done. by right.
  - destruct ((key =? K_DELETE) || (key =? K_BACKSPACE)).
    + rewrite set_wf by done. cbn [bind].
      destruct (clear_notes_wf _ row col Hn Hr Hc) as (n' & Hrun & Hn').
      rewrite Hrun. cbn [bind]. eexists. split; [reflexivity|].
      cbn [e_game set_game]. apply key_step_place; auto.
    + destruct (key =? K_n).
      * eexists. split; [reflexivity|]. cbn [e_game set_game].
        unfold key_step. split_and!; try done. by left.
      * destruct (key =? K_t).
        -- unfold EnhancedUI.switch_theme. cbv zeta.
           destruct (list_get EnhancedUI.theme_list _) as [t| |] eqn:Et.
           ++ cbn [bind]. eexists. split; [reflexivity|]. by apply key_step_refl.
           ++ exfalso. by destruct (e_current_theme e).
           ++ exfalso. by destruct (e_current_theme e).
        -- exists e. split; [done|by apply key_step_refl].
Qed.

(** X3.  [handle_key] (both files), on a playable state and for every
    key code: the call returns without raising and leaves a playable
    state; solution, givens, selection, hint counter and difficulty are
    untouched; the error counter stays or grows by one, and when it
    grows the board is unchanged; the only cell of the board that can
    change is the selected one, which the puzzle left blank, and it
    becomes blank or the digit the solution has there.  So no given is
    overwritten and no digit that differs from the solution is ever
    shown. *)
Theorem handle_key_keeps_playable (g : game) (e : egame) (key : Z) :
  playable g -> playable (e_game e) ->
  (exists g', GameUI.handle_key g key = Ok g' /\ key_step g g') /\
  (exists e', EnhancedUI.handle_key e key = Ok e' /\ key_step (e_game e) (e_game e')).
Proof.
  intros Hg He. split; [by apply game_handle_key_step|by apply enhanced_handle_key_step].
Qed.

(** The enhanced object [__init__] builds around a game state, when no
    statistics file is found. *)
Definition init_egame (g : game) : egame :=
  {| e_game := g; e_stats := default_stats;
     e_session := {| games_played := 0; games_won := 0; total_time := 0; total_errors := 0 |};
     e_win_animation := false; e_current_theme := LIGHT; e_colors := themes LIGHT |}.

Lemma playable_noting_game : playable noting_game.
Proof.
  unfold playable. cbn. split_and!; try apply wf_empty_board.
  - apply agrees_refl.
  - done.
  - intros r c [= <- <-]. split_and!; (lia || reflexivity).
  - apply notes_wf_fresh.
Qed.

Lemma handle_key_keeps_playable_witness :
  (exists g', GameUI.handle_key noting_game 53 = Ok g' /\ key_step noting_game g') /\
  (exists e', EnhancedUI.handle_key (init_egame noting_game) 53 = Ok e' /\
              key_step (e_game (init_egame noting_game)) (e_game e')).
Proof.
  apply (handle_key_keeps_playable noting_game (init_egame noting_game) 53);
    apply playable_noting_game.
Defined.

(** ** X4: entering a digit *)

(** X4.  A digit key pressed outside notes mode on a selected cell of a
    playable state is judged against the stored solution alone (the
    rules of [is_valid_move] are not consulted): when the solution has
    that digit there, the board takes it and the notes of the cell are
    cleared; otherwise the board stays as it is and the error counter
    grows by one, in the enhanced file together with the session's
    [total_errors]. *)
Theorem handle_key_digit (g : game) (e : egame) (row col : nat) (num : Z) :
  playable g -> g_selected_cell g = Some (row, col) -> g_notes_mode g = false ->
  e_game e = g -> 1 <= num <= 9 ->
  (cell (g_solution g) row col = num ->
     exists n, clear_notes (g_notes g) row col = Ok n /\
       GameUI.handle_key g (K_1 + num - 1)
       = Ok (set_notes (set_board g (upd (g_board g) row col num)) n) /\
       exists e', EnhancedUI.handle_key e (K_1 + num - 1) = Ok e' /\
         g_board (e_game e') = upd (g_board g) row col num /\
         g_notes (e_game e') = n /\
         g_error_count (e_game e') = g_error_count g /\
         total_errors (e_session e') = total_errors (e_session e)) /\
  (cell (g_solution g) row col <> num ->
     GameUI.handle_key g (K_1 + num - 1) = Ok (set_error_count g (g_error_count g + 1)) /\
     EnhancedUI.handle_key e (K_1 + num - 1)
     = Ok (set_session (set_game e (set_error_count g (g_error_count g + 1)))
             (add_total_errors (e_session e)))).
Proof.
  intros Hp Hsel Hnm He Hnum. pose proof Hp as (Hb & Hs & Hi & Ha & Hg & Hs' & Hn).
  destruct (Hs' row col Hsel) as (Hr & Hc & H0).
  assert (Hk : (K_1 <=? K_1 + num - 1) && (K_1 + num - 1 <=? K_9) = true).
  { rewrite andb_true_iff, !Z.leb_le. unfold K_1, K_9. lia. }
  assert (Hn1 : K_1 + num - 1 - K_1 + 1 = num) by lia.
  unfold GameUI.handle_key, EnhancedUI.handle_key. cbv zeta. rewrite He, Hsel, Hk, Hn1, Hnm.
  rewrite !get_wf by done. cbn [bind]. rewrite H0. cbn [Z.eqb]. split.
  - intros Hv. rewrite Hv, Z.eqb_refl, set_wf by done. cbn [bind].
    destruct (clear_notes_wf _ row col Hn Hr Hc) as (n & Hrun & Hn').
    exists n. split; [done|]. rewrite Hrun. cbn [bind]. split; [done|].
    destruct (is_game_won _).
    + eexists. split; [reflexivity|]. rewrite e_game_update_best_time.
      unfold EnhancedUI.update_best_time. cbn [e_game set_session set_game e_session].
      split_and!; try done.
      destruct (is_game_won _); [|done]. by destruct (PrimFloat.ltb _ _).
    + eexists. split; [reflexivity|]. cbn. done.
  - intros Hv. apply Z.eqb_neq in Hv. rewrite Hv. done.
Qed.

(** The enhanced object around [noting_game] with notes mode off. *)
Definition typing_game : game := set_notes_mode noting_game false.

Lemma playable_typing_game : playable typing_game.
Proof.
  unfold playable. cbn. split_and!; try apply wf_empty_board.
  - apply agrees_refl.
  - done.
  - intros r c [= <- <-]. split_and!; (lia || reflexivity).
  - apply notes_wf_fresh.
Qed.

Lemma handle_key_digit_witness :
  (cell (g_solution typing_game) 2 3 = 5 ->
     exists n, clear_notes (g_notes typing_game) 2 3 = Ok n /\
       GameUI.handle_key typing_game (K_1 + 5 - 1)
       = Ok (set_notes (set_board typing_game (upd (g_board typing_game) 2 3 5)) n) /\
       exists e', EnhancedUI.handle_key (init_egame typing_game) (K_1 + 5 - 1) = Ok e' /\
         g_board (e_game e') = upd (g_board typing_game) 2 3 5 /\
         g_notes (e_game e') = n /\
         g_error_count (e_game e') = g_error_count typing_game /\
         total_errors (e_session e') = total_errors (e_session (init_egame typing_game))) /\
  (cell (g_solution typing_game) 2 3 <> 5 ->
     GameUI.handle_key typing_game (K_1 + 5 - 1)
     = Ok (set_error_count typing_game (g_error_count typing_game + 1)) /\
     EnhancedUI.handle_key (init_egame typing_game) (K_1 + 5 - 1)
     = Ok (set_session (set_game (init_egame typing_game)
                          (set_error_count typing_game (g_error_count typing_game + 1)))
             (add_total_errors (e_session (init_egame typing_game))))).
Proof.
  apply (handle_key_digit typing_game (init_egame typing_game) 2 3 5).
  - apply playable_typing_game.
  - reflexivity.
  - reflexivity.
  - reflexivity.
  - lia.
Defined.

(** ** X5: Delete takes a digit back *)

(** X5.  On a playable state outside notes mode whose selected cell is
    blank, a digit key followed by Delete or Backspace leaves the board
    as it was before the two keys, whether or not the digit was
    accepted (both files). *)
Theorem delete_undoes_digit (g : game) (e : egame) (row col : nat) (key del : Z) :
  playable g -> e_game e = g ->
  g_selected_cell g = Some (row, col) -> g_notes_mode g = false ->
  cell (g_board g) row col = 0 ->
  K_1 <= key <= K_9 -> del = K_DELETE \/ del = K_BACKSPACE ->
  (exists g1 g2, GameUI.handle_key g key = Ok g1 /\ GameUI.handle_key g1 del = Ok g2 /\
                 g_board g2 = g_board g) /\
  (exists e1 e2, EnhancedUI.handle_key e key = Ok e1 /\ EnhancedUI.handle_key e1 del = Ok e2 /\
                 g_board (e_game e2) = g_board g).
Proof.
  intros Hp He Hsel Hnm Hblank Hkey Hdel.
  pose proof Hp as (Hb & Hs & Hi & Ha & Hg & Hs' & Hn).
  destruct (Hs' row col Hsel) as (Hr & Hc & H0).
  assert (Hd1 : (K_1 <=? del) && (del <=? K_9) = false).
  { destruct Hdel as [-> | ->]; reflexivity. }
  assert (Hd2 : (del =? K_DELETE) || (del =? K_BACKSPACE) = true).
  { destruct Hdel as [-> | ->]; reflexivity. }
  assert (Hboard : forall g1, key_step g g1 ->
            exists n, GameUI.handle_key g1 del
                      = Ok (set_notes (set_board g1 (upd (g_board g1) row col 0)) n) /\
                      (forall e1, e_game e1 = g1 ->
                         EnhancedUI.handle_key e1 del
                         = Ok (set_game e1 (set_notes (set_board g1 (upd (g_board g1) row col 0)) n))) /\
                      upd (g_board g1) row col 0 = g_board g).
  { intros g1 (Hp1 & E1 & E2 & E3 & E4 & E5 & E6 & E7).
    pose proof Hp1 as (Hb1 & _ & Hi1 & _ & _ & _ & Hn1).
    destruct (clear_notes_wf _ row col Hn1 Hr Hc) as (n & Hrun & Hn').
    exists n. split_and!.
    - unfold GameUI.handle_key. rewrite E3, Hsel, Hd1, Hd2, E2.
      rewrite !get_wf by done. cbn [bind]. rewrite H0. cbn [Z.eqb].
      rewrite set_wf by done. cbn [bind]. by rewrite Hrun.
    - intros e1 <-. unfold EnhancedUI.handle_key. cbv zeta. rewrite E3, Hsel, Hd1, Hd2, E2.
      rewrite !get_wf by done. cbn [bind]. rewrite H0. cbn [Z.eqb].
      rewrite set_wf by done. cbn [bind]. by rewrite Hrun.
    - apply board_ext; [by apply upd_wf|done|]. intros i j Hi' Hj'.
      rewrite cell_upd by done.
      destruct (decide (i = row /\ j = col)) as [[-> ->]|Hne]; [done|].
      destruct (Z.eq_dec (cell (g_board g1) i j) (cell (g_board g) i j)) as [|Hd]; [done|].
      destruct (E7 i j Hi' Hj' Hd) as (Hs2 & _). rewrite Hsel in Hs2.
      injection Hs2 as <- <-. tauto. }
  split.
  - destruct (game_handle_key_step g key Hp) as (g1 & Hrun1 & Hstep).
    destruct (Hboard g1 Hstep) as (n & Hrun2 & _ & Hu).
    eexists g1, _. split; [done|]. split; [exact Hrun2|]. done.
  - subst g. destruct (enhanced_handle_key_step e key Hp) as (e1 & Hrun1 & Hstep).
    destruct (Hboard (e_game e1) Hstep) as (n & _ & Hrun2 & Hu).
    eexists e1, _. split; [done|]. split; [by apply Hrun2|]. done.
Qed.

Lemma delete_undoes_digit_witness :
  (exists g1 g2, GameUI.handle_key typing_game 55 = Ok g1 /\
                 GameUI.handle_key g1 K_BACKSPACE = Ok g2 /\
                 g_board g2 = g_board typing_game) /\
  (exists e1 e2, EnhancedUI.handle_key (init_egame typing_game) 55 = Ok e1 /\
                 EnhancedUI.handle_key e1 K_BACKSPACE = Ok e2 /\
                 g_board (e_game e2) = g_board typing_game).
Proof.
  apply (delete_undoes_digit typing_game (init_egame typing_game) 2 3 55 K_BACKSPACE).
  - apply playable_typing_game.
  - reflexivity.
  - reflexivity.
  - reflexivity.
  - reflexivity.
  - unfold K_1, K_9. lia.
  - by right.
Defined.

(** ** X6: progress and winning *)

Lemma board_tabulate b :
  wf b -> b = map (fun i => map (fun j => cell b i j) (seq 0 9)) (seq 0 9).
Proof.
  intros Hw. apply board_ext; [done| |].
  - split; [by rewrite length_map, length_seq|].
    apply List.Forall_forall. intros r Hr. apply in_map_iff in Hr as (i & <- & _).
    by rewrite length_map, length_seq.
  - intros i j Hi Hj. unfold cell at 2.
    rewrite list_lookup_fmap, lookup_seq_lt by done. cbn [fmap option_fmap option_map].
    rewrite list_lookup_fmap, lookup_seq_lt by done. done.
Qed.

Lemma length_filter_flat_map {A B} (f : B -> bool) (h : A -> list B) (l : list A) :
  length (List.filter f (flat_map h l))
  = list_sum (map (fun x => length (List.filter f (h x))) l).
Proof.
  induction l as [|x l IH]; [done|].
  cbn [flat_map map list_sum fold_right]. rewrite List.filter_app, length_app, IH. done.
Qed.

Lemma count_zero_row b i (s : list nat) :
  count_occ Z.eq_dec (map (fun j => cell b i j) s) 0
  = length (List.filter (fun p => cellp b p =? 0) (map (fun j => (i, j)) s)).
Proof.
  induction s as [|j s IH]; [done|]. cbn [map count_occ List.filter].
  unfold cellp at 1. cbn [fst snd].
  destruct (Z.eq_dec (cell b i j) 0) as [E|E].
  - rewrite E. cbn [Z.eqb length]. by rewrite IH.
  - apply Z.eqb_neq in E. by rewrite E, IH.
Qed.

(** [check_progress] counts the blank cells of a 9x9 board. *)
Lemma check_progress_zeros b : wf b -> check_progress b = zeros b.
Proof.
  intros Hw. unfold zeros, all_cells. rewrite length_filter_flat_map.
  rewrite (board_tabulate b Hw) at 1. unfold check_progress. rewrite map_map.
  f_equal. apply map_ext. intros i. apply count_zero_row.
Qed.

Lemma zeros_0_full b :
  zeros b = 0%nat <-> forall i j, (i < 9)%nat -> (j < 9)%nat -> cell b i j <> 0.
Proof.
  unfold zeros. split.
  - intros H i j Hi Hj E.
    assert (Hin : In (i, j) (List.filter (fun p => cellp b p =? 0) all_cells)).
    { apply filter_In. split; [by apply in_all_cells|]. by apply Z.eqb_eq. }
    apply length_zero_iff_nil in H. by rewrite H in Hin.
  - intros H. apply length_zero_iff_nil.
    destruct (List.filter (fun p => cellp b p =? 0) all_cells) as [|[i j] l] eqn:E; [done|].
    assert (Hin : In (i, j) (List.filter (fun p => cellp b p =? 0) all_cells))
      by (rewrite E; by left).
    apply filter_In in Hin as [Hg H0]. apply in_all_cells in Hg as [Hi Hj].
    apply Z.eqb_eq in H0. exfalso. by apply (H i j).
Qed.

Lemma is_game_won_full g :
  wf (g_board g) ->
  is_game_won g = true <->
  forall i j, (i < 9)%nat -> (j < 9)%nat -> cell (g_board g) i j <> 0.
Proof.
  intros Hw. unfold is_game_won.
  rewrite Nat.eqb_eq, (check_progress_zeros _ Hw). apply zeros_0_full.
Qed.

Lemma won_board_solution g :
  playable g -> is_game_won g = true -> g_board g = g_solution g.
Proof.
  intros (Hb & Hs & Hi & Ha & _) Hw. apply board_ext; [done|done|].
  intros i j Hi' Hj'. apply Ha; [done|done|]. by apply (is_game_won_full g Hb).
Qed.

(** X6.  On a 9x9 board [check_progress] is the number of blank cells,
    so [is_game_won] holds exactly when no cell is blank; and on a
    playable state a won game shows the solution itself (both files). *)
Theorem won_board_is_solution (g : game) :
  wf (g_board g) ->
  check_progress (g_board g) = zeros (g_board g) /\
  (is_game_won g = true <->
   forall i j, (i < 9)%nat -> (j < 9)%nat -> cell (g_board g) i j <> 0) /\
  (playable g -> is_game_won g = true -> g_board g = g_solution g).
Proof.
  intros Hw. split; [by apply check_progress_zeros|].
  split; [by apply is_game_won_full|apply won_board_solution].
Qed.

Lemma won_board_is_solution_witness :
  check_progress (g_board init_game) = zeros (g_board init_game) /\
  (is_game_won init_game = true <->
   forall i j, (i < 9)%nat -> (j < 9)%nat -> cell (g_board init_game) i j <> 0) /\
  (playable init_game -> is_game_won init_game = true ->
   g_board init_game = g_solution init_game).
Proof.
  apply (won_board_is_solution init_game). apply wfb_wf. reflexivity.
Defined.

(** ** X7: hints *)

(** What a call of [get_hint] does to a state. *)
Definition hint_step (g g' : game) (given : bool) : Prop :=
  playable g' /\
  (given = true <->
   0 < g_hints g /\
   exists row col, g_selected_cell g = Some (row, col) /\ cell (g_board g) row col = 0) /\
  (given = true ->
   g_hints g' = g_hints g - 1 /\
   exists row col, g_selected_cell g = Some (row, col) /\
     g_board g' = upd (g_board g) row col (cell (g_solution g) row col)) /\
  (given = false -> g' = g) /\
  g_solution g' = g_solution g /\ g_initial_board g' = g_initial_board g /\
  g_selected_cell g' = g_selected_cell g /\ g_error_count g' = g_error_count g.

Lemma hint_step_none g :
  playable g ->
  ~ (0 < g_hints g /\
     exists row col, g_selected_cell g = Some (row, col) /\ cell (g_board g) row col = 0) ->
  hint_step g g false.
Proof.
  intros Hp Hno. unfold hint_step. split_and!; try done.
Qed.

Lemma game_get_hint_step g :
  playable g -> exists g' r, GameUI.get_hint g = Ok (g', r) /\ hint_step g g' r.
Proof.
  intros Hp. pose proof Hp as (Hb & Hs & Hi & Ha & Hg & Hsel & Hn).
  unfold GameUI.get_hint. destruct (g_hints g >? 0) eqn:Eh.
  2:{ exists g, false. split; [done|]. apply hint_step_none; [done|].
      intros [Hh _]. rewrite Z.gtb_ltb in Eh. apply Z.ltb_ge in Eh. lia. }
  rewrite Z.gtb_ltb in Eh. apply Z.ltb_lt in Eh.
  destruct (g_selected_cell g) as [[row col]|] eqn:Es.
  2:{ exists g, false. split; [done|]. apply hint_step_none; [done|].
      intros [_ (r & c & Hx & _)]. congruence. }
  destruct (Hsel row col eq_refl) as (Hr & Hc & H0).
  rewrite !get_wf by done. cbn [bind].
  destruct (cell (g_board g) row col =? 0) eqn:E0.
  2:{ exists g, false. split; [done|]. apply hint_step_none; [done|].
      intros [_ (r & c & Hx & Hz)]. rewrite Es in Hx. injection Hx as <- <-.
      apply Z.eqb_neq in E0. done. }
  apply Z.eqb_eq in E0. rewrite set_wf by done. cbn [bind].
  eexists _, true. split; [reflexivity|]. unfold hint_step. cbn. split_and!; try done.
  - pose proof (playable_place g row col (cell (g_solution g) row col) (g_notes g)
                  Hp Hr Hc H0 (or_intror eq_refl) Hn) as (Hb' & Hs' & Hi' & Ha' & Hg' & _).
    unfold playable. cbn in *. split_and!; try done; apply Hp.
  - split; [|done]. intros _. split; [done|]. by exists row, col.
  - intros _. split; [done|]. by exists row, col.
Qed.

Lemma enhanced_get_hint_step g :
  playable g -> exists g' r, EnhancedUI.get_hint g = Ok (g', r) /\ hint_step g g' r.
Proof.
  intros Hp. pose proof Hp as (Hb & Hs & Hi & Ha & Hg & Hsel & Hn).
  unfold EnhancedUI.get_hint. destruct (g_hints g >? 0) eqn:Eh.
  2:{ exists g, false. split; [done|]. apply hint_step_none; [done|].
      intros [Hh _]. rewrite Z.gtb_ltb in Eh. apply Z.ltb_ge in Eh. lia. }
  rewrite Z.gtb_ltb in Eh. apply Z.ltb_lt in Eh.
  destruct (g_selected_cell g) as [[row col]|] eqn:Es.
  2:{ exists g, false. split; [done|]. apply hint_step_none; [done|].
      intros [_ (r & c & Hx & _)]. congruence. }
  destruct (Hsel row col eq_refl) as (Hr & Hc & H0).
  rewrite !get_wf by done. cbn [bind].
  destruct (cell (g_board g) row col =? 0) eqn:E0.
  2:{ exists g, false. split; [done|]. apply hint_step_none; [done|].
      intros [_ (r & c & Hx & Hz)]. rewrite Es in Hx. injection Hx as <- <-.
      apply Z.eqb_neq in E0. done. }
  apply Z.eqb_eq in E0. rewrite set_wf by done. cbn [bind].
  destruct (clear_notes_wf _ row col Hn Hr Hc) as (n' & Hrun & Hn').
  rewrite Hrun. cbn [bind].
  eexists _, true. split; [reflexivity|]. unfold hint_step. cbn. split_and!; try done.
  - pose proof (playable_place g row col (cell (g_solution g) row col) n'
                  Hp Hr Hc H0 (or_intror eq_refl) Hn') as (Hb' & Hs' & Hi' & Ha' & Hg' & _).
    unfold playable. cbn in *. split_and!; try done; apply Hp.
  - split; [|done]. intros _. split; [done|]. by exists row, col.
  - intros _. split; [done|]. by exists row, col.
Qed.

(** X7.  [get_hint] (both files) on a playable state returns without
    raising and leaves a playable state.  It answers [True] exactly when
    a hint is left and the selected cell is blank; it then writes the
    solution's digit into that cell and takes one from [hints];
    otherwise the state is unchanged.  The counter is the only budget:
    solution, givens, selection and error counter are never touched. *)
Theorem get_hint_fills_from_solution (g : game) :
  playable g ->
  (exists g' r, GameUI.get_hint g = Ok (g', r) /\ hint_step g g' r) /\
  (exists g' r, EnhancedUI.get_hint g = Ok (g', r) /\ hint_step g g' r).
Proof.
  intros Hp. split; [by apply game_get_hint_step|by apply enhanced_get_hint_step].
Qed.

Lemma get_hint_fills_from_solution_witness :
  (exists g' r, GameUI.get_hint typing_game = Ok (g', r) /\ hint_step typing_game g' r) /\
  (exists g' r, EnhancedUI.get_hint typing_game = Ok (g', r) /\ hint_step typing_game g' r).
Proof.
  apply (get_hint_fills_from_solution typing_game). apply playable_typing_game.
Defined.

(** ** X8: the hint button *)

(** X8.  In the loop of [run] of [sudoku_game.py] a left click is first
    given to [handle_click], which clears the selection for every
    position outside the grid, and only then to [handle_button_click].
    A click on the hint button (410 <= x < 510, 620 <= y < 660)
    therefore reaches [get_hint] with nothing selected: the whole
    effect of the click is that the selection is cleared; no hint is
    given and [hints] keeps its value. *)
Theorem hint_button_only_deselects {rng : Type} `{Shuffler rng}
    (fuel : nat) (now : float) (g : game) (s : rng) (x y : Z) :
  410 <= x < 510 -> 620 <= y < 660 ->
  GameUI.handle_event fuel now (MOUSEBUTTONDOWN 1 (x, y)) g s
  = Ok (set_selected_cell g None, s, true).
Proof.
  intros Hx Hy.
  assert (Hclick : handle_click g (x, y) = Ok (set_selected_cell g None)).
  { unfold handle_click, MARGIN, CELL_SIZE.
    destruct ((30 <=? x) && (x <? 30 + 9 * 60) && (30 <=? y) && (y <? 30 + 9 * 60)) eqn:E;
      [|done].
    rewrite !andb_true_iff, !Z.leb_le, !Z.ltb_lt in E. lia. }
  assert (H1 : collidepoint {| r_left := 50; r_top := 620; r_width := 100; r_height := 40 |}
                 (x, y) = false).
  { unfold collidepoint. cbn. rewrite !andb_false_iff, !Z.leb_gt, !Z.ltb_ge. lia. }
  assert (H2 : collidepoint {| r_left := 170; r_top := 620; r_width := 100; r_height := 40 |}
                 (x, y) = false).
  { unfold collidepoint. cbn. rewrite !andb_false_iff, !Z.leb_gt, !Z.ltb_ge. lia. }
  assert (H3 : collidepoint {| r_left := 290; r_top := 620; r_width := 100; r_height := 40 |}
                 (x, y) = false).
  { unfold collidepoint. cbn. rewrite !andb_false_iff, !Z.leb_gt, !Z.ltb_ge. lia. }
  assert (H4 : collidepoint {| r_left := 410; r_top := 620; r_width := 100; r_height := 40 |}
                 (x, y) = true).
  { unfold collidepoint. cbn. rewrite !andb_true_iff, !Z.leb_le, !Z.ltb_lt. lia. }
  unfold GameUI.handle_event. cbn [Z.eqb Pos.eqb]. rewrite Hclick. cbn [bind].
  unfold draw_buttons. cbn [GameUI.handle_button_click]. rewrite H1, H2, H3, H4.
  unfold GameUI.button_action, GameUI.get_hint. cbn [String.eqb Ascii.eqb Bool.eqb].
  cbn [g_selected_cell set_selected_cell g_hints].
  by destruct (g_hints g >? 0).
Qed.

Lemma hint_button_only_deselects_witness :
  GameUI.handle_event 82 0%float (MOUSEBUTTONDOWN 1 (450, 640)) typing_game tt
  = Ok (set_selected_cell typing_game None, tt, true).
Proof.
  apply (hint_button_only_deselects 82 0%float typing_game tt 450 640); lia.
Defined.

(** ** X9: a new puzzle *)

(** What [generate_new_puzzle] sets up for difficulty [d] at time [now]. *)
Definition fresh_start (d : Difficulty) (now : float) (g' : game) : Prop :=
  g_initial_board g' = g_board g' /\ g_selected_cell g' = None /\
  g_error_count g' = 0 /\ g_hints g' = 3 /\ g_is_game_active g' = true /\
  g_notes g' = fresh_notes /\ g_difficulty g' = d /\ g_start_time g' = now /\
  Z.of_nat (zeros (g_board g')) <= Z.of_nat (zeros (g_solution g')) + cells_to_remove d.

Section Events.
Context {rng : Type} `{Shuffler rng}.

Lemma game_new_puzzle fuel now g s :
  (82 <= fuel)%nat ->
  exists g' s', GameUI.generate_new_puzzle fuel now g s = Ok (g', s') /\
    playable g' /\ fresh_start (g_difficulty g) now g' /\
    g_notes_mode g' = g_notes_mode g /\ g_game_time g' = g_game_time g.
Proof.
  intros Hfuel.
  destruct (game_create_puzzle_spec fuel (g_difficulty g) s Hfuel)
    as (p & sol & s1 & s2 & _ & Hrun & Hwp & Hws & Ha & Hz).
  unfold GameUI.generate_new_puzzle. rewrite Hrun. cbn [bind].
  eexists _, _. split; [reflexivity|]. split_and!; try done.
  unfold playable. cbn. split_and!; try done. apply notes_wf_fresh.
Qed.

Lemma enhanced_new_puzzle fuel now e s :
  (82 <= fuel)%nat ->
  exists e' s', EnhancedUI.generate_new_puzzle fuel now e s = Ok (e', s') /\
    playable (e_game e') /\ fresh_start (g_difficulty (e_game e)) now (e_game e') /\
    g_notes_mode (e_game e') = g_notes_mode (e_game e) /\
    g_game_time (e_game e') = g_game_time (e_game e) /\
    e_session e' = add_games_played (e_session e) /\ e_win_animation e' = false /\
    e_stats e' = e_stats e /\ e_current_theme e' = e_current_theme e /\
    e_colors e' = e_colors e.
Proof.
  intros Hfuel.
  destruct (enhanced_create_puzzle_spec fuel (g_difficulty (e_game e)) s Hfuel)
    as (p & sol & s1 & s2 & _ & Hrun & Hwp & Hws & Ha & Hz & _).
  unfold EnhancedUI.generate_new_puzzle. cbv zeta. rewrite Hrun. cbn [bind].
  eexists _, _. split; [reflexivity|]. split_and!; try done.
  unfold playable. cbn. split_and!; try done. apply notes_wf_fresh.
Qed.


(** ** Buttons and events *)

Lemma playable_givens_solution g i j :
  playable g -> (i < 9)%nat -> (j < 9)%nat ->
  cell (g_initial_board g) i j <> 0 ->
  cell (g_initial_board g) i j = cell (g_solution g) i j.
Proof.
  intros (Hb & Hs & Hi & Ha & Hg & _) Hi' Hj' Hnz.
  rewrite <- (Hg i j Hi' Hj' Hnz). apply Ha; [done|done|]. by rewrite (Hg i j Hi' Hj' Hnz).
Qed.

Lemma playable_solve g a :
  playable g -> playable (set_is_game_active (set_board g (g_solution g)) a).
Proof.
  intros Hp. pose proof Hp as (Hb & Hs & Hi & Ha & Hg & Hsel & Hn).
  unfold playable. cbn. split_and!; try done.
  intros i j Hi' Hj' Hnz. symmetry. by apply playable_givens_solution.
Qed.

Lemma playable_reset g now :
  playable g ->
  playable {| g_board := g_initial_board g; g_solution := g_solution g;
              g_initial_board := g_initial_board g;
              g_selected_cell := g_selected_cell g; g_error_count := 0;
              g_start_time := now; g_game_time := g_game_time g;
              g_is_game_active := true; g_difficulty := g_difficulty g;
              g_hints := 3; g_notes_mode := g_notes_mode g; g_notes := fresh_notes |}.
Proof.
  intros Hp. pose proof Hp as (Hb & Hs & Hi & Ha & Hg & Hsel & Hn).
  unfold playable. cbn. split_and!; try done.
  - intros i j Hi' Hj' Hnz. by apply playable_givens_solution.
  - apply notes_wf_fresh.
Qed.

(** What an event may do to the shared state. *)
Definition event_step (g g' : game) : Prop :=
  playable g' /\ (g_hints g' = g_hints g \/ g_hints g' = 3).

Lemma event_step_trans g1 g2 g3 :
  event_step g1 g2 -> event_step g2 g3 -> event_step g1 g3.
Proof.
  intros [_ H1] [Hp H2]. split; [done|]. destruct H1 as [<-|H1], H2 as [H2|H2]; auto.
  right. congruence.
Qed.

Lemma game_button_action fuel now a g s :
  (82 <= fuel)%nat -> playable g -> g_selected_cell g = None ->
  exists g' s', GameUI.button_action fuel now a g s = Ok (g', s') /\
    event_step g g' /\ g_selected_cell g' = None.
Proof.
  intros Hfuel Hp Hsel. unfold GameUI.button_action.
  destruct (a =? "new_game")%string.
  { destruct (game_new_puzzle fuel now g s Hfuel) as (g' & s' & Hrun & Hp' & Hf & _).
    exists g', s'. split; [done|]. destruct Hf as (_ & Hs & _ & Hh & _).
    split; [|done]. split; [done|by right]. }
  destruct (a =? "solve")%string.
  { eexists _, _. split; [reflexivity|]. split; [|done].
    split; [by apply playable_solve|by left]. }
  destruct (a =? "reset")%string.
  { eexists _, _. split; [reflexivity|]. split; [|done].
    split; [by apply playable_reset|by right]. }
  destruct (a =? "hint")%string.
  { unfold GameUI.get_hint. rewrite Hsel.
    exists g, s. destruct (g_hints g >? 0); cbn [bind]; (split; [done|]);
      (split; [|done]); (split; [done|by left]). }
  exists g, s. split; [done|]. split; [|done]. split; [done|by left].
Qed.

Lemma game_buttons fuel now pos buttons g s :
  (82 <= fuel)%nat -> playable g -> g_selected_cell g = None ->
  exists g' s', GameUI.handle_button_click fuel now pos buttons g s = Ok (g', s') /\
    event_step g g' /\ g_selected_cell g' = None.
Proof.
  intros Hfuel. revert g s. induction buttons as [|[a r] rest IH]; intros g s Hp Hsel.
  - exists g, s. split; [done|]. split; [|done]. split; [done|by left].
  - cbn [GameUI.handle_button_click]. destruct (collidepoint r pos); [|by apply IH].
    destruct (game_button_action fuel now a g s Hfuel Hp Hsel) as (g1 & s1 & Hrun & Hst & Hs1).
    rewrite Hrun. cbn [bind].
    destruct (IH g1 s1 (proj1 Hst) Hs1) as (g2 & s2 & Hrun2 & Hst2 & Hs2).
    exists g2, s2. split; [done|]. split; [|done]. by eapply event_step_trans.
Qed.

Lemma buttons_miss pos a r :
  MARGIN <= pos.2 < MARGIN + 9 * CELL_SIZE ->
  In (a, r) draw_buttons -> collidepoint r pos = false.
Proof.
  unfold MARGIN, CELL_SIZE. intros Hy Hin. unfold draw_buttons in Hin. cbn in Hin.
  destruct Hin as [E|[E|[E|[E|[]]]]]; injection E as _ <-; unfold collidepoint; cbn;
    rewrite !andb_false_iff, !Z.leb_gt, !Z.ltb_ge; lia.
Qed.

Lemma game_buttons_miss fuel now pos g s :
  MARGIN <= pos.2 < MARGIN + 9 * CELL_SIZE ->
  GameUI.handle_button_click fuel now pos draw_buttons g s = Ok (g, s).
Proof.
  intros Hy. assert (Hall : forall a r, In (a, r) draw_buttons -> collidepoint r pos = false)
    by (intros a r; by apply buttons_miss).
  revert Hall. generalize draw_buttons as l. induction l as [|[a r] l IH]; intros Hall; [done|].
  cbn [GameUI.handle_button_click]. rewrite (Hall a r) by (by left).
  apply IH. intros a' r' Hin. apply (Hall a' r'). by right.
Qed.

Lemma game_event fuel now ev g s :
  (82 <= fuel)%nat -> playable g ->
  exists g' s' r, GameUI.handle_event fuel now ev g s = Ok (g', s', r) /\ event_step g g'.
Proof.
  intros Hfuel Hp. destruct ev as [|button pos|key|]; cbn [GameUI.handle_event].
  - exists g, s, false. split; [done|]. split; [done|by left].
  - destruct (button =? 1).
    2:{ exists g, s, true. split; [done|]. split; [done|by left]. }
    destruct (handle_click_playable g pos Hp) as (sel & Hrun & Hp1 & Hsel).
    rewrite Hrun. cbn [bind]. destruct Hsel as [->|[_ Hy]].
    + destruct (game_buttons fuel now pos draw_buttons (set_selected_cell g None) s Hfuel Hp1
                  eq_refl) as (g2 & s2 & Hrun2 & Hst & _).
      rewrite Hrun2. cbn [bind]. exists g2, s2, true. split; [done|]. exact Hst.
    + rewrite game_buttons_miss by done. cbn [bind]. eexists _, _, _. split; [reflexivity|].
      split; [done|by left].
  - destruct (game_handle_key_step g key Hp) as (g1 & Hrun & Hst).
    rewrite Hrun. cbn [bind]. exists g1, s, true. split; [done|].
    destruct Hst as (Hp1 & _ & _ & _ & Hh & _). split; [done|by left].
  - exists g, s, true. split; [done|]. split; [done|by left].
Qed.

Lemma game_events fuel events g s running :
  (82 <= fuel)%nat -> playable g ->
  exists g' s' r, GameUI.process_events fuel events g s running = Ok (g', s', r) /\
                  event_step g g'.
Proof.
  intros Hfuel. revert g s running.
  induction events as [|[now ev] rest IH]; intros g s running Hp.
  - exists g, s, running. split; [done|]. split; [done|by left].
  - cbn [GameUI.process_events].
    destruct (game_event fuel now ev g s Hfuel Hp) as (g1 & s1 & r1 & Hrun & Hst).
    rewrite Hrun. cbn [bind].
    destruct (IH g1 s1 (running && r1) (proj1 Hst)) as (g2 & s2 & r2 & Hrun2 & Hst2).
    exists g2, s2, r2. split; [done|]. by eapply event_step_trans.
Qed.

Lemma for_each_ok {A : Type} (body : A -> result unit) (xs : list A) :
  (forall x, In x xs -> body x = Ok tt) -> for_each body xs = Ok tt.
Proof.
  induction xs as [|x xs IH]; intros Hall; [done|].
  cbn [for_each]. rewrite (Hall x) by (by left). cbn [bind].
  apply IH. intros y Hy. apply Hall. by right.
Qed.

Lemma notes_reads_ok g row col :
  playable g -> (row < 9)%nat -> (col < 9)%nat ->
  for_each (fun num =>
    let* r := list_get (g_notes g) row in
    let* c := list_get r col in
    let* n := list_get c num in Ok tt) (seq 0 9) = Ok tt.
Proof.
  intros Hp Hr Hc. destruct Hp as (_ & _ & _ & _ & _ & _ & Hn).
  destruct (notes_cell _ row col Hn Hr Hc) as (r & c & Hrow & Hcol & _ & Hlen & _).
  apply for_each_ok. intros num Hnum. apply in_seq in Hnum.
  unfold list_get. rewrite Hrow. cbn [bind]. rewrite Hcol. cbn [bind].
  destruct (lookup_lt_is_Some_2 c num) as [b Hb]; [lia|]. by rewrite Hb.
Qed.

Lemma game_draw_numbers_ok g : playable g -> GameUI.draw_numbers g = Ok tt.
Proof.
  intros Hp. pose proof Hp as (Hb & Hs & Hi & Ha & Hg & Hsel & Hn).
  unfold GameUI.draw_numbers. apply for_each_ok. intros row Hrow. apply in_seq in Hrow.
  apply for_each_ok. intros col Hcol. apply in_seq in Hcol.
  rewrite get_wf by (done || lia). cbn [bind].
  destruct (negb (cell (g_board g) row col =? 0)).
  - by rewrite get_wf by (done || lia).
  - destruct (notes_cell _ row col Hn) as (r & c & Hr & Hc & _); [lia..|].
    destruct (g_notes_mode g); cbn [bind].
    + apply notes_reads_ok; (done || lia).
    + unfold list_get at 1 2. rewrite Hr. cbn [bind]. rewrite Hc. cbn [bind].
      destruct (existsb id c); [|done]. apply notes_reads_ok; (done || lia).
Qed.

Lemma enhanced_draw_numbers_ok g : playable g -> EnhancedUI.draw_numbers g = Ok tt.
Proof.
  intros Hp. pose proof Hp as (Hb & Hs & Hi & Ha & Hg & Hsel & Hn).
  unfold EnhancedUI.draw_numbers. apply for_each_ok. intros row Hrow. apply in_seq in Hrow.
  apply for_each_ok. intros col Hcol. apply in_seq in Hcol.
  rewrite get_wf by (done || lia). cbn [bind].
  destruct (negb (cell (g_board g) row col =? 0)).
  - by rewrite get_wf by (done || lia).
  - destruct (notes_cell _ row col Hn) as (r & c & Hr & Hc & _); [lia..|].
    unfold list_get at 1 2. rewrite Hr. cbn [bind]. rewrite Hc. cbn [bind].
    destruct (existsb id c); [|done]. apply notes_reads_ok; (done || lia).
Qed.

Lemma enhanced_draw_selection_ok g : playable g -> EnhancedUI.draw_selection g = Ok tt.
Proof.
  intros Hp. pose proof Hp as (Hb & Hs & Hi & Ha & Hg & Hsel & Hn).
  unfold EnhancedUI.draw_selection.
  destruct (g_selected_cell g) as [[row col]|] eqn:Es; [|done].
  destruct (Hsel row col eq_refl) as (Hr & Hc & _).
  rewrite get_wf by done. cbn [bind].
  destruct (negb (cell (g_board g) row col =? 0)); [|done].
  apply for_each_ok. intros r Hrow. apply in_seq in Hrow.
  apply for_each_ok. intros c Hcol. apply in_seq in Hcol.
  by rewrite get_wf by (done || lia).
Qed.

Lemma playable_draw_ui now g : playable g -> playable (draw_ui now g).
Proof.
  intros Hp. unfold draw_ui. destruct (g_is_game_active g); [|done].
  destruct Hp as (Hb & Hs & Hi & Ha & Hg & Hsel & Hn). unfold playable. cbn. done.
Qed.

Lemma game_frame fuel events now g s :
  (82 <= fuel)%nat -> playable g ->
  exists g' s' r, GameUI.frame fuel events now g s = Ok (g', s', r) /\
    event_step g g' /\ (is_game_won g' = true -> g_is_game_active g' = false).
Proof.
  intros Hfuel Hp. unfold GameUI.frame.
  destruct (game_events fuel events g s true Hfuel Hp) as (g1 & s1 & r & Hrun & Hp1 & Hh).
  rewrite Hrun. cbn [bind]. rewrite (game_draw_numbers_ok g1 Hp1). cbn [bind]. cbv zeta.
  eexists _, _, _. split; [reflexivity|].
  pose proof (playable_draw_ui now g1 Hp1) as Hp2.
  assert (Hh2 : g_hints (draw_ui now g1) = g_hints g1).
  { unfold draw_ui. by destruct (g_is_game_active g1). }
  destruct (is_game_won (draw_ui now g1)) eqn:Ew, (g_is_game_active (draw_ui now g1)) eqn:Ea;
    cbn [andb].
  - split; [|done]. split; [|cbn; by rewrite Hh2].
    destruct Hp2 as (Hb & Hs & Hi & Ha & Hg & Hsel & Hn). unfold playable. cbn. done.
  - split; [|done]. split; [done|by rewrite Hh2].
  - split; [|by rewrite Ew]. split; [done|by rewrite Hh2].
  - split; [|by rewrite Ew]. split; [done|by rewrite Hh2].
Qed.

Lemma game_run fuel frames g s :
  (82 <= fuel)%nat -> playable g ->
  exists g' s' r, GameUI.run fuel frames g s = Ok (g', s', r) /\ event_step g g' /\
    (frames <> [] -> is_game_won g' = true -> g_is_game_active g' = false).
Proof.
  intros Hfuel. revert g s. induction frames as [|[events now] rest IH]; intros g s Hp.
  - exists g, s, true. split; [done|]. split; [|done]. split; [done|by left].
  - cbn [GameUI.run].
    destruct (game_frame fuel events now g s Hfuel Hp) as (g1 & s1 & r1 & Hrun & Hst & Hwon).
    rewrite Hrun. cbn [bind]. destruct r1.
    + destruct (IH g1 s1 (proj1 Hst)) as (g2 & s2 & r2 & Hrun2 & Hst2 & Hwon2).
      exists g2, s2, r2. split; [done|]. split; [by eapply event_step_trans|].
      intros _. destruct rest as [|f rest]; [|by apply Hwon2].
      cbn in Hrun2. by injection Hrun2 as <- _ _.
    + exists g1, s1, false. split; [done|]. split; [done|]. by intros _.
Qed.

Lemma enhanced_button_action fuel now a e s :
  (82 <= fuel)%nat -> playable (e_game e) ->
  exists e' s', EnhancedUI.button_action fuel now a e s = Ok (e', s') /\
    playable (e_game e').
Proof.
  intros Hfuel Hp. unfold EnhancedUI.button_action. cbv zeta.
  destruct (a =? "new_game")%string.
  { destruct (enhanced_new_puzzle fuel now e s Hfuel) as (e' & s' & Hrun & Hp' & _).
    by exists e', s'. }
  destruct (a =? "solve")%string.
  { eexists _, _. split; [reflexivity|]. cbn [e_game set_session set_game].
    by apply playable_solve. }
  destruct (a =? "reset")%string.
  { eexists _, _. split; [reflexivity|]. cbn [e_game set_game]. by apply playable_reset. }
  destruct (a =? "hint")%string.
  { destruct (enhanced_get_hint_step (e_game e) Hp) as (g' & r & Hrun & Hp' & _).
    rewrite Hrun. cbn [bind]. eexists _, _. split; [reflexivity|]. done. }
  by exists e, s.
Qed.

Lemma enhanced_buttons fuel now pos buttons e s :
  (82 <= fuel)%nat -> playable (e_game e) ->
  exists e' s', EnhancedUI.handle_button_click fuel now pos buttons e s = Ok (e', s') /\
    playable (e_game e').
Proof.
  intros Hfuel. revert e s. induction buttons as [|[a r] rest IH]; intros e s Hp.
  - by exists e, s.
  - cbn [EnhancedUI.handle_button_click]. destruct (collidepoint r pos); [|by apply IH].
    destruct (enhanced_button_action fuel now a e s Hfuel Hp) as (e1 & s1 & Hrun & Hp1).
    rewrite Hrun. cbn [bind]. by apply IH.
Qed.

Lemma enhanced_sidebar_loop fuel now pos y ds e s :
  (82 <= fuel)%nat -> playable (e_game e) ->
  exists e' s', EnhancedUI.sidebar_loop fuel now pos y ds e s = Ok (e', s') /\
    playable (e_game e').
Proof.
  intros Hfuel Hp. revert y. induction ds as [|d ds IH]; intros y.
  - by exists e, s.
  - cbn [EnhancedUI.sidebar_loop]. cbv zeta. destruct (collidepoint _ pos); [|apply IH].
    destruct (enhanced_new_puzzle fuel now (set_game e (set_difficulty (e_game e) d)) s Hfuel)
      as (e' & s' & Hrun & Hp' & _).
    by exists e', s'.
Qed.

Lemma enhanced_sidebar fuel now pos e s :
  (82 <= fuel)%nat -> playable (e_game e) ->
  exists e' s', EnhancedUI.handle_sidebar_click fuel now pos e s = Ok (e', s') /\
    playable (e_game e').
Proof.
  intros Hfuel Hp. unfold EnhancedUI.handle_sidebar_click. cbv zeta.
  destruct (pos.1 >=? 600); [by apply enhanced_sidebar_loop|].
  by exists e, s.
Qed.

(** X10.  The loop of [run] of [sudoku_game.py], started in a playable
    state with fuel for the searches and fed any frames of any events
    at any clock readings: no handler and no list access of the drawing
    raises, and the state it reaches is playable again - three 9x9
    grids, every given still in place, no digit on the board that
    differs from the solution.  The hint counter ends at its old value
    or at 3: no event spends a hint.  After at least one frame a board
    without blanks is never left active, and it is the solution.  The
    two click handlers of [sudoku_enhanced.py], called with any
    dictionary of buttons at any position, return a playable state as
    well. *)
Theorem run_keeps_playable (fuel : nat) (frames : list (list (float * event) * float))
    (g : game) (s : rng) :
  (82 <= fuel)%nat -> playable g ->
  (exists g' s' r, GameUI.run fuel frames g s = Ok (g', s', r) /\
     playable g' /\ (g_hints g' = g_hints g \/ g_hints g' = 3) /\
     (frames <> [] -> is_game_won g' = true ->
      g_is_game_active g' = false /\ g_board g' = g_solution g')) /\
  (forall now pos buttons e, e_game e = g ->
     (exists e' s', EnhancedUI.handle_button_click fuel now pos buttons e s = Ok (e', s') /\
                    playable (e_game e')) /\
     (exists e' s', EnhancedUI.handle_sidebar_click fuel now pos e s = Ok (e', s') /\
                    playable (e_game e'))).
Proof.
  intros Hfuel Hg. split.
  - destruct (game_run fuel frames g s Hfuel Hg) as (g' & s' & r & Hrun & [Hp Hh] & Hwon).
    exists g', s', r. split_and!; try done. intros Hne Hw. split; [by apply Hwon|].
    by apply won_board_solution.
  - intros now pos buttons e <-. split.
    + by apply enhanced_buttons.
    + by apply enhanced_sidebar.
Qed.

End Events.


(** Two frames: a click on the cell in row 1, column 1 and the key 5,
    then the window is closed. *)
Definition sample_frames : list (list (float * event) * float) :=
  [([(1%float, MOUSEBUTTONDOWN 1 (100, 100)); (2%float, KEYDOWN 53)], 3%float);
   ([(4%float, QUIT)], 5%float)].

Lemma run_keeps_playable_witness :
  (exists g' s' r, GameUI.run 82 sample_frames typing_game 5%nat = Ok (g', s', r) /\
     playable g' /\ (g_hints g' = g_hints typing_game \/ g_hints g' = 3) /\
     (sample_frames <> [] -> is_game_won g' = true ->
      g_is_game_active g' = false /\ g_board g' = g_solution g')) /\
  (forall now pos buttons e, e_game e = typing_game ->
     (exists e' s', EnhancedUI.handle_button_click 82 now pos buttons e 5%nat = Ok (e', s') /\
                    playable (e_game e')) /\
     (exists e' s', EnhancedUI.handle_sidebar_click 82 now pos e 5%nat = Ok (e', s') /\
                    playable (e_game e'))).
Proof.
  apply (run_keeps_playable 82 sample_frames typing_game 5%nat).
  - lia.
  - apply playable_typing_game.
Defined.
(** ** X11: one button per click *)

Lemma bind_pair_ok {A B : Type} (m : result (A * B)) :
  bind m (fun '(a, b) => Ok (a, b)) = m.
Proof. by destruct m as [[a b]| |]. Qed.

Section Buttons.
Context {rng : Type} `{Shuffler rng}.

Lemma game_no_hit fuel now pos buttons (g : game) (s : rng) :
  (forall a r, In (a, r) buttons -> collidepoint r pos = false) ->
  GameUI.handle_button_click fuel now pos buttons g s = Ok (g, s).
Proof.
  induction buttons as [|[a r] rest IH]; intros Hall; [done|].
  cbn [GameUI.handle_button_click]. rewrite (Hall a r) by (by left).
  apply IH. intros a' r' Hin. apply (Hall a' r'). by right.
Qed.

Lemma enhanced_no_hit fuel now pos buttons (e : egame) (s : rng) :
  (forall a r, In (a, r) buttons -> collidepoint r pos = false) ->
  EnhancedUI.handle_button_click fuel now pos buttons e s = Ok (e, s).
Proof.
  induction buttons as [|[a r] rest IH]; intros Hall; [done|].
  cbn [EnhancedUI.handle_button_click]. rewrite (Hall a r) by (by left).
  apply IH. intros a' r' Hin. apply (Hall a' r'). by right.
Qed.

(** In a dictionary every key occurs once: when all rectangles under
    the click belong to one key, the entries behind it are not hit. *)
Lemma single_hit_rest pos (buttons : list (string * rect)) a0 r0 a :
  NoDup (map fst ((a0, r0) :: buttons)) ->
  (forall a' r', In (a', r') ((a0, r0) :: buttons) -> collidepoint r' pos = true -> a' = a) ->
  a0 = a ->
  forall a' r', In (a', r') buttons -> collidepoint r' pos = false.
Proof.
  intros Hnd Hone -> a' r' Hin. destruct (collidepoint r' pos) eqn:Ehit; [|done].
  exfalso. cbn [map fst] in Hnd. apply NoDup_cons in Hnd as [Hnot _]. apply Hnot.
  assert (Ha : a' = a) by (apply (Hone a' r'); [by right|done]).
  rewrite <- Ha. apply list_elem_of_In. by apply (in_map fst buttons (a', r')).
Qed.

Lemma game_single_hit fuel now pos buttons a r (g : game) (s : rng) :
  NoDup (map fst buttons) -> In (a, r) buttons -> collidepoint r pos = true ->
  (forall a' r', In (a', r') buttons -> collidepoint r' pos = true -> a' = a) ->
  GameUI.handle_button_click fuel now pos buttons g s = GameUI.button_action fuel now a g s.
Proof.
  induction buttons as [|[a0 r0] rest IH]; intros Hnd Hin Hhit Hone; [done|].
  cbn [GameUI.handle_button_click]. destruct (collidepoint r0 pos) eqn:E0.
  - assert (Ha : a0 = a) by (apply (Hone a0 r0); [by left|done]).
    pose proof (single_hit_rest pos rest a0 r0 a Hnd Hone Ha) as Hrest. subst a0.
    destruct (GameUI.button_action fuel now a g s) as [[g' s']| |]; [|done..].
    cbn [bind]. by apply game_no_hit.
  - destruct Hin as [E|Hin]; [injection E as -> ->; congruence|].
    cbn [map fst] in Hnd. apply NoDup_cons in Hnd as [_ Hnd].
    apply IH; [done..|]. intros a' r' Hin'. apply Hone. by right.
Qed.

Lemma enhanced_single_hit fuel now pos buttons a r (e : egame) (s : rng) :
  NoDup (map fst buttons) -> In (a, r) buttons -> collidepoint r pos = true ->
  (forall a' r', In (a', r') buttons -> collidepoint r' pos = true -> a' = a) ->
  EnhancedUI.handle_button_click fuel now pos buttons e s
  = EnhancedUI.button_action fuel now a e s.
Proof.
  induction buttons as [|[a0 r0] rest IH]; intros Hnd Hin Hhit Hone; [done|].
  cbn [EnhancedUI.handle_button_click]. destruct (collidepoint r0 pos) eqn:E0.
  - assert (Ha : a0 = a) by (apply (Hone a0 r0); [by left|done]).
    pose proof (single_hit_rest pos rest a0 r0 a Hnd Hone Ha) as Hrest. subst a0.
    destruct (EnhancedUI.button_action fuel now a e s) as [[e' s']| |]; [|done..].
    cbn [bind]. by apply enhanced_no_hit.
  - destruct Hin as [E|Hin]; [injection E as -> ->; congruence|].
    cbn [map fst] in Hnd. apply NoDup_cons in Hnd as [_ Hnd].
    apply IH; [done..|]. intros a' r' Hin'. apply Hone. by right.
Qed.

(** The rectangles of the four buttons share no pixel. *)
Lemma buttons_disjoint pos a1 r1 a2 r2 :
  In (a1, r1) draw_buttons -> In (a2, r2) draw_buttons ->
  collidepoint r1 pos = true -> collidepoint r2 pos = true -> a1 = a2.
Proof.
  intros H1 H2 C1 C2. destruct pos as [x y]. unfold draw_buttons in H1, H2.
  cbn in H1, H2.
  destruct H1 as [E1|[E1|[E1|[E1|[]]]]]; injection E1 as <- <-;
    destruct H2 as [E2|[E2|[E2|[E2|[]]]]]; injection E2 as <- <-; try reflexivity;
    unfold collidepoint in C1, C2; cbn in C1, C2;
    rewrite !andb_true_iff, !Z.leb_le, !Z.ltb_lt in C1, C2; lia.
Qed.

Lemma NoDup_button_names : NoDup (map fst draw_buttons).
Proof.
  apply NoDup_ListNoDup. unfold draw_buttons. cbn [map fst].
  repeat (apply List.NoDup_cons; [cbn [In]; intuition discriminate|]).
  apply List.NoDup_nil.
Qed.

(** X11.  The loop of [handle_button_click] (both files) goes on after
    a hit, but a dictionary has every key once: whenever all
    rectangles under the click belong to one key, the call is the
    action of that key and nothing more, with its result or its
    failure.  The four rectangles [draw_buttons] of [sudoku_game.py]
    returns share no pixel, so there every click sets off the action
    of at most one button. *)
Theorem one_button_per_click (fuel : nat) (now : float) (pos : Z * Z)
    (buttons : list (string * rect)) (a : string) (r : rect)
    (g : game) (e : egame) (s : rng) :
  NoDup (map fst buttons) -> In (a, r) buttons -> collidepoint r pos = true ->
  (forall a' r', In (a', r') buttons -> collidepoint r' pos = true -> a' = a) ->
  GameUI.handle_button_click fuel now pos buttons g s
  = GameUI.button_action fuel now a g s /\
  EnhancedUI.handle_button_click fuel now pos buttons e s
  = EnhancedUI.button_action fuel now a e s /\
  NoDup (map fst draw_buttons) /\
  (forall a1 r1 a2 r2, In (a1, r1) draw_buttons -> In (a2, r2) draw_buttons ->
     collidepoint r1 pos = true -> collidepoint r2 pos = true -> a1 = a2).
Proof.
  intros Hnd Hin Hhit Hone. split_and!.
  - by eapply game_single_hit.
  - by eapply enhanced_single_hit.
  - apply NoDup_button_names.
  - intros a1 r1 a2 r2. apply buttons_disjoint.
Qed.

End Buttons.

Lemma one_button_per_click_witness :
  GameUI.handle_button_click 82 0%float (300, 630) draw_buttons init_game 0%nat
  = GameUI.button_action 82 0%float "reset" init_game 0%nat /\
  EnhancedUI.handle_button_click 82 0%float (300, 630) draw_buttons (init_egame init_game) 0%nat
  = EnhancedUI.button_action 82 0%float "reset" (init_egame init_game) 0%nat /\
  NoDup (map fst draw_buttons) /\
  (forall a1 r1 a2 r2, In (a1, r1) draw_buttons -> In (a2, r2) draw_buttons ->
     collidepoint r1 (300, 630) = true -> collidepoint r2 (300, 630) = true -> a1 = a2).
Proof.
  apply (one_button_per_click 82 0%float (300, 630) draw_buttons "reset"
           {| r_left := 290; r_top := 620; r_width := 100; r_height := 40 |}
           init_game (init_egame init_game) 0%nat).
  - apply NoDup_button_names.
  - right. right. left. reflexivity.
  - reflexivity.
  - intros a' r' Hin Hhit.
    apply (buttons_disjoint (300, 630) a' r' "reset"
             {| r_left := 290; r_top := 620; r_width := 100; r_height := 40 |});
      [done|right; right; by left|done|reflexivity].
Defined.

(** ** X12: what counts as a win in the enhanced file *)

(** A valid complete grid, and the same grid with a blank corner. *)
Definition sample_solution : board :=
  [[1; 2; 3; 4; 5; 6; 7; 8; 9]; [4; 5; 6; 7; 8; 9; 1; 2; 3]; [7; 8; 9; 1; 2; 3; 4; 5; 6];
   [2; 3; 4; 5; 6; 7; 8; 9; 1]; [5; 6; 7; 8; 9; 1; 2; 3; 4]; [8; 9; 1; 2; 3; 4; 5; 6; 7];
   [3; 4; 5; 6; 7; 8; 9; 1; 2]; [6; 7; 8; 9; 1; 2; 3; 4; 5]; [9; 1; 2; 3; 4; 5; 6; 7; 8]].

Definition sample_puzzle : board := upd sample_solution 0 0 0.

(** A game one digit away from its end: the corner is selected. *)
Definition last_move_game : game :=
  {| g_board := sample_puzzle; g_solution := sample_solution;
     g_initial_board := sample_puzzle;
     g_selected_cell := Some (0, 0)%nat; g_error_count := 0;
     g_start_time := 0%float; g_game_time := 75%float;
     g_is_game_active := true; g_difficulty := MEDIUM;
     g_hints := 3; g_notes_mode := false; g_notes := fresh_notes |}.

Lemma wf_sample_solution : wf sample_solution.
Proof. by apply wfb_wf. Qed.

Lemma playable_last_move_game : playable last_move_game.
Proof.
  unfold playable, last_move_game.
  cbn [g_board g_solution g_initial_board g_selected_cell g_notes]. unfold sample_puzzle.
  split_and!.
  - apply upd_wf, wf_sample_solution.
  - apply wf_sample_solution.
  - apply upd_wf, wf_sample_solution.
  - apply agrees_blank; [apply wf_sample_solution|lia|lia|apply agrees_refl].
  - done.
  - intros r c [= <- <-]. split_and!; (lia || reflexivity).
  - apply notes_wf_fresh.
Qed.

(** X12.  In the enhanced file the win is noticed inside [handle_key],
    and without a look at [is_game_active]: whenever the right digit is
    entered into the selected cell and no other cell is blank, the call
    sets [win_animation], ends the game, adds one to the session's
    [games_won] and offers [game_time] as best time - also on a board
    that was complete and counted before, so that pressing the digit
    again counts one more win. *)
Theorem enhanced_win_counts (e : egame) (row col : nat) (num : Z) :
  playable (e_game e) ->
  g_selected_cell (e_game e) = Some (row, col) -> g_notes_mode (e_game e) = false ->
  1 <= num <= 9 -> cell (g_solution (e_game e)) row col = num ->
  (forall i j, (i < 9)%nat -> (j < 9)%nat -> (i, j) <> (row, col) ->
     cell (g_board (e_game e)) i j <> 0) ->
  exists e', EnhancedUI.handle_key e (K_1 + num - 1) = Ok e' /\
    e_win_animation e' = true /\ g_is_game_active (e_game e') = false /\
    games_won (e_session e') = games_won (e_session e) + 1 /\
    g_board (e_game e') = g_solution (e_game e) /\
    best_time (e_stats e') (g_difficulty (e_game e))
    = (if PrimFloat.ltb (g_game_time (e_game e))
                        (best_time (e_stats e) (g_difficulty (e_game e)))
       then g_game_time (e_game e)
       else best_time (e_stats e) (g_difficulty (e_game e))).
Proof.
  intros Hp Hsel Hnm Hnum Hv Hfull. pose proof Hp as (Hb & Hs & Hi & Ha & Hg & Hs' & Hn).
  destruct (Hs' row col Hsel) as (Hr & Hc & H0).
  assert (Hk : (K_1 <=? K_1 + num - 1) && (K_1 + num - 1 <=? K_9) = true).
  { rewrite andb_true_iff, !Z.leb_le. unfold K_1, K_9. lia. }
  assert (Hn1 : K_1 + num - 1 - K_1 + 1 = num) by lia.
  unfold EnhancedUI.handle_key. cbv zeta. rewrite Hsel, Hk, Hn1, Hnm.
  rewrite !get_wf by done. cbn [bind]. rewrite H0. cbn [Z.eqb].
  rewrite Hv, Z.eqb_refl, set_wf by done. cbn [bind].
  destruct (clear_notes_wf _ row col Hn Hr Hc) as (n & Hrun & Hn').
  rewrite Hrun. cbn [bind].
  set (g1 := set_notes (set_board (e_game e) (upd (g_board (e_game e)) row col num)) n).
  assert (Hp1 : playable g1).
  { apply playable_place; auto. }
  assert (Hwon : is_game_won g1 = true).
  { apply is_game_won_full; [apply Hp1|]. intros i j Hi' Hj'. subst g1. cbn.
    rewrite cell_upd by done.
    destruct (decide (i = row /\ j = col)) as [[-> ->]|Hne]; [lia|].
    apply Hfull; [done|done|]. intros [= -> ->]. tauto. }
  rewrite Hwon. eexists. split; [reflexivity|].
  assert (Hboard : g_board g1 = g_solution (e_game e)).
  { apply (won_board_solution g1 Hp1 Hwon). }
  unfold EnhancedUI.update_best_time. cbn [e_game set_session set_game].
  assert (Hwon' : is_game_won (set_is_game_active g1 false) = true) by exact Hwon.
  rewrite Hwon'. cbv zeta. cbn [g_difficulty set_is_game_active g_game_time e_stats set_session
                                 set_game set_win_animation].
  replace (g_difficulty g1) with (g_difficulty (e_game e)) by reflexivity.
  replace (g_game_time g1) with (g_game_time (e_game e)) by reflexivity.
  destruct (PrimFloat.ltb _ _).
  - cbn. split_and!; try done. by destruct (g_difficulty (e_game e)).
  - cbn. split_and!; done.
Qed.

Lemma enhanced_win_counts_witness :
  exists e', EnhancedUI.handle_key (init_egame last_move_game) (K_1 + 1 - 1) = Ok e' /\
    e_win_animation e' = true /\ g_is_game_active (e_game e') = false /\
    games_won (e_session e') = games_won (e_session (init_egame last_move_game)) + 1 /\
    g_board (e_game e') = g_solution (e_game (init_egame last_move_game)) /\
    best_time (e_stats e') (g_difficulty (e_game (init_egame last_move_game)))
    = (if PrimFloat.ltb (g_game_time (e_game (init_egame last_move_game)))
                        (best_time (e_stats (init_egame last_move_game))
                           (g_difficulty (e_game (init_egame last_move_game))))
       then g_game_time (e_game (init_egame last_move_game))
       else best_time (e_stats (init_egame last_move_game))
              (g_difficulty (e_game (init_egame last_move_game)))).
Proof.
  apply (enhanced_win_counts (init_egame last_move_game) 0 0 1).
  - apply playable_last_move_game.
  - reflexivity.
  - reflexivity.
  - lia.
  - reflexivity.
  - intros i j Hi Hj Hne. cbn [e_game init_egame g_board last_move_game].
    unfold sample_puzzle. rewrite cell_upd by (apply wf_sample_solution || lia).
    destruct (decide (i = 0%nat /\ j = 0%nat)) as [[-> ->]|_]; [done|].
    assert (Hall : forallb (fun p => negb (cellp sample_solution p =? 0)) all_cells = true)
      by reflexivity.
    rewrite forallb_forall in Hall. specialize (Hall (i, j)).
    rewrite negb_true_iff, Z.eqb_neq in Hall. apply Hall. by apply in_all_cells.
Defined.
(** ** X13: the solve button *)

(** X13.  A left click on the solve button of [sudoku_game.py]
    (170 <= x < 270, 620 <= y < 660) in the loop of [run]: the
    selection is cleared, the board becomes a copy of the solution and
    the game stops being active, whatever the state was.  In
    [sudoku_enhanced.py] the same action of [handle_button_click],
    reached with any dictionary in which the click lies on the rectangle
    of ['solve'] only, adds one to the session's [games_won] on every
    call, without touching [games_played], the win animation or the
    best times. *)
Theorem solve_button_shows_solution {rng : Type} `{Shuffler rng}
    (fuel : nat) (now : float) (g : game) (e : egame) (s : rng) (x y : Z)
    (buttons : list (string * rect)) (r : rect) :
  170 <= x < 270 -> 620 <= y < 660 ->
  NoDup (map fst buttons) -> In ("solve"%string, r) buttons -> collidepoint r (x, y) = true ->
  (forall a' r', In (a', r') buttons -> collidepoint r' (x, y) = true -> a' = "solve"%string) ->
  GameUI.handle_event fuel now (MOUSEBUTTONDOWN 1 (x, y)) g s
  = Ok (set_is_game_active (set_board (set_selected_cell g None) (g_solution g)) false,
        s, true) /\
  exists e', EnhancedUI.handle_button_click fuel now (x, y) buttons e s = Ok (e', s) /\
    e_game e' = set_is_game_active (set_board (e_game e) (g_solution (e_game e))) false /\
    games_won (e_session e') = games_won (e_session e) + 1 /\
    games_played (e_session e') = games_played (e_session e) /\
    e_win_animation e' = e_win_animation e /\ e_stats e' = e_stats e.
Proof.
  intros Hx Hy Hnd Hin Hhit Hone.
  assert (Hclick : handle_click g (x, y) = Ok (set_selected_cell g None)).
  { unfold handle_click, MARGIN, CELL_SIZE.
    destruct ((30 <=? x) && (x <? 30 + 9 * 60) && (30 <=? y) && (y <? 30 + 9 * 60)) eqn:E;
      [|done].
    rewrite !andb_true_iff, !Z.leb_le, !Z.ltb_lt in E. lia. }
  assert (H1 : collidepoint {| r_left := 50; r_top := 620; r_width := 100; r_height := 40 |}
                 (x, y) = false).
  { unfold collidepoint. cbn. rewrite !andb_false_iff, !Z.leb_gt, !Z.ltb_ge. lia. }
  assert (H2 : collidepoint {| r_left := 170; r_top := 620; r_width := 100; r_height := 40 |}
                 (x, y) = true).
  { unfold collidepoint. cbn. rewrite !andb_true_iff, !Z.leb_le, !Z.ltb_lt. lia. }
  assert (H3 : collidepoint {| r_left := 290; r_top := 620; r_width := 100; r_height := 40 |}
                 (x, y) = false).
  { unfold collidepoint. cbn. rewrite !andb_false_iff, !Z.leb_gt, !Z.ltb_ge. lia. }
  assert (H4 : collidepoint {| r_left := 410; r_top := 620; r_width := 100; r_height := 40 |}
                 (x, y) = false).
  { unfold collidepoint. cbn. rewrite !andb_false_iff, !Z.leb_gt, !Z.ltb_ge. lia. }
  split.
  - unfold GameUI.handle_event. cbn [Z.eqb Pos.eqb]. rewrite Hclick. cbn [bind].
    unfold draw_buttons. cbn [GameUI.handle_button_click]. rewrite H1, H2, H3, H4.
    unfold GameUI.button_action. cbn [String.eqb Ascii.eqb Bool.eqb]. reflexivity.
  - rewrite (enhanced_single_hit fuel now (x, y) buttons "solve" r e s Hnd Hin Hhit Hone).
    unfold EnhancedUI.button_action. cbv zeta. cbn [String.eqb Ascii.eqb Bool.eqb].
    eexists. split; [reflexivity|]. cbn. split_and!; reflexivity.
Qed.

Lemma solve_button_shows_solution_witness :
  GameUI.handle_event 82 0%float (MOUSEBUTTONDOWN 1 (200, 640)) last_move_game tt
  = Ok (set_is_game_active
          (set_board (set_selected_cell last_move_game None) (g_solution last_move_game))
          false, tt, true) /\
  exists e', EnhancedUI.handle_button_click 82 0%float (200, 640) draw_buttons
               (init_egame last_move_game) tt = Ok (e', tt) /\
    e_game e' = set_is_game_active
                  (set_board (e_game (init_egame last_move_game))
                     (g_solution (e_game (init_egame last_move_game)))) false /\
    games_won (e_session e') = games_won (e_session (init_egame last_move_game)) + 1 /\
    games_played (e_session e') = games_played (e_session (init_egame last_move_game)) /\
    e_win_animation e' = e_win_animation (init_egame last_move_game) /\
    e_stats e' = e_stats (init_egame last_move_game).
Proof.
  apply (solve_button_shows_solution 82 0%float last_move_game (init_egame last_move_game)
           tt 200 640 draw_buttons
           {| r_left := 170; r_top := 620; r_width := 100; r_height := 40 |}).
  - lia.
  - lia.
  - apply NoDup_button_names.
  - right. left. reflexivity.
  - reflexivity.
  - intros a' r' Hin Hhit.
    apply (buttons_disjoint (200, 640) a' r' "solve"
             {| r_left := 170; r_top := 620; r_width := 100; r_height := 40 |});
      [done|right; by left|done|reflexivity].
Defined.

(** ** X14: choosing a difficulty *)

(** X14.  [handle_sidebar_click] of the enhanced file: a position on
    the [k]-th difficulty rectangle of the sidebar (620 <= x < 740,
    450 + 45 k <= y < 485 + 45 k, for k = 0..3: EASY, MEDIUM, HARD,
    EXPERT) sets [difficulty] to that level and calls
    [generate_new_puzzle]; a position beside or above the column of
    rectangles, or below it, changes nothing. *)
Theorem sidebar_click_sets_difficulty {rng : Type} `{Shuffler rng}
    (fuel : nat) (now : float) (e : egame) (s : rng) (x y : Z) (k : nat) (d : Difficulty) :
  [EASY; MEDIUM; HARD; EXPERT] !! k = Some d ->
  620 <= x < 740 -> 450 + 45 * Z.of_nat k <= y < 485 + 45 * Z.of_nat k ->
  EnhancedUI.handle_sidebar_click fuel now (x, y) e s
  = EnhancedUI.generate_new_puzzle fuel now (set_game e (set_difficulty (e_game e) d)) s /\
  (forall x' y', x' < 620 \/ 740 <= x' \/ y' < 450 \/ 620 <= y' ->
     EnhancedUI.handle_sidebar_click fuel now (x', y') e s = Ok (e, s)).
Proof.
  intros Hk Hx Hy.
  assert (Hk4 : (k < 4)%nat) by (apply lookup_lt_Some in Hk; simpl in Hk; lia).
  split.
  - assert (Hside : (x >=? 600) = true).
    { rewrite Z.geb_leb. apply Z.leb_le. lia. }
    assert (Hrow : forall t, collidepoint {| r_left := 600 + 20; r_top := t; r_width := 120;
                                             r_height := 35 |} (x, y)
                             = (t <=? y) && (y <? t + 35)).
    { intros t. unfold collidepoint. cbn [r_left r_top r_width r_height fst snd].
      replace (600 + 20 <=? x) with true by (symmetry; apply Z.leb_le; lia).
      replace (x <? 600 + 20 + 120) with true by (symmetry; apply Z.ltb_lt; lia).
      reflexivity. }
    unfold EnhancedUI.handle_sidebar_click. cbv zeta. cbn [fst]. rewrite Hside.
    cbn [EnhancedUI.sidebar_loop]. rewrite !Hrow.
    destruct k as [|[|[|[|k]]]]; [| | |  |simpl in Hk4; lia]; injection Hk as <-.
    + replace ((450 <=? y) && (y <? 450 + 35)) with true
        by (symmetry; rewrite andb_true_iff, Z.leb_le, Z.ltb_lt; lia).
      reflexivity.
    + replace ((450 <=? y) && (y <? 450 + 35)) with false
        by (symmetry; rewrite andb_false_iff, Z.leb_gt, Z.ltb_ge; lia).
      replace ((450 + 45 <=? y) && (y <? 450 + 45 + 35)) with true
        by (symmetry; rewrite andb_true_iff, Z.leb_le, Z.ltb_lt; lia).
      reflexivity.
    + replace ((450 <=? y) && (y <? 450 + 35)) with false
        by (symmetry; rewrite andb_false_iff, Z.leb_gt, Z.ltb_ge; lia).
      replace ((450 + 45 <=? y) && (y <? 450 + 45 + 35)) with false
        by (symmetry; rewrite andb_false_iff, Z.leb_gt, Z.ltb_ge; lia).
      replace ((450 + 45 + 45 <=? y) && (y <? 450 + 45 + 45 + 35)) with true
        by (symmetry; rewrite andb_true_iff, Z.leb_le, Z.ltb_lt; lia).
      reflexivity.
    + replace ((450 <=? y) && (y <? 450 + 35)) with false
        by (symmetry; rewrite andb_false_iff, Z.leb_gt, Z.ltb_ge; lia).
      replace ((450 + 45 <=? y) && (y <? 450 + 45 + 35)) with false
        by (symmetry; rewrite andb_false_iff, Z.leb_gt, Z.ltb_ge; lia).
      replace ((450 + 45 + 45 <=? y) && (y <? 450 + 45 + 45 + 35)) with false
        by (symmetry; rewrite andb_false_iff, Z.leb_gt, Z.ltb_ge; lia).
      replace ((450 + 45 + 45 + 45 <=? y) && (y <? 450 + 45 + 45 + 45 + 35)) with true
        by (symmetry; rewrite andb_true_iff, Z.leb_le, Z.ltb_lt; lia).
      reflexivity.
  - intros x' y' Hout. unfold EnhancedUI.handle_sidebar_click. cbv zeta. cbn [fst].
    destruct (x' >=? 600); [|done].
    assert (Hmiss : forall t, 450 <= t <= 585 ->
              collidepoint {| r_left := 600 + 20; r_top := t; r_width := 120;
                              r_height := 35 |} (x', y') = false).
    { intros t Ht. unfold collidepoint. cbn [r_left r_top r_width r_height fst snd].
      rewrite !andb_false_iff, !Z.leb_gt, !Z.ltb_ge. lia. }
    cbn [EnhancedUI.sidebar_loop]. rewrite !Hmiss by lia. reflexivity.
Qed.

Lemma sidebar_click_sets_difficulty_witness :
  EnhancedUI.handle_sidebar_click 82 0%float (650, 550) (init_egame init_game) 3%nat
  = EnhancedUI.generate_new_puzzle 82 0%float
      (set_game (init_egame init_game) (set_difficulty (e_game (init_egame init_game)) HARD))
      3%nat /\
  (forall x' y', x' < 620 \/ 740 <= x' \/ y' < 450 \/ 620 <= y' ->
     EnhancedUI.handle_sidebar_click 82 0%float (x', y') (init_egame init_game) 3%nat
     = Ok (init_egame init_game, 3%nat)).
Proof.
  apply (sidebar_click_sets_difficulty 82 0%float (init_egame init_game) 3%nat 650 550 2 HARD).
  - reflexivity.
  - lia.
  - lia.
Defined.

(** ** X15: themes *)


(** ** X16: best times *)


(** * More on the puzzle makers *)

(** ** X17: which cells the basic file blanks *)

Lemma omap_lookup_seq {A : Type} (l : list A) (k : nat) :
  (k <= length l)%nat -> omap (fun i => l !! i) (seq 0 k) = take k l.
Proof.
  induction k as [|k IH]; intros Hk; [done|].
  rewrite seq_S, omap_app, IH by lia. cbn [omap list_omap Nat.add].
  destruct (lookup_lt_is_Some_2 l k) as [x Hx]; [lia|]. rewrite Hx.
  by rewrite (take_S_r l k x).
Qed.

Lemma blank_cells_cells cells idx p :
  wf p -> (forall c, In c cells -> in_grid c) ->
  (forall k, In k idx -> (k < length cells)%nat) ->
  exists p', Game.blank_cells cells idx p = Ok p' /\ wf p' /\
    forall i j, (i < 9)%nat -> (j < 9)%nat ->
      cell p' i j = if decide ((i, j) ∈ omap (fun k => cells !! k) idx) then 0 else cell p i j.
Proof.
  intros Hw Hc. revert p Hw. induction idx as [|k idx IH]; intros p Hw Hk.
  - exists p. split; [done|]. split; [done|]. intros i j _ _.
    cbn [omap list_omap]. destruct (decide ((i, j) ∈ [])) as [Hin|]; [|done].
    by apply elem_of_nil in Hin.
  - destruct (lookup_lt_is_Some_2 cells k) as [[row col] Hl]; [apply Hk; by left|].
    destruct (Hc (row, col)) as [Hi Hj].
    { apply list_elem_of_In. eapply list_elem_of_lookup_2; eauto. }
    cbn [fst snd] in Hi, Hj.
    cbn [Game.blank_cells]. rewrite Hl, set_wf by done. cbn [bind].
    destruct (IH (upd p row col 0)) as (p' & Hrun & Hw' & Hcell).
    { by apply upd_wf. }
    { intros x Hx. apply Hk. by right. }
    exists p'. split; [done|]. split; [done|]. intros i j Hi' Hj'.
    rewrite Hcell by done. cbn [omap list_omap]. rewrite Hl.
    rewrite cell_upd by done.
    destruct (decide ((i, j) ∈ omap (fun k0 => cells !! k0) idx)) as [Hin|Hnin].
    + rewrite decide_True; [done|]. by apply list_elem_of_further.
    + destruct (decide (i = row /\ j = col)) as [[-> ->]|Hne].
      * rewrite decide_True; [done|]. apply list_elem_of_here.
      * rewrite decide_False; [done|]. intros Hin. apply elem_of_cons in Hin as [[= -> ->]|Hin];
          tauto.
Qed.

(** X17.  [create_puzzle] of [sudoku_game.py] blanks exactly the first
    [int(81 * difficulty.value)] cells of its shuffled cell list and
    touches no other cell.  These cells are distinct, so the puzzle has
    at least that many blanks, and exactly that many whenever the
    complete board has none. *)
Theorem basic_puzzle_blanks {rng : Type} `{Shuffler rng}
    (fuel : nat) (d : Difficulty) (s : rng) :
  (82 <= fuel)%nat ->
  exists puzzle solution s1 cells s2,
    Game.generate_complete_board fuel s = Ok (solution, s1) /\
    shuffle all_cells s1 = (cells, s2) /\
    Game.create_puzzle fuel d s = Ok (puzzle, solution, s2) /\
    (forall i j, (i < 9)%nat -> (j < 9)%nat ->
       cell puzzle i j
       = if decide ((i, j) ∈ take (Z.to_nat (cells_to_remove d)) cells)
         then 0 else cell solution i j) /\
    cells_to_remove d <= Z.of_nat (zeros puzzle)
                      <= Z.of_nat (zeros solution) + cells_to_remove d /\
    (zeros solution = 0%nat -> Z.of_nat (zeros puzzle) = cells_to_remove d).
Proof.
  intros Hfuel.
  destruct (game_generate_spec fuel s Hfuel) as (r & sol & _ & Hgen & Hw & _).
  pose proof (shuffled_cells (seeded_state s)) as Hin.
  pose proof (shuffled_cells_length (seeded_state s)) as Hlen.
  pose proof (shuffle_perm _ all_cells (seeded_state s)) as Hperm.
  destruct (shuffle all_cells (seeded_state s)) as [cells s2] eqn:Hsh.
  cbn [fst] in Hin, Hlen, Hperm.
  pose proof (cells_to_remove_bound d) as Hb.
  set (k := Z.to_nat (cells_to_remove d)).
  assert (Hk : (k <= length cells)%nat) by lia.
  destruct (blank_cells_cells cells (seq 0 k) sol Hw Hin) as (p' & Hrun & Hw' & Hcell).
  { intros x Hx. apply in_seq in Hx. lia. }
  destruct (blank_cells_spec cells (seq 0 k) sol sol Hw (agrees_refl sol) Hin)
    as (p'' & Hrun' & _ & _ & Hz).
  { intros x Hx. apply in_seq in Hx. lia. }
  rewrite Hrun in Hrun'. injection Hrun' as <-. rewrite length_seq in Hz.
  rewrite omap_lookup_seq in Hcell by done.
  assert (Hlow : (k <= zeros p')%nat).
  { unfold zeros. rewrite <- (length_take_le cells k) by done.
    apply NoDup_incl_length.
    - apply NoDup_ListNoDup. eapply sublist_NoDup; [|apply sublist_take].
      rewrite <- Hperm. apply NoDup_all_cells.
    - intros [i j] Hc. apply filter_In.
      assert (Hg : in_grid (i, j)).
      { apply Hin. apply list_elem_of_In in Hc. apply elem_of_take in Hc as (x & Hx & _).
        apply list_elem_of_In. eapply list_elem_of_lookup_2; eauto. }
      split; [by apply in_all_cells|]. destruct Hg as [Hi Hj]. cbn [fst snd] in Hi, Hj.
      unfold cellp. cbn [fst snd]. rewrite Hcell by done.
      rewrite decide_True; [done|]. by apply list_elem_of_In. }
  exists p', sol, (seeded_state s), cells, s2. split; [done|]. split; [done|]. split.
  { unfold Game.create_puzzle. rewrite Hgen. cbn [bind]. rewrite Hsh. fold k.
    by rewrite Hrun. }
  split; [done|]. split; lia.
Qed.

Lemma basic_puzzle_blanks_witness :
  exists puzzle solution s1 cells s2,
    Game.generate_complete_board 82 0%nat = Ok (solution, s1) /\
    shuffle all_cells s1 = (cells, s2) /\
    Game.create_puzzle 82 EASY 0%nat = Ok (puzzle, solution, s2) /\
    (forall i j, (i < 9)%nat -> (j < 9)%nat ->
       cell puzzle i j
       = if decide ((i, j) ∈ take (Z.to_nat (cells_to_remove EASY)) cells)
         then 0 else cell solution i j) /\
    cells_to_remove EASY <= Z.of_nat (zeros puzzle)
                         <= Z.of_nat (zeros solution) + cells_to_remove EASY /\
    (zeros solution = 0%nat -> Z.of_nat (zeros puzzle) = cells_to_remove EASY).
Proof.
  apply (basic_puzzle_blanks 82 EASY 0%nat). lia.
Defined.

(** ** X18: the enhanced puzzle keeps one solution *)

Lemma zeros_0_find_blank b : zeros b = 0%nat -> find_blank b = None.
Proof.
  intros Hz. destruct (find_blank b) as [[i j]|] eqn:E; [|done].
  apply find_blank_Some in E as (Hi & Hj & H0).
  exfalso. by apply (proj1 (zeros_0_full b) Hz i j).
Qed.

Lemma count_full fuel b :
  wf b -> (82 <= fuel)%nat -> zeros b = 0%nat ->
  Enhanced.count_solutions fuel b = Ok (b, 1).
Proof.
  intros Hw Hfuel Hz. pose proof (zeros_0_find_blank b Hz) as Hnone.
  destruct (count_solutions_total fuel b Hw) as (c & Hrun & _ & Hmin); [lia|].
  rewrite Hrun. rewrite (Hmin [b]); [done|]. split.
  - repeat constructor. simpl. tauto.
  - intros g. simpl. split.
    + intros [<-|[]]. by apply fills_done.
    + intros Hg. inversion Hg; subst; [by left|congruence].
Qed.

Lemma agrees_consistent p sol :
  wf p -> valid_complete sol -> agrees p sol -> consistent p.
Proof.
  intros Hw Hv Ha. destruct (valid_consistent sol Hv) as [_ Hd]. split.
  - intros [i j] [Hi Hj]. cbn [fst snd] in Hi, Hj. unfold cellp. cbn [fst snd].
    destruct (Z.eq_dec (cell p i j) 0) as [->|Hnz]; [lia|].
    rewrite (Ha i j Hi Hj Hnz).
    pose proof (valid_cell_digit sol (i, j) Hv (conj Hi Hj)) as Hr.
    unfold cellp in Hr. cbn [fst snd] in Hr. lia.
  - intros [i j] [i' j'] [Hi Hj] [Hi' Hj'] Hne Hrel Hnz. cbn [fst snd] in *.
    unfold cellp in *. cbn [fst snd] in *. intros He.
    assert (Hnz' : cell p i' j' <> 0) by congruence.
    rewrite (Ha i j Hi Hj Hnz), (Ha i' j' Hi' Hj' Hnz') in He.
    apply (Hd (i, j) (i', j')); try done.
    unfold cellp. cbn [fst snd]. rewrite <- (Ha i j Hi Hj Hnz). done.
Qed.

(** X18.  [create_puzzle] of [sudoku_enhanced.py], whenever the complete
    board it starts from has no blank cell: [count_solutions] gives 1
    for the finished puzzle, whose search tree has exactly one filled
    leaf; and when the complete board is a valid grid, it is a
    completion of the puzzle and the only one. *)
Theorem enhanced_puzzle_unique {rng : Type} `{Shuffler rng}
    (fuel : nat) (d : Difficulty) (s : rng) (puzzle solution : board) (s' : rng) :
  (82 <= fuel)%nat ->
  Enhanced.create_puzzle fuel d s = Ok (puzzle, solution, s') ->
  zeros solution = 0%nat ->
  Enhanced.count_solutions fuel puzzle = Ok (puzzle, 1) /\
  (exists g, forall g', fills puzzle g' <-> g' = g) /\
  (valid_complete solution ->
   completion puzzle solution /\ forall g, completion puzzle g -> g = solution).
Proof.
  intros Hfuel Hrun Hz.
  destruct (enhanced_create_puzzle_spec fuel d s Hfuel)
    as (p & sol & s1 & s2 & _ & Hrun' & Hwp & Hws & Ha & _ & Hu).
  rewrite Hrun in Hrun'. injection Hrun' as <- <- <-.
  pose proof (Hu (count_full fuel solution Hws Hfuel Hz)) as Hcount.
  assert (Huniq : exists g, forall g', fills puzzle g' <-> g' = g).
  { destruct (count_solutions_total fuel puzzle Hwp) as (c & Hrun1 & _ & Hmin).
    { pose proof (zeros_le_81 puzzle). lia. }
    rewrite Hcount in Hrun1. injection Hrun1 as <-.
    destruct (fills_enumerable puzzle Hwp) as (l & Hl).
    pose proof (Hmin l Hl) as Hlen. destruct Hl as [_ Hl].
    destruct l as [|g [|g2 l]]; simpl in Hlen; try lia.
    exists g. intros g'. rewrite <- Hl. simpl. split; [by intros [->|[]]|by left]. }
  split; [done|]. split; [done|]. intros Hv.
  assert (Hc : completion puzzle solution).
  { split; [done|]. intros [i j] [Hi Hj] Hnz. unfold cellp in *. cbn [fst snd] in *.
    symmetry. by apply Ha. }
  split; [done|]. intros g Hg. destruct Huniq as (g0 & Hg0).
  pose proof (agrees_consistent puzzle solution Hwp Hv Ha) as Hcons.
  apply (completion_fills puzzle g Hwp Hcons) in Hg.
  apply (completion_fills puzzle solution Hwp Hcons) in Hc.
  apply Hg0 in Hg, Hc. congruence.
Qed.

(** The puzzle and the complete board the enhanced file makes at
    difficulty EASY when the shuffles rotate from 0. *)
Definition easy_puzzle : board :=
  [[0; 0; 0; 5; 1; 6; 3; 2; 4]; [6; 5; 4; 2; 7; 3; 9; 8; 1]; [3; 2; 1; 8; 4; 9; 6; 5; 7];
   [4; 6; 2; 1; 9; 8; 7; 3; 5]; [1; 3; 8; 7; 6; 5; 4; 9; 2]; [7; 9; 5; 4; 3; 2; 1; 6; 8];
   [5; 7; 6; 0; 0; 0; 0; 0; 0]; [0; 0; 0; 0; 0; 0; 0; 0; 0]; [0; 0; 0; 0; 2; 0; 0; 4; 3]].

Definition easy_solution : board :=
  [[9; 8; 7; 5; 1; 6; 3; 2; 4]; [6; 5; 4; 2; 7; 3; 9; 8; 1]; [3; 2; 1; 8; 4; 9; 6; 5; 7];
   [4; 6; 2; 1; 9; 8; 7; 3; 5]; [1; 3; 8; 7; 6; 5; 4; 9; 2]; [7; 9; 5; 4; 3; 2; 1; 6; 8];
   [5; 7; 6; 3; 8; 4; 2; 1; 9]; [2; 4; 3; 9; 5; 1; 8; 7; 6]; [8; 1; 9; 6; 2; 7; 5; 4; 3]].

Lemma enhanced_puzzle_unique_witness :
  Enhanced.count_solutions 82 easy_puzzle = Ok (easy_puzzle, 1) /\
  (exists g, forall g', fills easy_puzzle g' <-> g' = g) /\
  (valid_complete easy_solution ->
   completion easy_puzzle easy_solution /\
   forall g, completion easy_puzzle g -> g = easy_solution).
Proof.
  apply (enhanced_puzzle_unique 82 EASY 0%nat easy_puzzle easy_solution 58%nat).
  - lia.
  - vm_compute. reflexivity.
  - vm_compute. reflexivity.
Defined.

(** ** X19: what [generate_complete_board] can return *)

(** Where a cell of a diagonal box takes its value from: the box
    [k / 9] and the place [k mod 9] in the list written into it. *)
Definition seed_index (p : nat * nat) : option nat :=
  if (p.1 / 3 =? p.2 / 3)%nat
  then Some (9 * (p.1 / 3) + 3 * (p.1 mod 3) + p.2 mod 3)%nat
  else None.

Definition seed_value (vs : list (list Z)) (p : nat * nat) : Z :=
  match seed_index p with
  | Some k => nth (k mod 9) (nth (k / 9) vs []) 0
  | None => 0
  end.

Lemma seeded_cell v1 v2 v3 i j :
  length v1 = 9%nat -> length v2 = 9%nat -> length v3 = 9%nat ->
  (i < 9)%nat -> (j < 9)%nat ->
  cell (place_boxes [0; 3; 6]%nat [v1; v2; v3] empty_board) i j
  = seed_value [v1; v2; v3] (i, j).
Proof.
  intros H1 H2 H3 Hi Hj.
  destruct v1 as [|a0 [|a1 [|a2 [|a3 [|a4 [|a5 [|a6 [|a7 [|a8 [|? ?]]]]]]]]]]; try done.
  destruct v2 as [|b0 [|b1 [|b2 [|b3 [|b4 [|b5 [|b6 [|b7 [|b8 [|? ?]]]]]]]]]]; try done.
  destruct v3 as [|c0 [|c1 [|c2 [|c3 [|c4 [|c5 [|c6 [|c7 [|c8 [|? ?]]]]]]]]]]; try done.
  assert (Hb : place_boxes [0; 3; 6]%nat
                 [[a0; a1; a2; a3; a4; a5; a6; a7; a8]; [b0; b1; b2; b3; b4; b5; b6; b7; b8];
                  [c0; c1; c2; c3; c4; c5; c6; c7; c8]] empty_board
               = [[a0; a1; a2; 0; 0; 0; 0; 0; 0]; [a3; a4; a5; 0; 0; 0; 0; 0; 0];
                  [a6; a7; a8; 0; 0; 0; 0; 0; 0]; [0; 0; 0; b0; b1; b2; 0; 0; 0];
                  [0; 0; 0; b3; b4; b5; 0; 0; 0]; [0; 0; 0; b6; b7; b8; 0; 0; 0];
                  [0; 0; 0; 0; 0; 0; c0; c1; c2]; [0; 0; 0; 0; 0; 0; c3; c4; c5];
                  [0; 0; 0; 0; 0; 0; c6; c7; c8]]) by reflexivity.
  rewrite Hb. clear Hb H1 H2 H3.
  do 9 (destruct i as [|i]; [do 9 (destruct j as [|j]; [reflexivity|]); lia|]). lia.
Qed.

Lemma seed_index_related :
  Forall (fun p => Forall (fun q =>
            p <> q -> related p q ->
            forall k k', seed_index p = Some k -> seed_index q = Some k' ->
                         (k / 9 = k' / 9 /\ k mod 9 <> k' mod 9 /\ k / 9 < 3 /\
                          k mod 9 < 9 /\ k' mod 9 < 9)%nat) all_cells) all_cells.
Proof.
  apply List.Forall_forall. intros p Hp. apply List.Forall_forall. intros q Hq Hne Hrel k k'.
  assert (Hcheck : forallb (fun p => forallb (fun q =>
            if bool_decide (p <> q /\ related p q) then
              match seed_index p, seed_index q with
              | Some k, Some k' =>
                  ((k / 9 =? k' / 9) && negb (k mod 9 =? k' mod 9) && (k / 9 <? 3) &&
                   (k mod 9 <? 9) && (k' mod 9 <? 9))%nat
              | _, _ => true
              end
            else true) all_cells) all_cells = true) by (vm_compute; reflexivity).
  rewrite forallb_forall in Hcheck. specialize (Hcheck p Hp).
  rewrite forallb_forall in Hcheck. specialize (Hcheck q Hq).
  rewrite bool_decide_eq_true_2 in Hcheck by done.
  intros Hk Hk'. rewrite Hk, Hk' in Hcheck.
  rewrite !andb_true_iff, negb_true_iff, !Nat.eqb_eq, Nat.eqb_neq, !Nat.ltb_lt in Hcheck.
  tauto.
Qed.

Lemma consistent_seeds v1 v2 v3 :
  Permutation v1 digits -> Permutation v2 digits -> Permutation v3 digits ->
  consistent (place_boxes [0; 3; 6]%nat [v1; v2; v3] empty_board).
Proof.
  intros P1 P2 P3.
  assert (Hlen : forall v, Permutation v digits -> length v = 9%nat).
  { intros v Hv. by rewrite (Permutation_length Hv). }
  assert (Hnd : forall v, Permutation v digits -> List.NoDup v).
  { intros v Hv. eapply Permutation_NoDup; [symmetry; exact Hv|].
    apply NoDup_ListNoDup, NoDup_digits. }
  assert (Hdig : forall v x, Permutation v digits -> In x v -> 1 <= x <= 9).
  { intros v x Hv Hx. apply in_digits. eapply Permutation_in; eauto. }
  assert (Hblock : forall m, (m < 3)%nat ->
            Permutation (nth m [v1; v2; v3] []) digits).
  { intros m Hm. destruct m as [|[|[|m]]]; simpl; (done || lia). }
  assert (Hcell : forall p, in_grid p ->
            cellp (place_boxes [0; 3; 6]%nat [v1; v2; v3] empty_board) p
            = seed_value [v1; v2; v3] p).
  { intros [i j] [Hi Hj]. unfold cellp. cbn [fst snd] in *. apply seeded_cell; auto. }
  pose proof seed_index_related as Htab. rewrite List.Forall_forall in Htab.
  split.
  - intros p Hp. rewrite (Hcell p Hp). unfold seed_value.
    destruct (seed_index p) as [k|] eqn:Ek; [|lia].
    assert (Hm : (k / 9 < 3)%nat).
    { unfold seed_index in Ek. destruct (p.1 / 3 =? p.2 / 3)%nat; [|done].
      assert (Hk : k = (9 * (p.1 / 3) + 3 * (p.1 mod 3) + p.2 mod 3)%nat) by congruence.
      rewrite Hk. clear Ek Hk. destruct Hp as [Hp1 Hp2].
      assert (p.1 / 3 < 3)%nat by (apply Nat.Div0.div_lt_upper_bound; lia).
      assert (p.1 mod 3 < 3)%nat by (apply Nat.mod_upper_bound; lia).
      assert (p.2 mod 3 < 3)%nat by (apply Nat.mod_upper_bound; lia).
      apply Nat.Div0.div_lt_upper_bound. lia. }
    pose proof (Hblock _ Hm) as Hperm.
    assert (Hin : In (nth (k mod 9) (nth (k / 9) [v1; v2; v3] []) 0)
                     (nth (k / 9) [v1; v2; v3] [])).
    { apply nth_In. rewrite (Hlen _ Hperm). apply Nat.mod_upper_bound. lia. }
    pose proof (Hdig _ _ Hperm Hin). lia.
  - intros p q Hp Hq Hne Hrel. rewrite (Hcell p Hp), (Hcell q Hq). unfold seed_value.
    destruct (seed_index p) as [k|] eqn:Ek; [|done].
    destruct (seed_index q) as [k'|] eqn:Ek'; [|done].
    apply in_all_cells in Hp, Hq. specialize (Htab p Hp). rewrite List.Forall_forall in Htab.
    destruct (Htab q Hq Hne Hrel k k' Ek Ek') as (Hd & Hm & H3 & H9 & H9').
    intros _ He. rewrite <- Hd in He. pose proof (Hblock _ H3) as Hperm.
    apply Hm. eapply (proj1 (NoDup_nth _ 0) (Hnd _ Hperm)); [| |exact He];
      by rewrite (Hlen _ Hperm).
Qed.

Section SeededBoards.
Context {rng : Type} `{Shuffler rng}.

Lemma diagonal_values_perm boxes s :
  length (diagonal_values boxes s).1 = length boxes /\
  Forall (fun v => Permutation v digits) (diagonal_values boxes s).1.
Proof.
  revert s. induction boxes as [|box boxes IH]; intros s; [by split|].
  cbn [diagonal_values]. pose proof (shuffle_perm Z digits s) as Hp.
  destruct (shuffle digits s) as [nums s1]. cbn [fst] in Hp.
  destruct (IH s1) as [Hl Hf]. destruct (diagonal_values boxes s1) as [vs s2].
  cbn [fst] in *. split; [simpl; by rewrite Hl|].
  constructor; [|done]. rewrite <- Permutation_rev. by symmetry.
Qed.

Lemma consistent_seeded_board s : consistent (seeded_board s).
Proof.
  unfold seeded_board. destruct (diagonal_values_perm [0; 3; 6]%nat s) as [Hl Hf].
  destruct (diagonal_values [0; 3; 6]%nat s).1 as [|v1 [|v2 [|v3 [|? ?]]]]; try done.
  apply Forall_cons in Hf as [P1 Hf]. apply Forall_cons in Hf as [P2 Hf].
  apply Forall_cons in Hf as [P3 _]. by apply consistent_seeds.
Qed.

(** X19.  [generate_complete_board] (both files): the board it hands to
    the solver, with the three diagonal boxes filled, is a
    legally-consistent partial grid, and the call returns either a
    valid complete grid that keeps those three boxes, or - when the
    solver reports failure, which the code does not look at - the
    seeded board itself, with no completion in existence.  It never
    returns a grid that breaks a rule. *)
Theorem generated_board_valid_or_seed (fuel : nat) (s : rng) :
  (82 <= fuel)%nat ->
  consistent (seeded_board s) /\
  (exists b s', Game.generate_complete_board fuel s = Ok (b, s') /\
     (completion (seeded_board s) b \/
      b = seeded_board s /\ forall g, ~ completion (seeded_board s) g)) /\
  (exists b s', Enhanced.generate_complete_board fuel s = Ok (b, s') /\
     (completion (seeded_board s) b \/
      b = seeded_board s /\ forall g, ~ completion (seeded_board s) g)).
Proof.
  intros Hfuel. pose proof (consistent_seeded_board s) as Hc.
  pose proof (wf_seeded_board s) as Hw. split; [done|]. split.
  - destruct (game_generate_spec fuel s Hfuel) as (r & b & _ & Hrun & _ & Ht & Hf).
    exists b, (seeded_state s). split; [done|]. destruct r.
    + left. apply fills_completion; auto.
    + right. destruct (Hf eq_refl) as [-> Hno]. split; [done|].
      intros g Hg. apply (Hno g). by apply completion_fills.
  - destruct (enhanced_generate_spec fuel s Hfuel) as (r & b & s' & _ & Hrun & _ & Ht & Hf).
    exists b, s'. split; [done|]. destruct r.
    + left. apply fills_completion; auto.
    + right. destruct (Hf eq_refl) as [-> Hno]. split; [done|].
      intros g Hg. apply (Hno g). by apply completion_fills.
Qed.

End SeededBoards.

Lemma generated_board_valid_or_seed_witness :
  consistent (seeded_board 0%nat) /\
  (exists b s', Game.generate_complete_board 82 0%nat = Ok (b, s') /\
     (completion (seeded_board 0%nat) b \/
      b = seeded_board 0%nat /\ forall g, ~ completion (seeded_board 0%nat) g)) /\
  (exists b s', Enhanced.generate_complete_board 82 0%nat = Ok (b, s') /\
     (completion (seeded_board 0%nat) b \/
      b = seeded_board 0%nat /\ forall g, ~ completion (seeded_board 0%nat) g)).
Proof.
  apply (generated_board_valid_or_seed 82 0%nat). lia.
Defined.

(** ** X20: the event loop of the enhanced file *)

Lemma getattr_GREEN : getattr "GREEN" = AttributeError "GREEN".
Proof. reflexivity. Qed.

Lemma enhanced_draw_buttons_raises : EnhancedUI.draw_buttons = AttributeError "GREEN".
Proof. unfold EnhancedUI.draw_buttons. by rewrite getattr_GREEN. Qed.

Lemma enhanced_draw_ui_raises now e : EnhancedUI.draw_ui now e = AttributeError "GREEN".
Proof. unfold EnhancedUI.draw_ui. cbv zeta. by rewrite enhanced_draw_buttons_raises. Qed.

Section EnhancedLoop.
Context {rng : Type} `{Shuffler rng}.

Lemma enhanced_frame_no_return fuel events now (e : egame) (s : rng) r :
  EnhancedUI.frame fuel events now e s <> Result (Ok r).
Proof.
  unfold EnhancedUI.frame.
  destruct (EnhancedUI.process_events fuel events e s true) as [[[[e1 s1] rn]| |]|name];
    cbn [obind]; try discriminate.
  destruct (EnhancedUI.draw_numbers (e_game e1)) as [[]| |]; cbn [obind]; try discriminate.
  destruct (EnhancedUI.draw_selection (e_game e1)) as [[]| |]; cbn [obind];
    rewrite ?enhanced_draw_ui_raises; discriminate.
Qed.

Lemma enhanced_click_raises fuel now pos (e : egame) (s : rng) :
  playable (e_game e) ->
  EnhancedUI.handle_event fuel now (MOUSEBUTTONDOWN 1 pos) e s = AttributeError "GREEN".
Proof.
  intros Hp. cbn [EnhancedUI.handle_event Z.eqb Pos.eqb].
  destruct (handle_click_playable (e_game e) pos Hp) as (sel & Hrun & _).
  rewrite Hrun. cbn [obind]. by rewrite enhanced_draw_buttons_raises.
Qed.

Lemma enhanced_events_playable fuel events (e : egame) (s : rng) running :
  playable (e_game e) ->
  EnhancedUI.process_events fuel events e s running = AttributeError "GREEN" \/
  exists e' s' r, EnhancedUI.process_events fuel events e s running = Result (Ok (e', s', r)) /\
                  playable (e_game e').
Proof.
  revert e s running. induction events as [|[now ev] rest IH]; intros e s running Hp.
  - right. by exists e, s, running.
  - cbn [EnhancedUI.process_events]. destruct ev as [|button pos|key|].
    + cbn [EnhancedUI.handle_event obind]. by apply IH.
    + destruct (button =? 1) eqn:Eb.
      * apply Z.eqb_eq in Eb. subst button. rewrite enhanced_click_raises by done. by left.
      * cbn [EnhancedUI.handle_event]. rewrite Eb. cbn [obind]. by apply IH.
    + cbn [EnhancedUI.handle_event].
      destruct (enhanced_handle_key_step e key Hp) as (e1 & Hrun & Hp1 & _).
      rewrite Hrun. cbn [obind]. by apply IH.
    + cbn [EnhancedUI.handle_event obind]. by apply IH.
Qed.

Lemma enhanced_frame_raises fuel events now (e : egame) (s : rng) :
  playable (e_game e) ->
  EnhancedUI.frame fuel events now e s = AttributeError "GREEN".
Proof.
  intros Hp. unfold EnhancedUI.frame.
  destruct (enhanced_events_playable fuel events e s true Hp)
    as [Hrun|(e1 & s1 & r & Hrun & Hp1)]; rewrite Hrun; [done|].
  cbn [obind]. rewrite enhanced_draw_numbers_ok, enhanced_draw_selection_ok by done.
  cbn [obind]. by rewrite enhanced_draw_ui_raises.
Qed.

(** X20.  The class of [sudoku_enhanced.py] never sets the attribute
    [GREEN] that [draw_buttons] reads for its first button.  So the
    loop of [run] cannot finish a single turn: from any state and with
    any events, [run] does not return, and the lines behind the loop
    that add the session to the statistics and save them are never
    reached.  Started in a playable state, the call ends with
    [AttributeError] for [GREEN], raised by [draw_ui] at the end of the
    first turn or before that by the first left click, which gets as far
    as [handle_click] and never to [handle_button_click] or
    [handle_sidebar_click]. *)
Theorem enhanced_run_raises (fuel : nat) (frames : list (list (float * event) * float))
    (e : egame) (s : rng) :
  frames <> [] ->
  (forall r, EnhancedUI.run fuel frames e s <> Result (Ok r)) /\
  (playable (e_game e) ->
   EnhancedUI.run fuel frames e s = AttributeError "GREEN" /\
   forall now pos,
     EnhancedUI.handle_event fuel now (MOUSEBUTTONDOWN 1 pos) e s = AttributeError "GREEN").
Proof.
  intros Hne. destruct frames as [|[events now] rest]; [done|]. cbn [EnhancedUI.run]. split.
  - intros r. pose proof (enhanced_frame_no_return fuel events now e s) as Hno.
    destruct (EnhancedUI.frame fuel events now e s) as [[[[e1 s1] rn]| |]|name];
      cbn [obind]; try discriminate.
    exfalso. by apply (Hno (e1, s1, rn)).
  - intros Hp. split.
    + by rewrite enhanced_frame_raises.
    + intros now' pos. by apply enhanced_click_raises.
Qed.

End EnhancedLoop.

Lemma enhanced_run_raises_witness :
  (forall r, EnhancedUI.run 82 sample_frames (init_egame typing_game) 5%nat <> Result (Ok r)) /\
  EnhancedUI.run 82 sample_frames (init_egame typing_game) 5%nat = AttributeError "GREEN" /\
  forall now pos,
    EnhancedUI.handle_event 82 now (MOUSEBUTTONDOWN 1 pos) (init_egame typing_game) 5%nat
    = AttributeError "GREEN".
Proof.
  destruct (enhanced_run_raises 82 sample_frames (init_egame typing_game) 5%nat) as [Hno Hp].
  - discriminate.
  - split; [exact Hno|]. apply Hp. apply playable_typing_game.
Defined.
